(** * URL shortener: the registry service and its validation rules

    A shallow embedding of [URLService] (services/urlService.ts), of the
    validators of utils/validation.ts and of the logger they call, with the
    properties of the specification proved about them; and of the
    handlers of the pages that call the service (the redirection page,
    the form and the list of the shortener page, the figures of the
    statistics page), with what they make of it.

    Conventions of the embedding.
    - A JavaScript string is a [string] of code units below 256.
    - A [Date] is its [getTime ()] value, a [Z] of milliseconds, and the
      numbers that the code counts with ([clickCount], [expiryMinutes]) are
      integers: invalid dates, fractions and the rounding of large doubles
      are left out.
    - Objects that the code shares by reference (the [ShortenedURL]
      records, the arrays that [getAllUrls] returns) live in a heap and are
      named by their location; a location that names no object does not
      arise in a state of the registry ([Spec.refs_valid]), and the
      operations leave the state alone there.
    - [Date.now ()], [new Date ()], [Math.random ()] and
      [window.location.origin] are read from the environment: every reading
      is an argument of the operation that makes it.
    - [localStorage] holds the values that were serialised into it; its
      reads and writes succeed. *)

From Stdlib Require Import ZArith Ascii Lia.
From stdpp Require Import base list strings gmap fin_maps pretty sorting.

Local Open Scope Z_scope.

(** ** Strings *)

Module Str.

(** Code units that [String.prototype.trim] strips: TAB, LF, VT, FF, CR,
    SP and NBSP (the white space and line terminators below 256). *)
Definition is_space (c : ascii) : bool :=
  match nat_of_ascii c with
  | 9 | 10 | 11 | 12 | 13 | 32 | 160 => true
  | _ => false
  end%nat.

Fixpoint trim_start (s : string) : string :=
  match s with
  | EmptyString => EmptyString
  | String c s' => if is_space c then trim_start s' else s
  end.

Fixpoint rev_onto (s acc : string) : string :=
  match s with
  | EmptyString => acc
  | String c s' => rev_onto s' (String c acc)
  end.

Definition rev (s : string) : string := rev_onto s EmptyString.

(** [s.trim ()] *)
Definition trim (s : string) : string :=
  rev (trim_start (rev (trim_start s))).

(** JavaScript truthiness of a string: every string but the empty one. *)
Definition truthy (s : string) : bool :=
  match s with EmptyString => false | String _ _ => true end.

Definition is_upper (c : ascii) : bool :=
  (65 <=? nat_of_ascii c)%nat && (nat_of_ascii c <=? 90)%nat.

Definition is_lower (c : ascii) : bool :=
  (97 <=? nat_of_ascii c)%nat && (nat_of_ascii c <=? 122)%nat.

(** Upper case letters of Latin-1 outside ASCII: U+00C0 to U+00DE but the
    multiplication sign U+00D7. *)
Definition is_upper_latin1 (c : ascii) : bool :=
  (192 <=? nat_of_ascii c)%nat && (nat_of_ascii c <=? 222)%nat
  && negb (nat_of_ascii c =? 215)%nat.

Definition lower_char (c : ascii) : ascii :=
  if is_upper c || is_upper_latin1 c
  then ascii_of_nat (nat_of_ascii c + 32) else c.

Definition upper_ascii (c : ascii) : ascii :=
  if is_lower c then ascii_of_nat (nat_of_ascii c - 32) else c.

(** [s.toLowerCase ()] *)
Fixpoint toLowerCase (s : string) : string :=
  match s with
  | EmptyString => EmptyString
  | String c s' => String (lower_char c) (toLowerCase s')
  end.

(** [s.charAt (i)]: the empty string out of range. *)
Definition charAt (s : string) (i : nat) : string :=
  match String.get i s with
  | Some c => String c EmptyString
  | None => EmptyString
  end.

Fixpoint to_list (s : string) : list ascii :=
  match s with
  | EmptyString => []
  | String c s' => c :: to_list s'
  end.

(** [xs.includes (s)] on an array of strings. *)
Definition includes (xs : list string) (s : string) : bool :=
  existsb (String.eqb s) xs.

End Str.

(** ** Regular expressions

    The fragment of JavaScript regular expressions that the validators
    use: literal characters, character classes given by ranges,
    concatenation and the [+] quantifier, the assertions [^] and [$] at the
    ends of the pattern, and the [i] flag. Matching is by derivatives. *)

Module RegExp.

Inductive regex : Type :=
| Void
| Eps
| Chr (c : ascii)
| Class (ranges : list (ascii * ascii))
| Cat (r1 r2 : regex)
| Alt (r1 r2 : regex)
| Star (r : regex).

(** [r+] *)
Definition Plus (r : regex) : regex := Cat r (Star r).

(** A run of literal characters. *)
Fixpoint Lit (s : string) : regex :=
  match s with
  | EmptyString => Eps
  | String c s' => Cat (Chr c) (Lit s')
  end.

(** A regular expression literal [/^?source$?/i?]. *)
Record t : Type := mk {
  anchorStart : bool;
  source : regex;
  anchorEnd : bool;
  ignoreCase : bool
}.

Definition in_ranges (rs : list (ascii * ascii)) (x : ascii) : bool :=
  existsb (fun r => (nat_of_ascii (fst r) <=? nat_of_ascii x)%nat
                    && (nat_of_ascii x <=? nat_of_ascii (snd r))%nat) rs.

Section Matching.

Variable ic : bool.

(** Without the [u] flag, [i] compares the upper-cased code units, and a
    code unit from 128 on is never equal to one below 128: on the ASCII
    patterns used here that is equality up to ASCII case. *)
Definition chr_match (c x : ascii) : bool :=
  if ic then Ascii.eqb (Str.upper_ascii c) (Str.upper_ascii x)
  else Ascii.eqb c x.

Definition class_match (rs : list (ascii * ascii)) (x : ascii) : bool :=
  if ic
  then in_ranges rs x || in_ranges rs (Str.upper_ascii x)
       || in_ranges rs (Str.lower_char (Str.upper_ascii x))
  else in_ranges rs x.

Fixpoint nullable (r : regex) : bool :=
  match r with
  | Void | Chr _ | Class _ => false
  | Eps | Star _ => true
  | Cat r1 r2 => nullable r1 && nullable r2
  | Alt r1 r2 => nullable r1 || nullable r2
  end.

Fixpoint deriv (x : ascii) (r : regex) : regex :=
  match r with
  | Void | Eps => Void
  | Chr c => if chr_match c x then Eps else Void
  | Class rs => if class_match rs x then Eps else Void
  | Cat r1 r2 =>
      if nullable r1
      then Alt (Cat (deriv x r1) r2) (deriv x r2)
      else Cat (deriv x r1) r2
  | Alt r1 r2 => Alt (deriv x r1) (deriv x r2)
  | Star r1 => Cat (deriv x r1) (Star r1)
  end.

(** The whole of [s] matches [r]. *)
Fixpoint matches (r : regex) (s : list ascii) : bool :=
  match s with
  | [] => nullable r
  | x :: s' => matches (deriv x r) s'
  end.

(** Some prefix of [s] matches [r]. *)
Fixpoint matches_prefix (r : regex) (s : list ascii) : bool :=
  nullable r ||
  match s with
  | [] => false
  | x :: s' => matches_prefix (deriv x r) s'
  end.

(** Some suffix of [s] matches [r]. *)
Fixpoint matches_suffix (r : regex) (s : list ascii) : bool :=
  matches r s ||
  match s with
  | [] => false
  | _ :: s' => matches_suffix r s'
  end.

(** Some substring of [s] matches [r]. *)
Fixpoint search (r : regex) (s : list ascii) : bool :=
  matches_prefix r s ||
  match s with
  | [] => false
  | _ :: s' => search r s'
  end.

(** The words of a regular expression. *)
Inductive lang : regex -> list ascii -> Prop :=
| lang_eps : lang Eps []
| lang_chr c x : chr_match c x = true -> lang (Chr c) [x]
| lang_class rs x : class_match rs x = true -> lang (Class rs) [x]
| lang_cat r1 r2 s1 s2 :
    lang r1 s1 -> lang r2 s2 -> lang (Cat r1 r2) (s1 ++ s2)
| lang_alt_l r1 r2 s : lang r1 s -> lang (Alt r1 r2) s
| lang_alt_r r1 r2 s : lang r2 s -> lang (Alt r1 r2) s
| lang_star_nil r : lang (Star r) []
| lang_star_app r s1 s2 :
    lang r s1 -> lang (Star r) s2 -> lang (Star r) (s1 ++ s2).

End Matching.

(** [re.test (s)] *)
Definition test (re : t) (s : string) : bool :=
  let cs := Str.to_list s in
  match anchorStart re, anchorEnd re with
  | true, true => matches (ignoreCase re) (source re) cs
  | true, false => matches_prefix (ignoreCase re) (source re) cs
  | false, true => matches_suffix (ignoreCase re) (source re) cs
  | false, false => search (ignoreCase re) (source re) cs
  end.

End RegExp.

(** ** Data model (types/index.ts) *)

Module ClickEvent.
Record t : Type := mk {
  id : string;
  timestamp : Z;
  userAgent : string;
  ipAddress : string;
  referrer : string;
  location : string
}.
End ClickEvent.

Module ShortenedURL.
Record t : Type := mk {
  id : string;
  originalUrl : string;
  shortCode : string;
  shortUrl : string;
  createdAt : Z;
  expiresAt : Z;
  isActive : bool;
  clickCount : Z;
  clicks : list ClickEvent.t
}.

(** Assignments to the fields that the service writes. *)
Definition set_isActive (b : bool) (u : t) : t :=
  mk (id u) (originalUrl u) (shortCode u) (shortUrl u) (createdAt u)
     (expiresAt u) b (clickCount u) (clicks u).

Definition set_clickCount (n : Z) (u : t) : t :=
  mk (id u) (originalUrl u) (shortCode u) (shortUrl u) (createdAt u)
     (expiresAt u) (isActive u) n (clicks u).

Definition set_clicks (cs : list ClickEvent.t) (u : t) : t :=
  mk (id u) (originalUrl u) (shortCode u) (shortUrl u) (createdAt u)
     (expiresAt u) (isActive u) (clickCount u) cs.

End ShortenedURL.

(** A log event, kept up to its level and action tag: its id, timestamp,
    session id and details are written once and read by no operation. *)
Module LogEvent.
Inductive level_t : Type := INFO | WARN | ERROR.
Record t : Type := mk { level : level_t; action : string }.
End LogEvent.

Module ValidationResult.
Record t : Type := mk { isValid : bool; errors : list string }.
End ValidationResult.

(** ** [Map<string, V>]: a map that iterates in insertion order *)

Module JsMap.

Section Ops.
Context {V : Type}.

Fixpoint get (k : string) (m : list (string * V)) : option V :=
  match m with
  | [] => None
  | (k', v) :: m' => if String.eqb k k' then Some v else get k m'
  end.

(** [m.set (k, v)]: an existing key keeps its place. *)
Fixpoint set (k : string) (v : V) (m : list (string * V))
  : list (string * V) :=
  match m with
  | [] => [(k, v)]
  | (k', v') :: m' =>
      if String.eqb k k' then (k, v) :: m' else (k', v') :: set k v m'
  end.

Fixpoint delete (k : string) (m : list (string * V))
  : list (string * V) :=
  match m with
  | [] => []
  | (k', v') :: m' =>
      if String.eqb k k' then delete k m' else (k', v') :: delete k m'
  end.

Definition values (m : list (string * V)) : list V := map snd m.
End Ops.

End JsMap.

(** ** The state of the page

    [heap] holds the [ShortenedURL] objects and [arrays] the arrays of
    references that [getAllUrls] hands out; [urls] and [shortCodeToId] are
    the two private maps of [URLService] ([shortCodeToId] is only read by
    key, so its iteration order is left out); [logs] is [Logger.logs];
    [ls_urls] and [ls_logs] are the two [localStorage] slots, as the values
    that were serialised into them. *)

Abbreviation loc := nat.

Record World : Type := mkWorld {
  heap : list ShortenedURL.t;
  arrays : list (list loc);
  urls : list (string * loc);
  shortCodeToId : gmap string string;
  logs : list LogEvent.t;
  ls_urls : option (list ShortenedURL.t);
  ls_logs : list LogEvent.t
}.

Definition set_heap (h : list ShortenedURL.t) (w : World) : World :=
  mkWorld h (arrays w) (urls w) (shortCodeToId w) (logs w) (ls_urls w)
          (ls_logs w).

Definition set_arrays (a : list (list loc)) (w : World) : World :=
  mkWorld (heap w) a (urls w) (shortCodeToId w) (logs w) (ls_urls w)
          (ls_logs w).

Definition set_urls (m : list (string * loc)) (w : World) : World :=
  mkWorld (heap w) (arrays w) m (shortCodeToId w) (logs w) (ls_urls w)
          (ls_logs w).

Definition set_shortCodeToId (m : gmap string string) (w : World) : World :=
  mkWorld (heap w) (arrays w) (urls w) m (logs w) (ls_urls w) (ls_logs w).

Definition set_logs (l : list LogEvent.t) (w : World) : World :=
  mkWorld (heap w) (arrays w) (urls w) (shortCodeToId w) l (ls_urls w)
          (ls_logs w).

Definition set_ls_urls (s : option (list ShortenedURL.t)) (w : World)
  : World :=
  mkWorld (heap w) (arrays w) (urls w) (shortCodeToId w) (logs w) s
          (ls_logs w).

Definition set_ls_logs (l : list LogEvent.t) (w : World) : World :=
  mkWorld (heap w) (arrays w) (urls w) (shortCodeToId w) (logs w)
          (ls_urls w) l.

(** A page that has stored nothing yet, before [URLService] is built. *)
Definition empty_world : World := mkWorld [] [] [] ∅ [] None [].

(** ** Computations: state and exceptions

    A thrown [Error] keeps the state reached when it was thrown. *)

Inductive result (A : Type) : Type :=
| Ok (a : A)
| Throw (message : string).

Arguments Ok {A} a.
Arguments Throw {A} message.

Definition M (A : Type) : Type := World -> result A * World.

Definition ret {A : Type} (a : A) : M A := fun w => (Ok a, w).

Definition bind {A B : Type} (m : M A) (k : A -> M B) : M B :=
  fun w =>
    match m w with
    | (Ok a, w') => k a w'
    | (Throw e, w') => (Throw e, w')
    end.

Definition throw {A : Type} (message : string) : M A :=
  fun w => (Throw message, w).

Definition gets {A : Type} (f : World -> A) : M A := fun w => (Ok (f w), w).

Definition modify (f : World -> World) : M unit := fun w => (Ok tt, f w).

Notation "'let*' x ':=' m 'in' k" := (bind m (fun x => k))
  (at level 10, x name, m at level 100, k at level 200).
Notation "m ';;' k" := (bind m (fun _ => k))
  (at level 100, k at level 200, right associativity).

(** [new] of an object literal: the next free location. *)
Definition alloc (u : ShortenedURL.t) : M loc :=
  fun w => (Ok (length (heap w)), set_heap (heap w ++ [u]) w).

(** An assignment to fields of the object at [l]. *)
Definition update (l : loc) (f : ShortenedURL.t -> ShortenedURL.t) : M unit :=
  modify (fun w =>
    match heap w !! l with
    | Some u => set_heap (<[l := f u]> (heap w)) w
    | None => w
    end).

(** The objects of [Array.from (this.urls.values ())]. *)
Definition url_values (w : World) : list ShortenedURL.t :=
  omap (fun l => heap w !! l) (JsMap.values (urls w)).

(** ** Logger (utils/logger.ts) *)

Module Logger.

(** [persistLog]: the stored list keeps its last 1000 events. *)
Definition persistLog (logEvent : LogEvent.t) : M unit :=
  modify (fun w =>
    let existingLogs := ls_logs w ++ [logEvent] in
    let existingLogs :=
      if (1000 <? length existingLogs)%nat
      then drop (length existingLogs - 1000) existingLogs
      else existingLogs in
    set_ls_logs existingLogs w).

Definition log (level : LogEvent.level_t) (action : string) : M unit :=
  let logEvent := LogEvent.mk level action in
  modify (fun w => set_logs (logs w ++ [logEvent]) w) ;;
  persistLog logEvent.

Definition info : string -> M unit := log LogEvent.INFO.
Definition warn : string -> M unit := log LogEvent.WARN.
Definition error : string -> M unit := log LogEvent.ERROR.

(** [getLogs]: a copy of the list. *)
Definition getLogs (w : World) : list LogEvent.t := logs w.

Definition getStoredLogs (w : World) : list LogEvent.t := ls_logs w.

End Logger.

(** ** Validation (utils/validation.ts) *)

Module Validation.

(** [/javascript:/i], [/data:/i], [/vbscript:/i], [/file:/i] *)
Definition maliciousPatterns : list RegExp.t :=
  [ RegExp.mk false (RegExp.Lit "javascript:") false true;
    RegExp.mk false (RegExp.Lit "data:") false true;
    RegExp.mk false (RegExp.Lit "vbscript:") false true;
    RegExp.mk false (RegExp.Lit "file:") false true ].

(** [/^[a-zA-Z0-9_-]+$/] *)
Definition shortCodePattern : RegExp.t :=
  RegExp.mk true
    (RegExp.Plus (RegExp.Class
       [("a", "z"); ("A", "Z"); ("0", "9"); ("_", "_"); ("-", "-")]%char))
    true false.

Definition reservedWords : list string :=
  ["admin"; "api"; "www"; "app"; "stats"; "analytics"].

Definition E_required : string := "URL is required".
Definition E_protocol : string := "URL must use HTTP or HTTPS protocol".
Definition E_malicious : string :=
  "URL contains potentially malicious content".
Definition E_format : string := "Invalid URL format".
Definition E_length : string :=
  "Short code must be between 3 and 20 characters".
Definition E_charset : string :=
  "Short code can only contain letters, numbers, hyphens, and underscores".
Definition E_reserved : string := "Short code cannot use reserved words".
Definition E_expiry_min : string := "Expiry time must be at least 1 minute".
Definition E_expiry_max : string := "Expiry time cannot exceed 30 days".

(** [errors.push (e)] when [b] holds. *)
Definition push_if (b : bool) (e : string) (errors : list string)
  : list string :=
  if b then errors ++ [e] else errors.

Section Platform.

(** The platform's URL parser: [URL_protocol s] is the [protocol] of
    [new URL (s)], and [None] when the constructor throws. *)
Variable URL_protocol : string -> option string.

Definition validateUrl (url : string) : M ValidationResult.t :=
  let errors : list string := [] in
  let* errors :=
    if negb (Str.truthy (Str.trim url)) then
      ret (errors ++ [E_required])
    else
      match URL_protocol url with
      | Some protocol =>
          let errors :=
            push_if (negb (Str.includes ["http:"; "https:"] protocol))
                    E_protocol errors in
          if existsb (fun pattern => RegExp.test pattern url)
                     maliciousPatterns
          then
            let errors := errors ++ [E_malicious] in
            Logger.warn "MALICIOUS_URL_ATTEMPT" ;;
            ret errors
          else ret errors
      | None => ret (errors ++ [E_format])
      end in
  let result :=
    ValidationResult.mk (length errors =? 0)%nat errors in
  Logger.info "URL_VALIDATION" ;;
  ret result.

End Platform.

Definition validateShortCode (shortCode : string) : M ValidationResult.t :=
  let errors : list string := [] in
  let errors :=
    if Str.truthy (Str.trim shortCode) then
      let errors :=
        push_if ((String.length shortCode <? 3)%nat
                 || (20 <? String.length shortCode)%nat)
                E_length errors in
      let errors :=
        push_if (negb (RegExp.test shortCodePattern shortCode))
                E_charset errors in
      push_if (Str.includes reservedWords (Str.toLowerCase shortCode))
              E_reserved errors
    else errors in
  let result := ValidationResult.mk (length errors =? 0)%nat errors in
  Logger.info "SHORTCODE_VALIDATION" ;;
  ret result.

Definition validateExpiryMinutes (minutes : Z) : ValidationResult.t :=
  let errors : list string := [] in
  let errors := push_if (minutes <? 1) E_expiry_min errors in
  let errors := push_if (43200 <? minutes) E_expiry_max errors in
  ValidationResult.mk (length errors =? 0)%nat errors.

(** The head of the platform's URL parser, for inputs without a base URL:
    after leading and trailing C0 controls and spaces are stripped, the
    scheme is a letter followed by letters, digits, [+], [-] or [.] up to
    the first [:], and a string without such a scheme is not an absolute
    URL. Only this part is modelled: [scheme_of s = None] says that
    [new URL (s)] throws, and when [new URL (s)] succeeds its [protocol]
    is the lower-cased scheme with the colon. *)
Definition is_c0_or_space (c : ascii) : bool :=
  (nat_of_ascii c <=? 32)%nat.

Definition is_scheme_char (c : ascii) : bool :=
  Str.is_lower c || Str.is_upper c
  || ((48 <=? nat_of_ascii c)%nat && (nat_of_ascii c <=? 57)%nat)
  || Ascii.eqb c "+" || Ascii.eqb c "-" || Ascii.eqb c ".".

Fixpoint scheme_rest (s : string) : option string :=
  match s with
  | EmptyString => None
  | String c s' =>
      if Ascii.eqb c ":" then Some ":"
      else if is_scheme_char c
           then option_map (String (Str.lower_char c)) (scheme_rest s')
           else None
  end.

Fixpoint strip_c0_start (s : string) : string :=
  match s with
  | EmptyString => EmptyString
  | String c s' => if is_c0_or_space c then strip_c0_start s' else s
  end.

(** Tabs and newlines are removed wherever they stand. *)
Fixpoint remove_tab_newline (s : string) : string :=
  match s with
  | EmptyString => EmptyString
  | String c s' =>
      match nat_of_ascii c with
      | 9 | 10 | 13 => remove_tab_newline s'
      | _ => String c (remove_tab_newline s')
      end%nat
  end.

Definition scheme_of (s : string) : option string :=
  match remove_tab_newline (strip_c0_start s) with
  | EmptyString => None
  | String c s' =>
      if Str.is_lower c || Str.is_upper c
      then option_map (String (Str.lower_char c)) (scheme_rest s')
      else None
  end.

End Validation.

(** ** URLService (services/urlService.ts) *)

Module URLService.

Definition E_duplicate : string := "Short code already exists".
Definition E_limit : string := "Maximum of 5 concurrent URLs allowed".

(** What one call of [shortenUrl] reads from its environment. *)
Record ShortenEnv : Type := mkShortenEnv {
  s_dateNow : Z;            (* Date.now (), for the id *)
  s_random : string;        (* Math.random ().toString (36).substr (2, 9) *)
  s_draw : nat -> nat;      (* Math.floor (Math.random () * chars.length),
                               at each turn of the loop *)
  s_newDate : Z;            (* new Date () *)
  s_origin : string         (* window.location.origin *)
}.

(** What one call of [recordClick] reads from its environment. *)
Record ClickEnv : Type := mkClickEnv {
  c_lookupDate : Z;         (* new Date (), in getUrlByShortCode *)
  c_dateNow : Z;            (* Date.now (), for the id *)
  c_random : string;        (* Math.random ().toString (36).substr (2, 9) *)
  c_newDate : Z             (* new Date (), the timestamp *)
}.

(** [loadFromStorage]: every stored record becomes a new object, in the
    turns of [urlsArray.forEach]. *)
Fixpoint load_each (urlsArray : list ShortenedURL.t) : M unit :=
  match urlsArray with
  | [] => ret tt
  | url :: rest =>
      let* l := alloc url in
      modify (fun w =>
        set_urls (JsMap.set (ShortenedURL.id url) l (urls w)) w) ;;
      modify (fun w =>
        set_shortCodeToId
          (<[ShortenedURL.shortCode url := ShortenedURL.id url]>
             (shortCodeToId w)) w) ;;
      load_each rest
  end.

Definition loadFromStorage : M unit :=
  let* stored := gets ls_urls in
  match stored with
  | Some urlsArray =>
      load_each urlsArray ;;
      Logger.info "URLS_LOADED_FROM_STORAGE"
  | None => ret tt
  end.

Definition saveToStorage : M unit :=
  let* urlsArray := gets url_values in
  modify (set_ls_urls (Some urlsArray)) ;;
  Logger.info "URLS_SAVED_TO_STORAGE".

Definition chars : string :=
  "abcdefghijklmnopqrstuvwxyzABCDEFGHIJKLMNOPQRSTUVWXYZ0123456789".

Definition generateShortCode (draw : nat -> nat) : string :=
  foldl (fun result i => result +:+ Str.charAt chars (draw i))
        EmptyString (seq 0 6).

(** One turn of the loop of [cleanupExpiredUrls]. *)
Definition cleanup_step (now : Z) (acc : list ShortenedURL.t * nat)
    (entry : string * loc) : list ShortenedURL.t * nat :=
  match acc.1 !! entry.2 with
  | Some url =>
      if (ShortenedURL.expiresAt url <? now) && ShortenedURL.isActive url
      then (<[entry.2 := ShortenedURL.set_isActive false url]> acc.1,
            S acc.2)
      else acc
  | None => acc
  end.

Definition cleanupExpiredUrls (now : Z) : M unit :=
  let* swept :=
    gets (fun w => foldl (cleanup_step now) (heap w, 0%nat) (urls w)) in
  modify (set_heap swept.1) ;;
  let cleanedCount := swept.2 in
  if (0 <? cleanedCount)%nat then
    saveToStorage ;;
    Logger.info "EXPIRED_URLS_CLEANED"
  else ret tt.

Definition shortenUrl (originalUrl : string)
    (customShortCode : option string) (expiryMinutes : option Z)
    (env : ShortenEnv) : M loc :=
  let expiryMinutes := default 30 expiryMinutes in
  let id := "url_" +:+ pretty (s_dateNow env) +:+ "_" +:+ s_random env in
  let shortCode :=
    match customShortCode with
    | Some c => if Str.truthy c then c else generateShortCode (s_draw env)
    | None => generateShortCode (s_draw env)
    end in
  let* taken :=
    gets (fun w => bool_decide (is_Some (shortCodeToId w !! shortCode))) in
  if taken : bool then throw E_duplicate else
  let* activeUrls :=
    gets (fun w => List.filter ShortenedURL.isActive (url_values w)) in
  if (5 <=? length activeUrls)%nat then
    Logger.warn "CONCURRENT_LIMIT_REACHED" ;;
    throw E_limit
  else
  let now := s_newDate env in
  let expiresAt := now + expiryMinutes * 60 * 1000 in
  let shortenedUrl :=
    ShortenedURL.mk id originalUrl shortCode
      (s_origin env +:+ "/" +:+ shortCode) now expiresAt true 0 [] in
  let* l := alloc shortenedUrl in
  modify (fun w => set_urls (JsMap.set id l (urls w)) w) ;;
  modify (fun w =>
    set_shortCodeToId (<[shortCode := id]> (shortCodeToId w)) w) ;;
  saveToStorage ;;
  Logger.info "URL_SHORTENED" ;;
  ret l.

(** [getUrlByShortCode]; [now] is its [new Date ()]. The result is the
    registry's own object. *)
Definition getUrlByShortCode (w : World) (shortCode : string) (now : Z)
  : option loc :=
  match shortCodeToId w !! shortCode with
  | None => None
  | Some id =>
      if negb (Str.truthy id) then None else
      match JsMap.get id (urls w) with
      | None => None
      | Some l =>
          match heap w !! l with
          | None => None
          | Some url =>
              if negb (ShortenedURL.isActive url)
                 || (ShortenedURL.expiresAt url <? now)
              then None else Some l
          end
      end
  end.

Definition recordClick (shortCode : string) (userAgent referrer : string)
    (env : ClickEnv) : M bool :=
  let* url :=
    gets (fun w => getUrlByShortCode w shortCode (c_lookupDate env)) in
  match url with
  | None => ret false
  | Some l =>
      let clickEvent :=
        ClickEvent.mk
          ("click_" +:+ pretty (c_dateNow env) +:+ "_" +:+ c_random env)
          (c_newDate env) userAgent "xxx.xxx.xxx.xxx" referrer
          "Hyderabad/Secunderabad" in
      update l (fun u =>
        ShortenedURL.set_clicks (ShortenedURL.clicks u ++ [clickEvent]) u) ;;
      update l (fun u =>
        ShortenedURL.set_clickCount (ShortenedURL.clickCount u + 1) u) ;;
      saveToStorage ;;
      Logger.info "CLICK_RECORDED" ;;
      ret true
  end.

(** [url.createdAt.getTime ()] of the record at [l]. *)
Definition createdAt_of (w : World) (l : loc) : Z :=
  match heap w !! l with
  | Some url => ShortenedURL.createdAt url
  | None => 0
  end.

(** [Array.prototype.sort] with a comparator: a stable sort, here by
    insertion. [compare a b < 0] puts [a] first. *)
Section Sort.
Context {A : Type} (compare : A -> A -> Z).

Fixpoint sort_insert (a : A) (sorted : list A) : list A :=
  match sorted with
  | [] => [a]
  | b :: rest =>
      if compare a b <=? 0 then a :: b :: rest
      else b :: sort_insert a rest
  end.

Definition sort (xs : list A) : list A := foldr sort_insert [] xs.
End Sort.

(** [Array.from (iterable)]: a new array. *)
Definition Array_from (xs : list loc) : M nat :=
  fun w => (Ok (length (arrays w)), set_arrays (arrays w ++ [xs]) w).

(** [a.sort (compare)]: sorts the array in place and returns it; the
    comparator reads the records. *)
Definition Array_sort (a : nat) (compare : World -> loc -> loc -> Z)
  : M nat :=
  modify (fun w =>
    match arrays w !! a with
    | Some xs => set_arrays (<[a := sort (compare w) xs]> (arrays w)) w
    | None => w
    end) ;;
  ret a.

(** [getAllUrls]: a new array of the registry's own objects. *)
Definition getAllUrls : M nat :=
  let* values := gets (fun w => JsMap.values (urls w)) in
  let* a := Array_from values in
  Array_sort a (fun w a b => createdAt_of w b - createdAt_of w a).

Definition deleteUrl (id : string) : M bool :=
  let* url := gets (fun w => JsMap.get id (urls w)) in
  match url with
  | None => ret false
  | Some l =>
      let* shortCode := gets (fun w =>
        match heap w !! l with
        | Some u => ShortenedURL.shortCode u
        | None => EmptyString
        end) in
      modify (fun w => set_urls (JsMap.delete id (urls w)) w) ;;
      modify (fun w =>
        set_shortCodeToId (delete shortCode (shortCodeToId w)) w) ;;
      saveToStorage ;;
      Logger.info "URL_DELETED" ;;
      ret true
  end.

(** [new URLService ()]; the timer it starts runs [cleanupExpiredUrls] at
    later instants. *)
Definition constructor : M unit := loadFromStorage.

(** What a caller can do with what the service returned: assign to the
    fields of a record, and change an array (its entries, its order, its
    length). *)
Definition caller_assign (l : loc)
    (f : ShortenedURL.t -> ShortenedURL.t) (w : World) : World :=
  snd (update l f w).

Definition caller_array_assign (a : nat) (f : list loc -> list loc)
    (w : World) : World :=
  match arrays w !! a with
  | Some xs => set_arrays (<[a := f xs]> (arrays w)) w
  | None => w
  end.

End URLService.

(** ** Vocabulary of the specification *)

Module Spec.

Import URLService.

(** The operations of the registry, with what each reads from its
    environment. *)
Inductive op : Type :=
| Shorten (originalUrl : string) (customShortCode : option string)
          (expiryMinutes : option Z) (env : ShortenEnv)
| Lookup (shortCode : string) (now : Z)
| Click (shortCode userAgent referrer : string) (env : ClickEnv)
| ListAll
| Delete (id : string)
| Sweep (now : Z)
| Reload.

(** A page load: the objects and the logger of the page are new, the
    store is what the last page left, and [URLService] is built. *)
Definition new_page (w : World) : World :=
  mkWorld [] [] [] ∅ [] (ls_urls w) (ls_logs w).

Definition reload (w : World) : World := snd (constructor (new_page w)).

(** The state after an operation, whether it returned or threw. *)
Definition run (w : World) (o : op) : World :=
  match o with
  | Shorten u c e env => snd (shortenUrl u c e env w)
  | Lookup _ _ => w
  | Click c ua r env => snd (recordClick c ua r env w)
  | ListAll => snd (getAllUrls w)
  | Delete id => snd (deleteUrl id w)
  | Sweep now => snd (cleanupExpiredUrls now w)
  | Reload => reload w
  end.

Definition run_all (w : World) (ops : list op) : World := foldl run w ops.

(** The registry of a page that starts with an empty store. *)
Definition initial : World := reload empty_world.

(** Every reference held by [urls] names an object. *)
Definition refs_valid (w : World) : Prop :=
  Forall (fun l => (l < length (heap w))%nat) (JsMap.values (urls w)).

(** Every id is a truthy string. *)
Definition ids_truthy (w : World) : Prop :=
  forall code id, shortCodeToId w !! code = Some id -> Str.truthy id = true.

(** Every record of the registry has a truthy id. *)
Definition record_ids_truthy (w : World) : Prop :=
  forall l u, In l (JsMap.values (urls w)) -> heap w !! l = Some u ->
              Str.truthy (ShortenedURL.id u) = true.

(** The stored records have truthy ids and at most five carry the flag. *)
Definition stored_ok (w : World) : Prop :=
  match ls_urls w with
  | Some us =>
      Forall (fun u => Str.truthy (ShortenedURL.id u) = true) us /\
      (length (List.filter ShortenedURL.isActive us) <= 5)%nat
  | None => True
  end.

(** The state after [loadFromStorage] has taken in one stored record. *)
Definition load_one (w : World) (u : ShortenedURL.t) : World :=
  set_shortCodeToId
    (<[ShortenedURL.shortCode u := ShortenedURL.id u]> (shortCodeToId w))
    (set_urls (JsMap.set (ShortenedURL.id u) (length (heap w)) (urls w))
       (set_heap (heap w ++ [u]) w)).

(** Flagged records among the objects that [vs] names in [h]. *)
Definition flagged (h : list ShortenedURL.t) (vs : list loc) : nat :=
  length (List.filter ShortenedURL.isActive (omap (fun l => h !! l) vs)).

(** Records with the [isActive] flag, as [shortenUrl] counts them. *)
Definition active_count (w : World) : nat :=
  length (List.filter ShortenedURL.isActive (url_values w)).

(** Records with the flag whose deadline has not passed at [now]. *)
Definition live (now : Z) (u : ShortenedURL.t) : bool :=
  ShortenedURL.isActive u && negb (ShortenedURL.expiresAt u <? now).

Definition live_count (w : World) (now : Z) : nat :=
  length (List.filter (live now) (url_values w)).

(** What every state of the registry satisfies. *)
Definition invariant (w : World) : Prop :=
  refs_valid w /\ ids_truthy w /\ record_ids_truthy w /\
  (active_count w <= 5)%nat /\ stored_ok w.

(** The record that a short code maps to, through both indexes. *)
Definition mapped (w : World) (shortCode : string) : option loc :=
  match shortCodeToId w !! shortCode with
  | Some id => JsMap.get id (urls w)
  | None => None
  end.

Definition mapped_record (w : World) (shortCode : string)
  : option ShortenedURL.t :=
  match mapped w shortCode with
  | Some l => heap w !! l
  | None => None
  end.

(** The code that [shortenUrl] resolves. *)
Definition resolved (customShortCode : option string) (env : ShortenEnv)
  : string :=
  match customShortCode with
  | Some c => if Str.truthy c then c else generateShortCode (s_draw env)
  | None => generateShortCode (s_draw env)
  end.

(** The id that [shortenUrl] builds, and the deadline it computes. *)
Definition new_id (env : ShortenEnv) : string :=
  "url_" +:+ pretty (s_dateNow env) +:+ "_" +:+ s_random env.

Definition deadline (expiryMinutes : option Z) (env : ShortenEnv) : Z :=
  s_newDate env + default 30 expiryMinutes * 60 * 1000.

(** The record after a click. *)
Definition clicked (ev : ClickEvent.t) (u : ShortenedURL.t)
  : ShortenedURL.t :=
  ShortenedURL.set_clickCount (ShortenedURL.clickCount u + 1)
    (ShortenedURL.set_clicks (ShortenedURL.clicks u ++ [ev]) u).

(** The record after a tick of the sweep at [now]. *)
Definition swept (now : Z) (u : ShortenedURL.t) : ShortenedURL.t :=
  if (ShortenedURL.expiresAt u <? now) && ShortenedURL.isActive u
  then ShortenedURL.set_isActive false u else u.

(** The state but for the arrays handed out to callers. *)
Definition registry_of (w : World) :=
  (heap w, urls w, shortCodeToId w, logs w, ls_urls w, ls_logs w).

(** What an operation answers to its caller; for [getAllUrls], the
    contents of the array it returns. *)
Inductive answer : Type :=
| Shortened (r : result loc)
| Found (l : option loc)
| Clicked (r : result bool)
| Listed (xs : option (list loc))
| Deleted (r : result bool)
| Swept (r : result unit)
| Reloaded.

Definition answer_of (w : World) (o : op) : answer :=
  match o with
  | Shorten u c e env => Shortened (fst (shortenUrl u c e env w))
  | Lookup c now => Found (getUrlByShortCode w c now)
  | Click c ua r env => Clicked (fst (recordClick c ua r env w))
  | ListAll =>
      Listed (match getAllUrls w with
              | (Ok a, w') => arrays w' !! a
              | (Throw _, _) => None
              end)
  | Delete id => Deleted (fst (deleteUrl id w))
  | Sweep now => Swept (fst (cleanupExpiredUrls now w))
  | Reload => Reloaded
  end.

(** A session of a caller that also changes the arrays it was given,
    and the operations of that session. *)
Inductive caller_step : Type :=
| Call (o : op)
| ArrayWrite (a : nat) (f : list loc -> list loc).

Definition run_step (w : World) (s : caller_step) : World :=
  match s with
  | Call o => run w o
  | ArrayWrite a f => caller_array_assign a f w
  end.

Definition calls (steps : list caller_step) : list op :=
  omap (fun s => match s with Call o => Some o | ArrayWrite _ _ => None end)
       steps.

(** A computation that neither reads nor writes the arrays handed out. *)
Definition ignores_arrays {A : Type} (m : M A) : Prop :=
  forall a w, m (set_arrays a w) = (fst (m w), set_arrays a (snd (m w))).

(** Membership in the alphabet of generated codes. *)
Definition alphanumeric (c : ascii) : bool :=
  Str.is_lower c || Str.is_upper c
  || ((48 <=? nat_of_ascii c)%nat && (nat_of_ascii c <=? 57)%nat).

(** The characters that a short code may contain. *)
Definition code_char (c : ascii) : bool :=
  alphanumeric c || Ascii.eqb c "-" || Ascii.eqb c "_".

(** Equality of strings up to the case of letters. *)
Definition eq_ignore_case (s1 s2 : string) : Prop :=
  Str.toLowerCase s1 = Str.toLowerCase s2.

(** [w] occurs in [s] up to the case of ASCII letters. *)
Definition occurs_ignore_case (w s : string) : Prop :=
  exists pre mid post,
    Str.to_list s = pre ++ mid ++ post /\
    Forall2 (fun c x => Str.upper_ascii c = Str.upper_ascii x)
            (Str.to_list w) mid.

Definition dangerous_schemes : list string :=
  ["javascript:"; "data:"; "vbscript:"; "file:"].

(** A string that consists of white space only (or is empty). *)
Definition blank (s : string) : Prop :=
  Forall (fun c => Str.is_space c = true) (Str.to_list s).

End Spec.

(** ** Sample runs *)

Module Sample.

Import URLService.

(** An environment: a clock reading, a random suffix, the draws of the
    code generator (turn [i] draws index [7 * i + 3]) and an origin. *)
Definition env_at (t : Z) (suffix : string) : ShortenEnv :=
  mkShortenEnv t suffix (fun i => (7 * i + 3)%nat) t "http://localhost:5173".

Definition click_env_at (t : Z) (suffix : string) : ClickEnv :=
  mkClickEnv t t suffix t.

Definition t0 : Z := 1700000000000.

(** The world after [shortenUrl ("https://x.com", "abc", 30)] on an empty
    page. *)
Definition w_abc : World :=
  snd (shortenUrl "https://x.com" (Some "abc") (Some 30)
         (env_at t0 "k3j9x2m1q") empty_world).

(** The world after a generated code was registered for
    [https://example.com/a] with one minute to live. *)
Definition w_gen : World :=
  snd (shortenUrl "https://example.com/a" None (Some 1)
         (env_at t0 "k3j9x2m1q") empty_world).

(** Five records, one per millisecond: call [i] draws the indexes
    [i], [i + 1], ... for its code. *)
Definition five_calls : list Spec.op :=
  map (fun i : nat =>
         Spec.Shorten "https://x.com" None (Some 30)
           (mkShortenEnv (t0 + Z.of_nat i) "k3j9x2m1q"
              (fun j => (i + j)%nat) (t0 + Z.of_nat i)
              "http://localhost:5173"))
      (seq 0 5).

Definition w_five : World := Spec.run_all Spec.initial five_calls.

End Sample.

(** ** The registry as a whole: both indexes and the store *)

Module Registry.

Import URLService.

(** The ids under which [urls] holds records. *)
Definition ids (w : World) : list string := map fst (urls w).

(** Both indexes describe the same records: no id is held twice, the
    record held under an id carries that id and its short code leads to
    the id, and every short code leads to the id of a record that carries
    the code. *)
Definition consistent (w : World) : Prop :=
  NoDup (ids w) /\
  (forall id l, JsMap.get id (urls w) = Some l ->
     exists u, heap w !! l = Some u /\ ShortenedURL.id u = id /\
               shortCodeToId w !! ShortenedURL.shortCode u = Some id) /\
  (forall code id, shortCodeToId w !! code = Some id ->
     exists l u, JsMap.get id (urls w) = Some l /\ heap w !! l = Some u /\
                 ShortenedURL.shortCode u = code).

(** The store holds the records of the registry; nothing is stored as
    long as nothing was registered. *)
Definition synced (w : World) : Prop :=
  ls_urls w = Some (url_values w) \/ (ls_urls w = None /\ urls w = []).

Definition sound (w : World) : Prop :=
  Spec.invariant w /\ consistent w /\ synced w.

(** The id that an operation builds is not in use. Ids are built from
    the clock and a random suffix; nothing in the code compares them. *)
Definition fresh_id (w : World) (o : Spec.op) : Prop :=
  match o with
  | Spec.Shorten _ _ _ env => JsMap.get (Spec.new_id env) (urls w) = None
  | _ => True
  end.

Fixpoint fresh_ids (w : World) (ops : list Spec.op) : Prop :=
  match ops with
  | [] => True
  | o :: ops' => fresh_id w o /\ fresh_ids (Spec.run w o) ops'
  end.

(** The record that [getUrlByShortCode] returns, as its fields. *)
Definition found (w : World) (shortCode : string) (now : Z)
  : option ShortenedURL.t :=
  match getUrlByShortCode w shortCode now with
  | Some l => heap w !! l
  | None => None
  end.

(** What an operation can make of a record: the fields that identify it
    and its deadline stay, the flag is not set again, and clicks are only
    added. *)
Definition evolves (u u' : ShortenedURL.t) : Prop :=
  ShortenedURL.id u' = ShortenedURL.id u /\
  ShortenedURL.originalUrl u' = ShortenedURL.originalUrl u /\
  ShortenedURL.shortCode u' = ShortenedURL.shortCode u /\
  ShortenedURL.shortUrl u' = ShortenedURL.shortUrl u /\
  ShortenedURL.createdAt u' = ShortenedURL.createdAt u /\
  ShortenedURL.expiresAt u' = ShortenedURL.expiresAt u /\
  (ShortenedURL.isActive u' = true -> ShortenedURL.isActive u = true) /\
  ShortenedURL.clickCount u <= ShortenedURL.clickCount u' /\
  ShortenedURL.clicks u `prefix_of` ShortenedURL.clicks u'.

Definition is_reload (o : Spec.op) : bool :=
  match o with Spec.Reload => true | _ => false end.

(** A property of records holds of every record of the registry and of
    every stored record. *)
Definition everywhere (P : ShortenedURL.t -> Prop) (w : World) : Prop :=
  Forall P (url_values w) /\
  forall us, ls_urls w = Some us -> Forall P us.

(** The counter of a record counts its click events. *)
Definition clicks_counted (u : ShortenedURL.t) : Prop :=
  ShortenedURL.clickCount u = Z.of_nat (length (ShortenedURL.clicks u)).

(** [w'] is [w] but for log events: the records, the arrays handed out,
    both indexes and the stored records are the same, and the log of the
    page has grown. *)
Definition logged_only (w w' : World) : Prop :=
  heap w' = heap w /\ arrays w' = arrays w /\ urls w' = urls w /\
  shortCodeToId w' = shortCodeToId w /\ ls_urls w' = ls_urls w /\
  logs w `prefix_of` logs w'.

End Registry.

(** ** What the validators accept, and what the logger keeps *)

Module Rules.

(** A URL that is not blank, that the parser gives the protocol [http:]
    or [https:], and in which no dangerous scheme occurs. *)
Definition url_ok (URL_protocol : string -> option string) (url : string)
  : Prop :=
  ~ Spec.blank url /\
  (URL_protocol url = Some "http:" \/ URL_protocol url = Some "https:") /\
  ~ Exists (fun p => Spec.occurs_ignore_case p url) Spec.dangerous_schemes.

(** A code of 3 to 20 letters, digits, hyphens and underscores that is
    no reserved word. *)
Definition code_ok (shortCode : string) : Prop :=
  (3 <= String.length shortCode <= 20)%nat /\
  (forall c, In c (Str.to_list shortCode) -> Spec.code_char c = true) /\
  ~ exists word, In word Validation.reservedWords /\
                 Spec.eq_ignore_case shortCode word.

(** A computation that only adds to the log of the page, and keeps the
    stored log within its bound. *)
Definition appends_log {A : Type} (m : M A) : Prop :=
  forall w,
    logs w `prefix_of` logs (snd (m w)) /\
    ((length (ls_logs w) <= 1000)%nat ->
     (length (ls_logs (snd (m w))) <= 1000)%nat).

End Rules.

(** ** [try] ... [catch] *)

Definition try_catch {A : Type} (m : M A) (handler : string -> M A) : M A :=
  fun w =>
    match m w with
    | (Ok a, w') => (Ok a, w')
    | (Throw message, w') => handler message w'
    end.

(** ** RedirectHandler (components/RedirectHandler.tsx)

    The effect of the component, run when the route's [shortCode] is
    known. It answers with the status it sets and, when it starts the
    timer of the redirection, with the record whose [originalUrl] the
    timer will assign to [window.location.href]. *)

Module RedirectHandler.

Import URLService.

Inductive status_t : Type := loading | redirecting | not_found | expired.

(** What one run of the effect reads from its environment. *)
Record Env : Type := mkEnv {
  e_lookupDate : Z;         (* new Date (), in getUrlByShortCode *)
  e_newDate : Z;            (* new Date (), in the effect's own test *)
  e_userAgent : string;     (* navigator.userAgent *)
  e_referrer : string;      (* document.referrer *)
  e_click : ClickEnv        (* the readings of recordClick *)
}.

(** [!url.isActive || url.expiresAt < new Date ()] on the record at [l];
    the lookup only answers with locations of records. *)
Definition stale (w : World) (l : loc) (now : Z) : bool :=
  match heap w !! l with
  | Some url =>
      negb (ShortenedURL.isActive url) || (ShortenedURL.expiresAt url <? now)
  | None => true
  end.

Definition effect (shortCode : option string) (env : Env)
  : M (status_t * option loc) :=
  match shortCode with
  | None => ret (not_found, None)
  | Some shortCode =>
      if negb (Str.truthy shortCode) then ret (not_found, None) else
      let* url :=
        gets (fun w => getUrlByShortCode w shortCode (e_lookupDate env)) in
      match url with
      | None =>
          Logger.warn "REDIRECT_NOT_FOUND" ;;
          ret (not_found, None)
      | Some l =>
          let* is_stale := gets (fun w => stale w l (e_newDate env)) in
          if is_stale : bool then
            Logger.warn "REDIRECT_EXPIRED" ;;
            ret (expired, None)
          else
            recordClick shortCode (e_userAgent env) (e_referrer env)
                        (e_click env) ;;
            ret (redirecting, Some l)
      end
  end.

(** What the timer assigns to [window.location.href] when it fires in
    state [w]: the [originalUrl] of the record it holds. *)
Definition destination (w : World) (l : loc) : option string :=
  ShortenedURL.originalUrl <$> heap w !! l.

End RedirectHandler.

(** ** URLShortener (pages/URLShortener.tsx)

    The handlers of the page. A handler reads the state of the render it
    belongs to and answers with the state after the updates it made. *)

Module URLShortener.

Import URLService Validation.

(** The state of the component; [urls] is the array that [getAllUrls]
    returned last, [None] for the empty array of the first render. *)
Record State : Type := mkState {
  originalUrl : string;
  customShortCode : string;
  expiryMinutes : Z;
  errors : gmap string string;
  isLoading : bool;
  urls : option nat
}.

Definition setErrors (e : gmap string string) (st : State) : State :=
  mkState (originalUrl st) (customShortCode st) (expiryMinutes st) e
          (isLoading st) (urls st).

Definition setIsLoading (b : bool) (st : State) : State :=
  mkState (originalUrl st) (customShortCode st) (expiryMinutes st)
          (errors st) b (urls st).

Definition setUrls (a : nat) (st : State) : State :=
  mkState (originalUrl st) (customShortCode st) (expiryMinutes st)
          (errors st) (isLoading st) (Some a).

(** [setOriginalUrl (''); setCustomShortCode (''); setExpiryMinutes (30);
    setErrors ({})] *)
Definition reset_form (st : State) : State :=
  mkState EmptyString EmptyString 30 ∅ (isLoading st) (urls st).

(** [validation.errors[0]]; read only when [isValid] is false, that is
    when there is a first error. *)
Definition first_error (validation : ValidationResult.t) : string :=
  default EmptyString (head (ValidationResult.errors validation)).

(** [newErrors.field = validation.errors[0]] unless the validation
    passed. *)
Definition note (field : string) (validation : ValidationResult.t)
    (newErrors : gmap string string) : gmap string string :=
  if negb (ValidationResult.isValid validation)
  then <[field := first_error validation]> newErrors
  else newErrors.

Definition loadUrls (st : State) : M State :=
  let* allUrls := getAllUrls in
  ret (setUrls allUrls st).

Section Platform.

Variable URL_protocol : string -> option string.

(** [validateForm]: its answer and the errors it sets. *)
Definition validateForm (st : State) : M (bool * gmap string string) :=
  let newErrors : gmap string string := ∅ in
  let* urlValidation := validateUrl URL_protocol (originalUrl st) in
  let newErrors := note "originalUrl" urlValidation newErrors in
  let* newErrors :=
    if Str.truthy (customShortCode st) then
      let* shortCodeValidation := validateShortCode (customShortCode st) in
      ret (note "customShortCode" shortCodeValidation newErrors)
    else ret newErrors in
  let expiryValidation := validateExpiryMinutes (expiryMinutes st) in
  let newErrors := note "expiryMinutes" expiryValidation newErrors in
  ret ((size newErrors =? 0)%nat, newErrors).

Definition handleSubmit (st : State) (env : ShortenEnv) : M State :=
  let* checked := validateForm st in
  let st := setErrors checked.2 st in
  if negb checked.1 then
    Logger.warn "FORM_VALIDATION_FAILED" ;;
    ret st
  else
  let st := setIsLoading true st in
  let* st :=
    try_catch
      (shortenUrl (originalUrl st)
         (if Str.truthy (customShortCode st)
          then Some (customShortCode st) else None)
         (Some (expiryMinutes st)) env ;;
       let st := reset_form st in
       let* st := loadUrls st in
       Logger.info "URL_CREATION_SUCCESS" ;;
       ret st)
      (fun errorMessage =>
         let st := setErrors {["submit" := errorMessage]} st in
         Logger.error "URL_CREATION_FAILED" ;;
         ret st) in
  ret (setIsLoading false st).

End Platform.

Definition handleDelete (st : State) (id : string) : M State :=
  let* deleted := deleteUrl id in
  if deleted : bool then loadUrls st else ret st.

(** The form passes when its three fields do. *)
Definition form_ok (URL_protocol : string -> option string) (st : State)
  : Prop :=
  Rules.url_ok URL_protocol (originalUrl st) /\
  (Spec.blank (customShortCode st) \/ Rules.code_ok (customShortCode st)) /\
  1 <= expiryMinutes st <= 43200.

(** The custom code that a submission hands to [shortenUrl], and the
    code that [shortenUrl] resolves from it. *)
Definition requested (st : State) : option string :=
  if Str.truthy (customShortCode st) then Some (customShortCode st)
  else None.

Definition code_of (st : State) (env : ShortenEnv) : string :=
  Spec.resolved (requested st) env.

(** The state of the form after a submission that was refused with
    [message]: the fields stay as they were filled in. *)
Definition refused (message : string) (st : State) : State :=
  mkState (originalUrl st) (customShortCode st) (expiryMinutes st)
          {["submit" := message]} false (urls st).

(** [formatTimeRemaining]; [now] is its [new Date ()]. *)
Definition formatTimeRemaining (expiresAt now : Z) : string :=
  let diff := expiresAt - now in
  if diff <=? 0 then "Expired" else
  let minutes := diff / (1000 * 60) in
  let hours := minutes / 60 in
  let days := hours / 24 in
  if 0 <? days then
    pretty days +:+ "d " +:+ pretty (hours mod 24) +:+ "h"
  else if 0 <? hours then
    pretty hours +:+ "h " +:+ pretty (minutes mod 60) +:+ "m"
  else pretty minutes +:+ "m".

(** The badge of a listed record: [url.isActive && url.expiresAt > new
    Date ()]. *)
Definition shown_active (url : ShortenedURL.t) (now : Z) : bool :=
  ShortenedURL.isActive url && (now <? ShortenedURL.expiresAt url).

End URLShortener.

(** ** Statistics (pages/Statistics.tsx)

    The figures of the page, computed from the array [urls] of its state:
    [xs] are the entries of that array, records of the registry. *)

Module Statistics.

Import URLService.

(** [url.clickCount] of the record at [l]. *)
Definition clickCount_of (w : World) (l : loc) : Z :=
  match heap w !! l with
  | Some url => ShortenedURL.clickCount url
  | None => 0
  end.

Definition getTotalClicks (w : World) (xs : list loc) : Z :=
  foldl (fun total url => total + clickCount_of w url) 0 xs.

(** [getActiveUrls]; the callback reads the clock at every entry:
    [clock i] is the reading at entry [i]. *)
Definition getActiveUrls (w : World) (xs : list loc) (clock : nat -> Z)
  : nat :=
  length
    (List.filter (fun b : bool => b)
       (imap (fun i url =>
                match heap w !! url with
                | Some u =>
                    ShortenedURL.isActive u
                    && (clock i <? ShortenedURL.expiresAt u)
                | None => false
                end) xs)).

(** [getTopUrls]: a sorted copy, cut after five entries. *)
Definition getTopUrls (w : World) (xs : list loc) : list loc :=
  take 5 (sort (fun a b => clickCount_of w b - clickCount_of w a) xs).

End Statistics.

(** ** More sample runs *)

Module Scenario.

Import URLService.

Definition id_abc : string := "url_1700000000000_k3j9x2m1q".

(** The record of [Sample.w_abc]. *)
Definition u_abc : ShortenedURL.t :=
  ShortenedURL.mk id_abc "https://x.com" "abc" "http://localhost:5173/abc"
    Sample.t0 (Sample.t0 + 30 * 60 * 1000) true 0 [].

Definition shorten_abc : Spec.op :=
  Spec.Shorten "https://x.com" (Some "abc") (Some 30)
    (Sample.env_at Sample.t0 "k3j9x2m1q").

Definition click_abc (t : Z) (suffix : string) : Spec.op :=
  Spec.Click "abc" "Mozilla/5.0" "https://ref.example"
    (Sample.click_env_at t suffix).

(** The sample registry after a click on its record. *)
Definition w_clicked : World :=
  Spec.run_all Spec.initial
    [shorten_abc; click_abc (Sample.t0 + 1) "a1b2c3d4e"].

Definition u_clicked : ShortenedURL.t :=
  Spec.clicked
    (ClickEvent.mk "click_1700000000001_a1b2c3d4e" (Sample.t0 + 1)
       "Mozilla/5.0" "xxx.xxx.xxx.xxx" "https://ref.example"
       "Hyderabad/Secunderabad") u_abc.

(** A visit of [/abc] one second after the record was made. *)
Definition visit_env : RedirectHandler.Env :=
  RedirectHandler.mkEnv (Sample.t0 + 1000) (Sample.t0 + 1000)
    "Mozilla/5.0" "https://ref.example"
    (Sample.click_env_at (Sample.t0 + 1000) "a1b2c3d4e").

(** A form filled in with a custom code of two spaces. *)
Definition form_spaces : URLShortener.State :=
  URLShortener.mkState "https://example.com/a" "  " 30 ∅ false None.

Definition form_abc : URLShortener.State :=
  URLShortener.mkState "https://y.com" "abc" 30 ∅ false None.

Definition form_no_url : URLShortener.State :=
  URLShortener.mkState EmptyString "abc" 30 ∅ false None.

End Scenario.

(** * Properties *)

(** ** Matching by derivatives decides the language *)

Module RegExpFacts.

Import RegExp.

Section Facts.

Variable ic : bool.

Lemma nullable_lang (r : regex) : nullable r = true <-> lang ic r [].
Proof.
  induction r as [| | c | rs | r1 IH1 r2 IH2 | r1 IH1 r2 IH2 | r IH];
    simpl; split; intros H.
  - discriminate.
  - inversion H.
  - constructor.
  - reflexivity.
  - discriminate.
  - inversion H.
  - discriminate.
  - inversion H.
  - apply andb_true_iff in H as [H1 H2].
    apply (lang_cat ic r1 r2 [] []); [apply IH1 | apply IH2]; assumption.
  - inversion H as [| | | ? ? s1 s2 L1 L2 E1 E2 | | | |]; subst.
    apply app_eq_nil in E2 as [-> ->].
    apply andb_true_iff; split; [apply IH1 | apply IH2]; assumption.
  - apply orb_true_iff in H as [H | H].
    + apply lang_alt_l, IH1, H.
    + apply lang_alt_r, IH2, H.
  - apply orb_true_iff.
    inversion H; subst; [left; apply IH1 | right; apply IH2]; assumption.
  - constructor.
  - reflexivity.
Qed.

Lemma lang_star_cons (r : regex) (s : list ascii) :
  lang ic (Star r) s ->
  forall x s', s = x :: s' ->
  exists s1 s2, s' = s1 ++ s2 /\ lang ic r (x :: s1) /\ lang ic (Star r) s2.
Proof.
  intros H. remember (Star r) as q eqn:Eq.
  induction H as [| | | | | | r0 | r0 s1 s2 H1 _ H2 IH2];
    try discriminate; intros x s' Es.
  injection Eq as ->.
  destruct s1 as [| y s1]; simpl in Es.
  - apply IH2; [reflexivity | exact Es].
  - injection Es as -> <-. exists s1, s2. auto.
Qed.

Lemma deriv_lang (r : regex) :
  forall x s, lang ic (deriv ic x r) s <-> lang ic r (x :: s).
Proof.
  induction r as [| | c | rs | r1 IH1 r2 IH2 | r1 IH1 r2 IH2 | r IH];
    intros x s; simpl.
  - split; intros H; inversion H.
  - split; intros H; inversion H.
  - destruct (chr_match ic c x) eqn:E; split; intros H.
    + inversion H; subst. constructor. exact E.
    + inversion H; subst. constructor.
    + inversion H.
    + inversion H; subst. congruence.
  - destruct (class_match ic rs x) eqn:E; split; intros H.
    + inversion H; subst. constructor. exact E.
    + inversion H; subst. constructor.
    + inversion H.
    + inversion H; subst. congruence.
  - assert (Hcat : lang ic (Cat (deriv ic x r1) r2) s ->
                   lang ic (Cat r1 r2) (x :: s)).
    { intros H. inversion H as [| | | ? ? s1 s2 L1 L2 E1 E2 | | | |]; subst.
      apply (lang_cat ic r1 r2 (x :: s1) s2); [apply IH1 |]; assumption. }
    assert (Hsplit : lang ic (Cat r1 r2) (x :: s) ->
              lang ic (Cat (deriv ic x r1) r2) s
              \/ (lang ic r1 [] /\ lang ic r2 (x :: s))).
    { intros H. inversion H as [| | | ? ? s1 s2 L1 L2 E1 E2 | | | |]; subst.
      destruct s1 as [| y s1]; simpl in E2.
      - right. subst s2. auto.
      - injection E2 as -> <-. left.
        apply lang_cat; [apply IH1 |]; assumption. }
    destruct (nullable r1) eqn:N; split; intros H.
    + inversion H; subst; [apply Hcat; assumption |].
      apply (lang_cat ic r1 r2 [] (x :: s));
        [apply nullable_lang; exact N | apply IH2; assumption].
    + destruct (Hsplit H) as [H' | [_ H']].
      * apply lang_alt_l, H'.
      * apply lang_alt_r, IH2, H'.
    + apply Hcat, H.
    + destruct (Hsplit H) as [H' | [H' _]]; [exact H' |].
      apply nullable_lang in H'. congruence.
  - split; intros H; inversion H; subst.
    + apply lang_alt_l, IH1; assumption.
    + apply lang_alt_r, IH2; assumption.
    + apply lang_alt_l, IH1; assumption.
    + apply lang_alt_r, IH2; assumption.
  - split; intros H.
    + inversion H as [| | | ? ? s1 s2 L1 L2 E1 E2 | | | |]; subst.
      apply (lang_star_app ic r (x :: s1) s2); [apply IH |]; assumption.
    + destruct (lang_star_cons r _ H x s eq_refl) as (s1 & s2 & -> & L1 & L2).
      apply lang_cat; [apply IH |]; assumption.
Qed.

Lemma matches_lang (s : list ascii) :
  forall r, matches ic r s = true <-> lang ic r s.
Proof.
  induction s as [| x s IH]; intros r; simpl.
  - apply nullable_lang.
  - rewrite IH. apply deriv_lang.
Qed.

Lemma matches_prefix_lang (s : list ascii) :
  forall r, matches_prefix ic r s = true <->
            exists s1 s2, s = s1 ++ s2 /\ lang ic r s1.
Proof.
  induction s as [| x s IH]; intros r; simpl.
  - rewrite orb_false_r, nullable_lang. split.
    + intros H. exists [], []. auto.
    + intros (s1 & s2 & E & H). symmetry in E.
      apply app_eq_nil in E as [-> _]. exact H.
  - rewrite orb_true_iff, IH, nullable_lang. split.
    + intros [H | (s1 & s2 & -> & H)].
      * exists [], (x :: s). auto.
      * exists (x :: s1), s2. split; [reflexivity | apply deriv_lang, H].
    + intros (s1 & s2 & E & H). destruct s1 as [| y s1]; simpl in E.
      * left. exact H.
      * injection E as <- ->. right. exists s1, s2.
        split; [reflexivity | apply deriv_lang, H].
Qed.

Lemma search_lang (r : regex) (s : list ascii) :
  search ic r s = true <->
  exists s0 s1 s2, s = s0 ++ s1 ++ s2 /\ lang ic r s1.
Proof.
  induction s as [| x s IH].
  - change (search ic r []) with (matches_prefix ic r [] || false).
    rewrite orb_false_r, matches_prefix_lang. split.
    + intros (s1 & s2 & E & H). exists [], s1, s2. auto.
    + intros (s0 & s1 & s2 & E & H). symmetry in E.
      apply app_eq_nil in E as [-> E]. exists s1, s2. auto.
  - change (search ic r (x :: s))
      with (matches_prefix ic r (x :: s) || search ic r s).
    rewrite orb_true_iff, IH, matches_prefix_lang. split.
    + intros [(s1 & s2 & E & H) | (s0 & s1 & s2 & -> & H)].
      * exists [], s1, s2. auto.
      * exists (x :: s0), s1, s2. auto.
    + intros (s0 & s1 & s2 & E & H). destruct s0 as [| y s0]; simpl in E.
      * left. exists s1, s2. auto.
      * injection E as <- ->. right. exists s0, s1, s2. auto.
Qed.

(** A literal matches the words that agree with it letter by letter. *)
Lemma lang_Lit (w : string) :
  forall s, lang ic (Lit w) s <->
            Forall2 (fun c x => chr_match ic c x = true) (Str.to_list w) s.
Proof.
  induction w as [| c w IH]; intros s; simpl.
  - split; intros H; inversion H; constructor.
  - split; intros H.
    + inversion H as [| | | ? ? s1 s2 L1 L2 E1 E2 | | | |]; subst.
      inversion L1; subst. simpl. constructor; [assumption |].
      apply IH, L2.
    + inversion H as [| ? x ? s' Hc Hs]; subst.
      apply (lang_cat ic (Chr c) (Lit w) [x] s');
        [constructor; exact Hc | apply IH, Hs].
Qed.

(** [[...]+] matches the non-empty words over the class. *)
Lemma lang_Star_Class (rs : list (ascii * ascii)) (s : list ascii) :
  lang ic (Star (Class rs)) s <->
  Forall (fun x => class_match ic rs x = true) s.
Proof.
  split.
  - intros H. remember (Star (Class rs)) as q eqn:Eq.
    induction H as [| | | | | | r0 | r0 s1 s2 H1 _ H2 IH2];
      try discriminate.
    + constructor.
    + injection Eq as ->. inversion H1; subst. simpl.
      constructor; [assumption | apply IH2; reflexivity].
  - induction 1 as [| x s Hx _ IH].
    + constructor.
    + apply (lang_star_app ic (Class rs) [x] s);
        [constructor; exact Hx | exact IH].
Qed.

Lemma lang_Plus_Class (rs : list (ascii * ascii)) (s : list ascii) :
  lang ic (Plus (Class rs)) s <->
  s <> [] /\ Forall (fun x => class_match ic rs x = true) s.
Proof.
  unfold Plus. split.
  - intros H. inversion H as [| | | ? ? s1 s2 L1 L2 E1 E2 | | | |]; subst.
    inversion L1; subst. simpl. split; [discriminate |].
    constructor; [assumption | apply lang_Star_Class, L2].
  - intros [Hne H]. destruct H as [| x s Hx Hs]; [congruence |].
    apply (lang_cat ic (Class rs) (Star (Class rs)) [x] s);
      [constructor; exact Hx | apply lang_Star_Class, Hs].
Qed.

End Facts.

End RegExpFacts.

(** ** Strings: white space, case, non-empty results *)

Module StrFacts.

Import Str.

Lemma blank_nil : Spec.blank EmptyString.
Proof. constructor. Qed.

Lemma blank_cons (c : ascii) (s : string) :
  Spec.blank (String c s) <-> is_space c = true /\ Spec.blank s.
Proof.
  unfold Spec.blank. simpl. split.
  - intros H. inversion H; subst. auto.
  - intros [H1 H2]. constructor; assumption.
Qed.

Lemma trim_start_empty (s : string) :
  trim_start s = EmptyString <-> Spec.blank s.
Proof.
  induction s as [| c s IH]; simpl.
  - split; [intros _; apply blank_nil | reflexivity].
  - rewrite blank_cons. destruct (is_space c).
    + rewrite IH. tauto.
    + split; [discriminate | intros [? _]; discriminate].
Qed.

Lemma blank_trim_start (s : string) :
  Spec.blank (trim_start s) <-> Spec.blank s.
Proof.
  induction s as [| c s IH]; simpl; [tauto |].
  destruct (is_space c) eqn:E; [| tauto].
  rewrite IH, blank_cons. tauto.
Qed.

Lemma blank_rev_onto (s : string) :
  forall acc, Spec.blank (rev_onto s acc) <-> Spec.blank s /\ Spec.blank acc.
Proof.
  induction s as [| c s IH]; intros acc; simpl.
  - split; [intros H; split; [apply blank_nil | exact H] | tauto].
  - rewrite IH, !blank_cons. tauto.
Qed.

Lemma blank_rev (s : string) : Spec.blank (rev s) <-> Spec.blank s.
Proof.
  unfold rev. rewrite blank_rev_onto. split; [tauto |].
  intros H. split; [exact H | apply blank_nil].
Qed.

(** [s.trim ()] is falsy exactly on the strings of white space. *)
Lemma trim_truthy (s : string) :
  truthy (trim s) = false <-> Spec.blank s.
Proof.
  unfold trim. split.
  - intros H.
    apply blank_trim_start, blank_rev, blank_trim_start, blank_rev.
    destruct (rev _); [apply blank_nil | discriminate].
  - intros H. apply trim_start_empty in H. rewrite H. reflexivity.
Qed.

Lemma trim_truthy_not_blank (s : string) :
  truthy (trim s) = true <-> ~ Spec.blank s.
Proof.
  rewrite <- trim_truthy. destruct (truthy (trim s)); split; congruence.
Qed.

Lemma to_list_length (s : string) : length (to_list s) = String.length s.
Proof. induction s; simpl; congruence. Qed.

Lemma to_list_nil (s : string) : to_list s = [] <-> s = EmptyString.
Proof. destruct s; simpl; split; congruence. Qed.

Lemma includes_spec (xs : list string) (s : string) :
  includes xs s = true <-> In s xs.
Proof.
  unfold includes. rewrite existsb_exists. split.
  - intros (x & Hx & E). apply String.eqb_eq in E. subst. exact Hx.
  - intros H. exists s. split; [exact H | apply String.eqb_refl].
Qed.

(** A letter, in either case, is no white space. *)
Lemma letter_not_space (c x : ascii) :
  is_lower c = true -> upper_ascii c = upper_ascii x -> is_space x = false.
Proof.
  intros Hc E. destruct (is_space x) eqn:Hx; [| reflexivity].
  exfalso.
  assert (Hu : upper_ascii x = x).
  { unfold upper_ascii.
    destruct x as [[] [] [] [] [] [] [] []]; try discriminate Hx; reflexivity. }
  rewrite Hu in E. subst x. unfold upper_ascii in Hx. rewrite Hc in Hx.
  destruct c as [[] [] [] [] [] [] [] []]; try discriminate Hc;
    discriminate Hx.
Qed.

End StrFacts.

(** ** The logger only touches the log *)

Module LoggerFacts.

Lemma log_run (level : LogEvent.level_t) (action : string) (w : World) :
  Logger.log level action w = (Ok tt, snd (Logger.log level action w)).
Proof. reflexivity. Qed.

Lemma log_frame (level : LogEvent.level_t) (action : string) (w : World) :
  let w' := snd (Logger.log level action w) in
  heap w' = heap w /\ arrays w' = arrays w /\ urls w' = urls w /\
  shortCodeToId w' = shortCodeToId w /\ ls_urls w' = ls_urls w.
Proof. repeat split. Qed.

Lemma log_appends (level : LogEvent.level_t) (action : string) (w : World) :
  logs (snd (Logger.log level action w))
  = logs w ++ [LogEvent.mk level action].
Proof. reflexivity. Qed.

(** The stored log never holds more than 1000 events. *)
Lemma persistLog_bounded (e : LogEvent.t) (w : World) :
  (length (ls_logs (snd (Logger.persistLog e w))) <= 1000)%nat.
Proof.
  unfold Logger.persistLog, modify. simpl.
  destruct (1000 <? length (ls_logs w ++ [e]))%nat eqn:E; simpl.
  - rewrite length_drop. lia.
  - apply Nat.ltb_ge in E. exact E.
Qed.

End LoggerFacts.

(** ** Validation *)

Module ValidationFacts.

Import Validation ValidationResult.

Lemma In_push_if (b : bool) (x e : string) (l : list string) :
  In e (push_if b x l) <-> In e l \/ (b = true /\ e = x).
Proof.
  unfold push_if. destruct b.
  - rewrite in_app_iff. simpl. intuition congruence.
  - intuition congruence.
Qed.

Lemma push_if_nil (b : bool) (x : string) (l : list string) :
  push_if b x l = [] <-> l = [] /\ b = false.
Proof.
  unfold push_if. destruct b.
  - split; [| intros [_ ?]; discriminate].
    intros H. apply app_eq_nil in H as [_ H]. discriminate.
  - intuition.
Qed.

Lemma shortCode_class (x : ascii) :
  RegExp.class_match false
    [("a", "z"); ("A", "Z"); ("0", "9"); ("_", "_"); ("-", "-")]%char x
  = Spec.code_char x.
Proof. destruct x as [[] [] [] [] [] [] [] []]; reflexivity. Qed.

(** [/^[a-zA-Z0-9_-]+$/] accepts the non-empty strings of letters, digits,
    hyphens and underscores. *)
Lemma shortCodePattern_spec (s : string) :
  RegExp.test shortCodePattern s = true <->
  s <> EmptyString /\
  forall c, In c (Str.to_list s) -> Spec.code_char c = true.
Proof.
  unfold RegExp.test, shortCodePattern. simpl RegExp.anchorStart.
  simpl RegExp.anchorEnd. cbv match. simpl RegExp.ignoreCase.
  simpl RegExp.source.
  rewrite RegExpFacts.matches_lang, RegExpFacts.lang_Plus_Class.
  rewrite StrFacts.to_list_nil, List.Forall_forall.
  split; intros [H1 H2]; (split; [exact H1 |]); intros c Hc;
    specialize (H2 c Hc); rewrite shortCode_class in *; exact H2.
Qed.

Lemma shortCodePattern_fails (s : string) :
  s <> EmptyString ->
  (RegExp.test shortCodePattern s = false <->
   exists c, In c (Str.to_list s) /\ Spec.code_char c = false).
Proof.
  intros Hne. split.
  - intros H.
    destruct (List.Exists_dec (fun c => Spec.code_char c = false)
                (Str.to_list s)) as [E | E].
    { intros c. destruct (Spec.code_char c); [right | left]; congruence. }
    + apply List.Exists_exists in E. exact E.
    + exfalso. assert (T : RegExp.test shortCodePattern s = true);
        [| congruence].
      apply shortCodePattern_spec. split; [exact Hne |].
      intros c Hc. destruct (Spec.code_char c) eqn:Ec; [reflexivity |].
      exfalso. apply E, List.Exists_exists. eauto.
  - intros (c & Hc & Ec).
    destruct (RegExp.test shortCodePattern s) eqn:T; [| reflexivity].
    apply shortCodePattern_spec in T as [_ T]. rewrite (T c Hc) in Ec.
    discriminate.
Qed.

Lemma reserved_spec (s : string) :
  Str.includes reservedWords (Str.toLowerCase s) = true <->
  exists word, In word reservedWords /\ Spec.eq_ignore_case s word.
Proof.
  assert (L : forall word, In word reservedWords ->
                           Str.toLowerCase word = word).
  { intros word Hw. simpl in Hw.
    repeat (destruct Hw as [<- | Hw]; [reflexivity |]). destruct Hw. }
  rewrite StrFacts.includes_spec. unfold Spec.eq_ignore_case. split.
  - intros H. exists (Str.toLowerCase s). split; [exact H |].
    symmetry. apply L, H.
  - intros (word & Hw & E). rewrite E, (L word Hw). exact Hw.
Qed.

Lemma errors_distinct :
  E_length <> E_charset /\ E_length <> E_reserved /\ E_charset <> E_reserved
  /\ E_protocol <> E_malicious.
Proof. repeat split; discriminate. Qed.

(** C8 (as stated, refuted): a code of two spaces is not empty and its
    length is below 3, yet [validateShortCode] reports no violation. *)
Lemma validateShortCode_two_spaces :
  "  " <> EmptyString /\
  (String.length "  " < 3)%nat /\
  fst (validateShortCode "  " empty_world) = Ok (ValidationResult.mk true []).
Proof. repeat split; [discriminate | simpl; lia]. Qed.

(** C8 (amended): [validateShortCode] returns [isValid = true] with no
    error for every code that is empty or made of white space only; for
    every other code it reports the length violation exactly when the
    length is outside [3, 20], the character violation exactly when a
    character is not a letter, digit, hyphen or underscore, and the
    reserved-word violation exactly when the code equals one of admin,
    api, www, app, stats, analytics up to case; it is valid exactly when
    none of the three holds. *)
Theorem validateShortCode_rules (shortCode : string) (w : World) :
  exists res,
    fst (validateShortCode shortCode w) = Ok res /\
    (Spec.blank shortCode -> isValid res = true /\ errors res = []) /\
    (~ Spec.blank shortCode ->
     (In E_length (errors res) <->
      (String.length shortCode < 3 \/ 20 < String.length shortCode)%nat) /\
     (In E_charset (errors res) <->
      exists c, In c (Str.to_list shortCode) /\ Spec.code_char c = false) /\
     (In E_reserved (errors res) <->
      exists word, In word reservedWords /\
                   Spec.eq_ignore_case shortCode word) /\
     (isValid res = false <->
      In E_length (errors res) \/ In E_charset (errors res)
      \/ In E_reserved (errors res))).
Proof.
  unfold validateShortCode.
  destruct (Str.truthy (Str.trim shortCode)) eqn:T.
  - eexists. split; [reflexivity |]. cbn [errors isValid].
    apply StrFacts.trim_truthy_not_blank in T.
    split; [tauto |]. intros _.
    assert (Hne : shortCode <> EmptyString).
    { intros ->. apply T, StrFacts.blank_nil. }
    destruct errors_distinct as (D1 & D2 & D3 & _).
    set (b1 := (String.length shortCode <? 3)%nat
               || (20 <? String.length shortCode)%nat).
    set (b2 := negb (RegExp.test shortCodePattern shortCode)).
    set (b3 := Str.includes reservedWords (Str.toLowerCase shortCode)).
    assert (B1 : b1 = true <->
                 (String.length shortCode < 3
                  \/ 20 < String.length shortCode)%nat).
    { unfold b1. rewrite orb_true_iff, !Nat.ltb_lt. tauto. }
    assert (B2 : b2 = true <->
                 exists c, In c (Str.to_list shortCode)
                           /\ Spec.code_char c = false).
    { unfold b2. rewrite negb_true_iff.
      apply shortCodePattern_fails, Hne. }
    assert (B3 : b3 = true <->
                 exists word, In word reservedWords
                              /\ Spec.eq_ignore_case shortCode word)
      by apply reserved_spec.
    rewrite <- B1, <- B2, <- B3. clearbody b1 b2 b3. clear B1 B2 B3.
    rewrite !In_push_if.
    destruct b1, b2, b3; cbn [push_if app length Nat.eqb In];
      intuition congruence.
  - eexists. split; [reflexivity |]. simpl.
    apply StrFacts.trim_truthy in T. split; [auto | tauto].
Qed.

(** The boundaries of the length rule, and the empty code. *)
Lemma validateShortCode_rules_boundaries :
  (exists res, fst (validateShortCode EmptyString empty_world) = Ok res
               /\ isValid res = true /\ errors res = []) /\
  (exists res, fst (validateShortCode "ab" empty_world) = Ok res
               /\ In E_length (errors res)) /\
  (exists res, fst (validateShortCode "abc" empty_world) = Ok res
               /\ ~ In E_length (errors res)) /\
  (exists res, fst (validateShortCode "abcdefghijklmnopqrst" empty_world)
               = Ok res /\ ~ In E_length (errors res)) /\
  (exists res, fst (validateShortCode "abcdefghijklmnopqrstu" empty_world)
               = Ok res /\ In E_length (errors res)).
Proof.
  assert (NB : forall c s, Str.is_space c = false ->
                           ~ Spec.blank (String c s)).
  { intros c s Hc B. apply StrFacts.blank_cons in B as [B _]. congruence. }
  repeat split.
  - destruct (validateShortCode_rules EmptyString empty_world)
      as (res & R & Hb & _).
    exists res. split; [exact R |]. apply Hb, StrFacts.blank_nil.
  - destruct (validateShortCode_rules "ab" empty_world)
      as (res & R & _ & H).
    exists res. split; [exact R |].
    apply H; [apply NB; reflexivity | simpl; lia].
  - destruct (validateShortCode_rules "abc" empty_world)
      as (res & R & _ & H).
    exists res. split; [exact R |]. intros I.
    apply H in I; [simpl in I; lia | apply NB; reflexivity].
  - destruct (validateShortCode_rules "abcdefghijklmnopqrst" empty_world)
      as (res & R & _ & H).
    exists res. split; [exact R |]. intros I.
    apply H in I; [simpl in I; lia | apply NB; reflexivity].
  - destruct (validateShortCode_rules "abcdefghijklmnopqrstu" empty_world)
      as (res & R & _ & H).
    exists res. split; [exact R |].
    apply H; [apply NB; reflexivity | simpl; lia].
Defined.

(** [/p/i] on a literal [p] finds [p] anywhere, up to ASCII case. *)
Lemma test_Lit_ignore_case (p url : string) :
  RegExp.test (RegExp.mk false (RegExp.Lit p) false true) url = true <->
  Spec.occurs_ignore_case p url.
Proof.
  unfold RegExp.test, Spec.occurs_ignore_case. cbn.
  rewrite RegExpFacts.search_lang.
  assert (F : forall mid,
    Forall2 (fun c x => RegExp.chr_match true c x = true)
            (Str.to_list p) mid <->
    Forall2 (fun c x => Str.upper_ascii c = Str.upper_ascii x)
            (Str.to_list p) mid).
  { intros mid. split; intros H; (eapply Forall2_impl; [exact H |]);
      intros c x; unfold RegExp.chr_match; apply Ascii.eqb_eq. }
  split; intros (s0 & s1 & s2 & E & H); exists s0, s1, s2;
    (split; [exact E |]).
  - apply F, RegExpFacts.lang_Lit, H.
  - apply RegExpFacts.lang_Lit, F, H.
Qed.

Lemma maliciousPatterns_spec (url : string) :
  existsb (fun pattern => RegExp.test pattern url) maliciousPatterns = true
  <-> Exists (fun p => Spec.occurs_ignore_case p url) Spec.dangerous_schemes.
Proof.
  unfold maliciousPatterns, Spec.dangerous_schemes.
  cbn [existsb]. rewrite !orb_true_iff, !test_Lit_ignore_case.
  rewrite !Exists_cons, Exists_nil. intuition discriminate.
Qed.

(** A string in which a dangerous scheme occurs is not blank. *)
Lemma dangerous_not_blank (url : string) :
  Exists (fun p => Spec.occurs_ignore_case p url) Spec.dangerous_schemes ->
  ~ Spec.blank url.
Proof.
  intros H B. apply Exists_exists in H as (p & Hp & pre & mid & post & E & F).
  assert (L : exists c rest, Str.to_list p = c :: rest
                             /\ Str.is_lower c = true).
  { unfold Spec.dangerous_schemes in Hp. apply list_elem_of_In in Hp.
    simpl in Hp.
    repeat (destruct Hp as [<- | Hp]; [eexists _, _; split; reflexivity |]).
    destruct Hp. }
  destruct L as (c & rest & Ec & Lc). rewrite Ec in F.
  inversion F as [| ? x ? mid' Hx _]; subst.
  unfold Spec.blank in B. rewrite E in B.
  apply Forall_app in B as [_ B]. inversion B as [| ? ? Sx _]; subst.
  rewrite (StrFacts.letter_not_space c x Lc Hx) in Sx. discriminate.
Qed.

(** C7 (as stated, refuted): the string [/file:] contains a dangerous
    scheme and is no absolute URL; [validateUrl] reports the format
    violation alone. *)
Lemma validateUrl_unparsed_no_malicious :
  Exists (fun p => Spec.occurs_ignore_case p "/file:")
         Spec.dangerous_schemes /\
  scheme_of "/file:" = None /\
  fst (validateUrl scheme_of "/file:" empty_world)
  = Ok (ValidationResult.mk false [E_format]).
Proof.
  split; [| split; reflexivity].
  apply maliciousPatterns_spec. reflexivity.
Qed.

Section Platform.

Variable URL_protocol : string -> option string.

(** C7 (amended): for every input string in which one of javascript:,
    data:, vbscript:, file: occurs up to case, whatever the parser
    answers. When the string parses as an absolute URL, [validateUrl]
    reports the malicious-content violation (and logs a warning), and the
    violations of the checks made on a parsed URL accumulate: a scheme
    other than http and https is reported together with the malicious
    content, in that order. When the string does not parse, the result
    holds the format violation alone: the blocklist is not consulted, no
    malicious-content violation is reported and no warning is logged,
    the only event being that of the validation. *)
Theorem validateUrl_malicious (url : string) (w : World) :
  Exists (fun p => Spec.occurs_ignore_case p url) Spec.dangerous_schemes ->
  (forall protocol,
     URL_protocol url = Some protocol ->
     exists res,
       fst (validateUrl URL_protocol url w) = Ok res /\
       isValid res = false /\
       In E_malicious (errors res) /\
       errors res
       = (if Str.includes ["http:"; "https:"] protocol
          then [E_malicious] else [E_protocol; E_malicious]) /\
       In (LogEvent.mk LogEvent.WARN "MALICIOUS_URL_ATTEMPT")
          (logs (snd (validateUrl URL_protocol url w)))) /\
  (URL_protocol url = None ->
   fst (validateUrl URL_protocol url w)
   = Ok (ValidationResult.mk false [E_format]) /\
   ~ In E_malicious [E_format] /\
   logs (snd (validateUrl URL_protocol url w))
   = logs w ++ [LogEvent.mk LogEvent.INFO "URL_VALIDATION"]).
Proof.
  intros Hd.
  pose proof (dangerous_not_blank url Hd) as NB.
  apply StrFacts.trim_truthy_not_blank in NB.
  apply maliciousPatterns_spec in Hd.
  split.
  - intros protocol Hp.
    unfold validateUrl. rewrite NB, Hp. cbn [negb].
    unfold bind at 1. rewrite Hd.
    destruct (Str.includes ["http:"; "https:"] protocol);
      (eexists; split; [reflexivity |]); cbn;
      repeat split; auto;
      apply in_app_iff; left; apply in_app_iff; right; left; reflexivity.
  - intros Hp. unfold validateUrl. rewrite NB, Hp. cbn [negb].
    split; [reflexivity |]. split; [| reflexivity].
    intros [E | []]. destruct errors_distinct as (_ & _ & _ & _).
    discriminate E.
Qed.

End Platform.

(** A dangerous scheme as the scheme of the URL, one inside a URL whose
    own scheme is fine, and one inside a string that has no scheme. *)
Lemma validateUrl_malicious_javascript :
  (exists res,
     fst (validateUrl scheme_of "javascript:alert(1)" empty_world) = Ok res /\
     isValid res = false /\
     errors res = [E_protocol; E_malicious]) /\
  (exists res,
     fst (validateUrl scheme_of "https://example.com/?next=DATA:text/html"
            empty_world) = Ok res /\
     isValid res = false /\
     errors res = [E_malicious]) /\
  fst (validateUrl scheme_of "//example.com/?next=vbscript:x" empty_world)
  = Ok (ValidationResult.mk false [E_format]) /\
  logs (snd (validateUrl scheme_of "//example.com/?next=vbscript:x"
               empty_world))
  = [LogEvent.mk LogEvent.INFO "URL_VALIDATION"].
Proof.
  split; [| split].
  - destruct (validateUrl_malicious scheme_of "javascript:alert(1)"
                empty_world) as [H _].
    + apply maliciousPatterns_spec. reflexivity.
    + destruct (H "javascript:") as (res & R & V & _ & E & _);
        [reflexivity |].
      exists res. repeat split; assumption.
  - destruct (validateUrl_malicious scheme_of
                "https://example.com/?next=DATA:text/html" empty_world)
      as [H _].
    + apply maliciousPatterns_spec. reflexivity.
    + destruct (H "https:") as (res & R & V & _ & E & _); [reflexivity |].
      exists res. repeat split; assumption.
  - destruct (validateUrl_malicious scheme_of
                "//example.com/?next=vbscript:x" empty_world) as [_ H].
    + apply maliciousPatterns_spec. reflexivity.
    + destruct (H eq_refl) as (R & _ & L). split; [exact R | exact L].
Defined.

(** The bounds of [validateExpiryMinutes]: one minute to thirty days. *)
Lemma validateExpiryMinutes_spec (minutes : Z) :
  isValid (validateExpiryMinutes minutes) = true <-> 1 <= minutes <= 43200.
Proof.
  unfold validateExpiryMinutes, push_if.
  destruct (minutes <? 1) eqn:E1, (43200 <? minutes) eqn:E2;
    cbn [isValid app length Nat.eqb];
    try apply Z.ltb_lt in E1; try apply Z.ltb_ge in E1;
    try apply Z.ltb_lt in E2; try apply Z.ltb_ge in E2;
    split; intros H; try discriminate; try reflexivity; lia.
Qed.

Lemma validateExpiryMinutes_boundaries :
  isValid (validateExpiryMinutes 0) = false /\
  isValid (validateExpiryMinutes 1) = true /\
  isValid (validateExpiryMinutes 43200) = true /\
  isValid (validateExpiryMinutes 43201) = false.
Proof. repeat split. Qed.

End ValidationFacts.

(** ** Insertion-ordered maps *)

Module JsMapFacts.

Import JsMap.

Section Facts.
Context {V : Type}.
Implicit Types (m : list (string * V)) (k : string) (v : V).

Lemma get_set_eq k v m : get k (set k v m) = Some v.
Proof.
  induction m as [| [k' v'] m IH]; simpl.
  - rewrite String.eqb_refl. reflexivity.
  - destruct (String.eqb k k') eqn:E; simpl.
    + rewrite String.eqb_refl. reflexivity.
    + rewrite E. exact IH.
Qed.

Lemma get_set_ne k k' v m : k <> k' -> get k' (set k v m) = get k' m.
Proof.
  intros Hne. induction m as [| [k0 v0] m IH]; simpl.
  - apply String.eqb_neq in Hne. rewrite String.eqb_sym, Hne. reflexivity.
  - destruct (String.eqb k k0) eqn:E; simpl.
    + apply String.eqb_eq in E. subst k0.
      apply String.eqb_neq in Hne. rewrite String.eqb_sym, Hne.
      reflexivity.
    + rewrite IH. reflexivity.
Qed.

Lemma get_delete_eq k m : get k (delete k m) = None.
Proof.
  induction m as [| [k' v'] m IH]; simpl; [reflexivity |].
  destruct (String.eqb k k') eqn:E; simpl; [exact IH |].
  rewrite E. exact IH.
Qed.

Lemma get_delete_ne k k' m : k <> k' -> get k' (delete k m) = get k' m.
Proof.
  intros Hne. induction m as [| [k0 v0] m IH]; simpl; [reflexivity |].
  destruct (String.eqb k k0) eqn:E; simpl.
  - apply String.eqb_eq in E. subst k0.
    apply String.eqb_neq in Hne. rewrite String.eqb_sym, Hne. exact IH.
  - rewrite IH. reflexivity.
Qed.

Lemma get_In_values k v m : get k m = Some v -> In v (values m).
Proof.
  induction m as [| [k' v'] m IH]; simpl; [discriminate |].
  destruct (String.eqb k k'); [intros [= ->]; left; reflexivity |].
  intros H. right. apply IH, H.
Qed.

Lemma In_values_set v0 k v m :
  In v0 (values (set k v m)) -> v0 = v \/ In v0 (values m).
Proof.
  induction m as [| [k' v'] m IH]; simpl.
  - intros [<- | []]. left. reflexivity.
  - destruct (String.eqb k k'); simpl.
    + intros [<- | H]; auto.
    + intros [<- | H]; auto. destruct (IH H); auto.
Qed.

Lemma In_values_delete v0 k m :
  In v0 (values (delete k m)) -> In v0 (values m).
Proof.
  induction m as [| [k' v'] m IH]; simpl; [tauto |].
  destruct (String.eqb k k'); simpl; [auto |].
  intros [<- | H]; auto.
Qed.

(** A key of a map without the key: appended last. *)
Lemma set_fresh k v m : get k m = None -> set k v m = m ++ [(k, v)].
Proof.
  induction m as [| [k' v'] m IH]; simpl; [reflexivity |].
  destruct (String.eqb k k'); [discriminate |].
  intros H. rewrite IH by exact H. reflexivity.
Qed.

End Facts.

End JsMapFacts.

(** ** The stable sort *)

Module SortFacts.

Import URLService.

Section Facts.
Context {A : Type} (key : A -> Z).

(** The comparator of [getAllUrls], on any key. *)
Local Abbreviation compare := (fun a b : A => key b - key a).

Local Abbreviation newest_first := (fun a b : A => key b <= key a).

Lemma sort_insert_perm (a : A) (xs : list A) :
  Permutation (sort_insert compare a xs) (a :: xs).
Proof.
  induction xs as [| b xs IH]; simpl; [reflexivity |].
  destruct (compare a b <=? 0); [reflexivity |].
  rewrite IH. apply perm_swap.
Qed.

Lemma sort_perm (xs : list A) : Permutation (sort compare xs) xs.
Proof.
  induction xs as [| a xs IH]; simpl; [reflexivity |].
  rewrite sort_insert_perm, IH. reflexivity.
Qed.

Lemma sort_insert_hd (a x : A) (xs : list A) :
  newest_first x a -> HdRel newest_first x xs ->
  HdRel newest_first x (sort_insert compare a xs).
Proof.
  intros Ha Hx. destruct xs as [| b xs]; simpl.
  - constructor. exact Ha.
  - destruct (compare a b <=? 0); constructor; [exact Ha |].
    inversion Hx; assumption.
Qed.

Lemma sort_insert_sorted (a : A) (xs : list A) :
  Sorted newest_first xs -> Sorted newest_first (sort_insert compare a xs).
Proof.
  induction 1 as [| b xs Hs IH Hb]; simpl.
  - repeat constructor.
  - destruct (compare a b <=? 0) eqn:E.
    + apply Z.leb_le in E. constructor; [constructor; assumption |].
      constructor. lia.
    + apply Z.leb_gt in E. constructor; [exact IH |].
      apply sort_insert_hd; [| exact Hb].
      lia.
Qed.

Lemma sort_sorted (xs : list A) : Sorted newest_first (sort compare xs).
Proof.
  induction xs as [| a xs IH]; simpl; [constructor |].
  apply sort_insert_sorted, IH.
Qed.

Lemma sort_strongly_sorted (xs : list A) :
  StronglySorted newest_first (sort compare xs).
Proof.
  apply Sorted_StronglySorted; [| apply sort_sorted].
  intros a b c. lia.
Qed.

(** The sort is stable: records of one instant keep their order. *)
Lemma sort_insert_filter (t : Z) (a : A) (xs : list A) :
  Sorted newest_first xs ->
  List.filter (fun x => key x =? t) (sort_insert compare a xs)
  = List.filter (fun x => key x =? t) (a :: xs).
Proof.
  induction 1 as [| b xs Hs IH Hb]; [reflexivity |].
  cbn [sort_insert]. destruct (compare a b <=? 0) eqn:E; [reflexivity |].
  apply Z.leb_gt in E.
  cbn [List.filter] in *.
  destruct (key b =? t) eqn:Eb, (key a =? t) eqn:Ea;
    try (rewrite IH; reflexivity).
  apply Z.eqb_eq in Eb, Ea. lia.
Qed.

Lemma sort_stable (t : Z) (xs : list A) :
  List.filter (fun x => key x =? t) (sort compare xs)
  = List.filter (fun x => key x =? t) xs.
Proof.
  induction xs as [| a xs IH]; [reflexivity |].
  cbn [sort foldr]. fold (sort compare xs).
  rewrite sort_insert_filter by apply sort_sorted.
  cbn [List.filter]. rewrite IH. reflexivity.
Qed.

End Facts.

End SortFacts.

(** ** The registry *)

Module URLServiceFacts.

Import URLService.

(** *** Running [shortenUrl] *)

Lemma new_id_truthy (env : ShortenEnv) : Str.truthy (Spec.new_id env) = true.
Proof. reflexivity. Qed.

Lemma shortenUrl_success (originalUrl : string)
    (customShortCode : option string) (expiryMinutes : option Z)
    (env : ShortenEnv) (w : World) :
  shortCodeToId w !! Spec.resolved customShortCode env = None ->
  (Spec.active_count w < 5)%nat ->
  exists r w',
    shortenUrl originalUrl customShortCode expiryMinutes env w
    = (Ok (length (heap w)), w') /\
    heap w' = heap w ++ [r] /\
    urls w' = JsMap.set (Spec.new_id env) (length (heap w)) (urls w) /\
    shortCodeToId w'
    = <[Spec.resolved customShortCode env := Spec.new_id env]>
        (shortCodeToId w) /\
    ShortenedURL.id r = Spec.new_id env /\
    ShortenedURL.originalUrl r = originalUrl /\
    ShortenedURL.shortCode r = Spec.resolved customShortCode env /\
    ShortenedURL.createdAt r = s_newDate env /\
    ShortenedURL.expiresAt r = Spec.deadline expiryMinutes env /\
    ShortenedURL.isActive r = true /\
    ShortenedURL.clickCount r = 0 /\
    ShortenedURL.clicks r = [] /\
    ls_urls w' = Some (url_values w').
Proof.
  intros Hfree Hcount. unfold shortenUrl.
  change (match customShortCode with
          | Some c => if Str.truthy c then c
                      else generateShortCode (s_draw env)
          | None => generateShortCode (s_draw env)
          end) with (Spec.resolved customShortCode env).
  cbv zeta. unfold bind at 1. unfold gets at 1. rewrite Hfree.
  replace (bool_decide (is_Some None)) with false
    by (symmetry; apply bool_decide_eq_false; intros [? ?]; discriminate).
  unfold bind at 1. unfold gets at 1.
  unfold Spec.active_count in Hcount. apply Nat.leb_gt in Hcount.
  rewrite Hcount.
  eexists _, _. split; [reflexivity |]. repeat split.
Qed.

Lemma shortenUrl_duplicate (originalUrl : string)
    (customShortCode : option string) (expiryMinutes : option Z)
    (env : ShortenEnv) (w : World) :
  is_Some (shortCodeToId w !! Spec.resolved customShortCode env) ->
  shortenUrl originalUrl customShortCode expiryMinutes env w
  = (Throw E_duplicate, w).
Proof.
  intros Htaken. unfold shortenUrl.
  change (match customShortCode with
          | Some c => if Str.truthy c then c
                      else generateShortCode (s_draw env)
          | None => generateShortCode (s_draw env)
          end) with (Spec.resolved customShortCode env).
  cbv zeta. unfold bind at 1. unfold gets at 1.
  rewrite (bool_decide_eq_true_2 _ Htaken). reflexivity.
Qed.

Lemma shortenUrl_limit (originalUrl : string)
    (customShortCode : option string) (expiryMinutes : option Z)
    (env : ShortenEnv) (w : World) :
  shortCodeToId w !! Spec.resolved customShortCode env = None ->
  (5 <= Spec.active_count w)%nat ->
  shortenUrl originalUrl customShortCode expiryMinutes env w
  = (Throw E_limit, snd (Logger.warn "CONCURRENT_LIMIT_REACHED" w)).
Proof.
  intros Hfree Hcount. unfold shortenUrl.
  change (match customShortCode with
          | Some c => if Str.truthy c then c
                      else generateShortCode (s_draw env)
          | None => generateShortCode (s_draw env)
          end) with (Spec.resolved customShortCode env).
  cbv zeta. unfold bind at 1. unfold gets at 1. rewrite Hfree.
  replace (bool_decide (is_Some None)) with false
    by (symmetry; apply bool_decide_eq_false; intros [? ?]; discriminate).
  unfold bind at 1. unfold gets at 1.
  unfold Spec.active_count in Hcount. apply Nat.leb_le in Hcount.
  rewrite Hcount. reflexivity.
Qed.

(** A call that returns has passed both gates. *)
Lemma shortenUrl_returns (originalUrl : string)
    (customShortCode : option string) (expiryMinutes : option Z)
    (env : ShortenEnv) (w w' : World) (l : loc) :
  shortenUrl originalUrl customShortCode expiryMinutes env w = (Ok l, w') ->
  shortCodeToId w !! Spec.resolved customShortCode env = None /\
  (Spec.active_count w < 5)%nat.
Proof.
  intros H.
  destruct (shortCodeToId w !! Spec.resolved customShortCode env) eqn:E.
  - rewrite shortenUrl_duplicate in H by (rewrite E; eauto). discriminate.
  - split; [reflexivity |].
    destruct (le_lt_dec 5 (Spec.active_count w)) as [L | L]; [| exact L].
    rewrite shortenUrl_limit in H by assumption. discriminate.
Qed.

(** *** C1 *)

Lemma lookup_new_record (w' : World) (h : list ShortenedURL.t)
    (r : ShortenedURL.t) (m : list (string * loc)) (c : gmap string string)
    (code id : string) (now : Z) :
  heap w' = h ++ [r] ->
  urls w' = JsMap.set id (length h) m ->
  shortCodeToId w' = <[code := id]> c ->
  Str.truthy id = true ->
  ShortenedURL.isActive r = true ->
  now <= ShortenedURL.expiresAt r ->
  getUrlByShortCode w' code now = Some (length h).
Proof.
  intros Hh Hu Hc Hid Ha Ht. unfold getUrlByShortCode.
  rewrite Hc, lookup_insert_eq, Hid, Hu, JsMapFacts.get_set_eq, Hh.
  rewrite list_lookup_middle by reflexivity. rewrite Ha.
  cbn [negb orb]. apply Z.ltb_ge in Ht. rewrite Ht. reflexivity.
Qed.

(** C1 (as stated, refuted): the five records of the sample registry
    are past their deadline half an hour later, and no tick of the sweep
    has cleared their flag: no record is active, the URL is valid and
    the code is free, and [shortenUrl] throws the limit error. *)
Lemma shorten_refused_by_expired_records :
  Spec.live_count Sample.w_five (Sample.t0 + 31 * 60 * 1000) = 0%nat /\
  Spec.active_count Sample.w_five = 5%nat /\
  fst (Validation.validateUrl Validation.scheme_of "https://y.com"
         Sample.w_five)
  = Ok (ValidationResult.mk true []) /\
  shortCodeToId Sample.w_five !! "sixth" = None /\
  fst (shortenUrl "https://y.com" (Some "sixth") (Some 30)
         (Sample.env_at (Sample.t0 + 31 * 60 * 1000) "z8y7x6w5v")
         Sample.w_five)
  = Throw E_limit.
Proof. repeat split; vm_compute; reflexivity. Qed.

(** C1 (amended): for every URL, every environment and every registry in
    which the resolved short code is free and fewer than five records
    carry the [isActive] flag (a record past its deadline counts as long
    as no tick of the sweep has cleared its flag), [shortenUrl] returns
    a record; and whenever [shortenUrl] returns a record, a lookup of the
    assigned code made no later than the deadline returns that very
    record: its [originalUrl] is the submitted URL and its [shortCode]
    the code just assigned. *)
Theorem shorten_then_lookup (originalUrl : string)
    (customShortCode : option string) (expiryMinutes : option Z)
    (env : ShortenEnv) (w : World) (now : Z) :
  now <= Spec.deadline expiryMinutes env ->
  (shortCodeToId w !! Spec.resolved customShortCode env = None ->
   (Spec.active_count w < 5)%nat ->
   exists l w',
     shortenUrl originalUrl customShortCode expiryMinutes env w
     = (Ok l, w')) /\
  (forall l w',
     shortenUrl originalUrl customShortCode expiryMinutes env w = (Ok l, w') ->
     exists r,
       heap w' !! l = Some r /\
       getUrlByShortCode w' (ShortenedURL.shortCode r) now = Some l /\
       ShortenedURL.originalUrl r = originalUrl /\
       ShortenedURL.shortCode r = Spec.resolved customShortCode env).
Proof.
  intros Hnow. split.
  - intros Hfree Hcount.
    destruct (shortenUrl_success originalUrl customShortCode expiryMinutes
                env w Hfree Hcount) as (r & w' & Run & _).
    eauto.
  - intros l w' Run.
    destruct (shortenUrl_returns _ _ _ _ _ _ _ Run) as [Hfree Hcount].
    destruct (shortenUrl_success originalUrl customShortCode expiryMinutes
                env w Hfree Hcount)
      as (r & w1 & Run1 & Hh & Hu & Hc & _ & Ho & Hs & _ & He & Ha & _).
    rewrite Run1 in Run. injection Run as <- <-.
    exists r. split; [rewrite Hh; apply list_lookup_middle; reflexivity |].
    split; [| split; assumption].
    rewrite Hs. eapply lookup_new_record; eauto using new_id_truthy.
    rewrite He. exact Hnow.
Qed.

(** Scenario A, first half: a generated code on an empty page, looked up
    at the instant of creation. *)
Lemma shorten_then_lookup_generated :
  exists l w' r,
    shortenUrl "https://example.com/a" None (Some 1)
      (Sample.env_at Sample.t0 "k3j9x2m1q") empty_world = (Ok l, w') /\
    heap w' !! l = Some r /\
    getUrlByShortCode w' (ShortenedURL.shortCode r) Sample.t0 = Some l /\
    ShortenedURL.originalUrl r = "https://example.com/a" /\
    ShortenedURL.shortCode r = "dkryFM".
Proof.
  destruct (shorten_then_lookup "https://example.com/a" None (Some 1)
              (Sample.env_at Sample.t0 "k3j9x2m1q") empty_world Sample.t0)
    as [Hret Hlook].
  - vm_compute. discriminate.
  - destruct Hret as (l & w' & Run).
    + reflexivity.
    + vm_compute. lia.
    + destruct (Hlook l w' Run) as (r & Hr & Hg & Ho & Hs).
      exists l, w', r. auto.
Defined.

(** *** C4 *)

(** C4: in every registry in which the resolved short code (custom or
    generated, compared as it is written) is already in the short-code
    index, [shortenUrl] throws the duplicate error and leaves the whole
    state, both indexes included, as it was. *)
Theorem shorten_duplicate_rejected (originalUrl : string)
    (customShortCode : option string) (expiryMinutes : option Z)
    (env : ShortenEnv) (w : World) :
  is_Some (shortCodeToId w !! Spec.resolved customShortCode env) ->
  exists w',
    shortenUrl originalUrl customShortCode expiryMinutes env w
    = (Throw E_duplicate, w') /\
    w' = w /\ urls w' = urls w /\ shortCodeToId w' = shortCodeToId w.
Proof.
  intros Htaken. exists w.
  rewrite shortenUrl_duplicate by exact Htaken. repeat split.
Qed.

(** Scenario B: [abc] is taken by the first call and refused to the
    second; the code [ABC] is another code, and is accepted. *)
Lemma shorten_duplicate_abc :
  (exists w',
     shortenUrl "https://y.com" (Some "abc") (Some 30)
       (Sample.env_at (Sample.t0 + 5) "z8y7x6w5v") Sample.w_abc
     = (Throw E_duplicate, w') /\
     w' = Sample.w_abc /\ urls w' = urls Sample.w_abc /\
     shortCodeToId w' = shortCodeToId Sample.w_abc) /\
  (exists l w',
     shortenUrl "https://y.com" (Some "ABC") (Some 30)
       (Sample.env_at (Sample.t0 + 5) "z8y7x6w5v") Sample.w_abc
     = (Ok l, w')).
Proof.
  split.
  - apply (shorten_duplicate_rejected "https://y.com" (Some "abc") (Some 30)
             (Sample.env_at (Sample.t0 + 5) "z8y7x6w5v") Sample.w_abc).
    vm_compute. eauto.
  - eexists _, _. vm_compute. reflexivity.
Defined.

(** *** C10 *)

Lemma charAt_chars (n : nat) :
  (n < 62)%nat ->
  exists c, Str.charAt chars n = String c EmptyString
            /\ Spec.alphanumeric c = true.
Proof.
  intros H.
  do 62 (destruct n as [| n]; [eexists; split; reflexivity |]).
  lia.
Qed.

Lemma generateShortCode_spec (draw : nat -> nat) :
  (forall i, (i < 6)%nat -> (draw i < 62)%nat) ->
  String.length (generateShortCode draw) = 6%nat /\
  Forall (fun c => Spec.alphanumeric c = true)
         (Str.to_list (generateShortCode draw)) /\
  forall i, (i < 6)%nat ->
    String.get i (generateShortCode draw) = String.get (draw i) chars.
Proof.
  intros Hd. unfold generateShortCode. cbn [seq foldl].
  assert (G : forall n c, Str.charAt chars n = String c EmptyString ->
                          String.get n chars = Some c).
  { intros n c. unfold Str.charAt.
    destruct (String.get n chars); [intros [= ->]; reflexivity |
                                    discriminate]. }
  destruct (charAt_chars (draw 0%nat)) as (c0 & E0 & A0); [apply Hd; lia |].
  destruct (charAt_chars (draw 1%nat)) as (c1 & E1 & A1); [apply Hd; lia |].
  destruct (charAt_chars (draw 2%nat)) as (c2 & E2 & A2); [apply Hd; lia |].
  destruct (charAt_chars (draw 3%nat)) as (c3 & E3 & A3); [apply Hd; lia |].
  destruct (charAt_chars (draw 4%nat)) as (c4 & E4 & A4); [apply Hd; lia |].
  destruct (charAt_chars (draw 5%nat)) as (c5 & E5 & A5); [apply Hd; lia |].
  rewrite E0, E1, E2, E3, E4, E5. cbn [String.append].
  split; [reflexivity |]. split; [repeat constructor; assumption |].
  intros i Hi.
  do 6 (destruct i as [| i];
        [cbn [String.get]; symmetry; apply G; assumption |]).
  lia.
Qed.

(** C10: [shortenUrl] with the empty string as custom code is the call
    without a custom code, whatever the state and the environment; the
    code it resolves is the generated one, which (the draws being indexes
    of the alphabet) has six characters, each the character of the
    alphabet at the index drawn and so a letter or a digit. The call
    returns whenever the generated code is free and fewer than five
    records carry the flag, and it throws the duplicate error when the
    generated code is taken, whether the empty string is in the index or
    not; and whenever it returns, the generated code is what the record
    and the index hold, the entry of the empty string in the index being
    left as it was: the empty string is never registered. *)
Theorem shorten_empty_custom_code (originalUrl : string)
    (expiryMinutes : option Z) (env : ShortenEnv) (w : World) :
  (forall i, (i < 6)%nat -> (s_draw env i < 62)%nat) ->
  shortenUrl originalUrl (Some EmptyString) expiryMinutes env w
  = shortenUrl originalUrl None expiryMinutes env w /\
  Spec.resolved (Some EmptyString) env = generateShortCode (s_draw env) /\
  String.length (generateShortCode (s_draw env)) = 6%nat /\
  Forall (fun c => Spec.alphanumeric c = true)
         (Str.to_list (generateShortCode (s_draw env))) /\
  (forall i, (i < 6)%nat ->
     String.get i (generateShortCode (s_draw env))
     = String.get (s_draw env i) chars) /\
  (forall l w',
     shortenUrl originalUrl (Some EmptyString) expiryMinutes env w
     = (Ok l, w') ->
     shortCodeToId w' !! generateShortCode (s_draw env)
     = Some (Spec.new_id env) /\
     shortCodeToId w' !! EmptyString = shortCodeToId w !! EmptyString /\
     exists r, heap w' !! l = Some r /\
               ShortenedURL.shortCode r = generateShortCode (s_draw env)) /\
  (shortCodeToId w !! generateShortCode (s_draw env) = None ->
   (Spec.active_count w < 5)%nat ->
   exists l w' r,
     shortenUrl originalUrl (Some EmptyString) expiryMinutes env w
     = (Ok l, w') /\
     heap w' !! l = Some r /\
     ShortenedURL.originalUrl r = originalUrl /\
     ShortenedURL.shortCode r = generateShortCode (s_draw env) /\
     ShortenedURL.shortCode r <> EmptyString /\
     String.length (ShortenedURL.shortCode r) = 6%nat /\
     Spec.mapped w' (generateShortCode (s_draw env)) = Some l /\
     shortCodeToId w' !! EmptyString = shortCodeToId w !! EmptyString) /\
  (is_Some (shortCodeToId w !! generateShortCode (s_draw env)) ->
   shortenUrl originalUrl (Some EmptyString) expiryMinutes env w
   = (Throw E_duplicate, w)).
Proof.
  intros Hd.
  destruct (generateShortCode_spec (s_draw env) Hd) as (L & A & G).
  assert (Hne : generateShortCode (s_draw env) <> EmptyString)
    by (intros E; rewrite E in L; discriminate L).
  split; [reflexivity |]. split; [reflexivity |].
  split; [exact L |]. split; [exact A |]. split; [exact G |].
  split; [| split].
  - intros l w' Run.
    destruct (shortenUrl_returns _ _ _ _ _ _ _ Run) as [Hfree Hcount].
    destruct (shortenUrl_success originalUrl (Some EmptyString) expiryMinutes
                env w Hfree Hcount)
      as (r & w1 & Run1 & Hh & _ & Hc & _ & _ & Hs & _).
    rewrite Run1 in Run. injection Run as <- <-.
    change (Spec.resolved (Some EmptyString) env)
      with (generateShortCode (s_draw env)) in *.
    rewrite Hc. split; [apply lookup_insert_eq |]. split.
    + apply lookup_insert_ne. exact Hne.
    + exists r. split; [| exact Hs].
      rewrite Hh. apply list_lookup_middle. reflexivity.
  - intros Hfree Hcount.
    destruct (shortenUrl_success originalUrl (Some EmptyString) expiryMinutes
                env w Hfree Hcount)
      as (r & w1 & Run1 & Hh & Hu & Hc & _ & Ho & Hs & _).
    change (Spec.resolved (Some EmptyString) env)
      with (generateShortCode (s_draw env)) in *.
    exists (length (heap w)), w1, r. split; [exact Run1 |].
    split; [rewrite Hh; apply list_lookup_middle; reflexivity |].
    split; [exact Ho |]. split; [exact Hs |].
    split; [rewrite Hs; exact Hne |]. split; [rewrite Hs; exact L |].
    split.
    + unfold Spec.mapped. rewrite Hc, lookup_insert_eq, Hu.
      apply JsMapFacts.get_set_eq.
    + rewrite Hc. apply lookup_insert_ne. exact Hne.
  - intros Htaken. apply shortenUrl_duplicate. exact Htaken.
Qed.

(** Scenario A with the empty string as custom code: the call returns
    and registers the generated code; on the registry that holds that
    code, the same call throws the duplicate error. *)
Lemma shorten_empty_custom_code_sample :
  shortenUrl "https://example.com/a" (Some EmptyString) (Some 1)
    (Sample.env_at Sample.t0 "k3j9x2m1q") empty_world
  = shortenUrl "https://example.com/a" None (Some 1)
      (Sample.env_at Sample.t0 "k3j9x2m1q") empty_world /\
  generateShortCode (s_draw (Sample.env_at Sample.t0 "k3j9x2m1q"))
  = "dkryFM" /\
  (exists l w' r,
     shortenUrl "https://example.com/a" (Some EmptyString) (Some 1)
       (Sample.env_at Sample.t0 "k3j9x2m1q") empty_world = (Ok l, w') /\
     heap w' !! l = Some r /\
     ShortenedURL.shortCode r = "dkryFM" /\
     Spec.mapped w' "dkryFM" = Some l /\
     shortCodeToId w' !! EmptyString = None) /\
  shortenUrl "https://example.com/b" (Some EmptyString) (Some 1)
    (Sample.env_at (Sample.t0 + 1) "z8y7x6w5v") Sample.w_gen
  = (Throw E_duplicate, Sample.w_gen).
Proof.
  assert (D : forall i, (i < 6)%nat ->
                (s_draw (Sample.env_at Sample.t0 "k3j9x2m1q") i < 62)%nat)
    by (intros i Hi; cbn [Sample.env_at s_draw]; lia).
  destruct (shorten_empty_custom_code "https://example.com/a" (Some 1)
              (Sample.env_at Sample.t0 "k3j9x2m1q") empty_world D)
    as (E & _ & _ & _ & _ & _ & R & _).
  destruct (shorten_empty_custom_code "https://example.com/b" (Some 1)
              (Sample.env_at (Sample.t0 + 1) "z8y7x6w5v") Sample.w_gen)
    as (_ & _ & _ & _ & _ & _ & _ & T);
    [intros i Hi; cbn [Sample.env_at s_draw]; lia |].
  split; [exact E |]. split; [reflexivity |]. split.
  - destruct R as (l & w' & r & Run & Hr & _ & Hs & _ & _ & Hm & He);
      [reflexivity | vm_compute; lia |].
    exists l, w', r. split; [exact Run |]. split; [exact Hr |].
    split; [exact Hs |]. split; [exact Hm | exact He].
  - apply T. vm_compute. eauto.
Defined.

(** *** Running the other operations *)

Lemma saveToStorage_run (w : World) :
  saveToStorage w
  = (Ok tt, snd (Logger.info "URLS_SAVED_TO_STORAGE"
                   (set_ls_urls (Some (url_values w)) w))).
Proof. reflexivity. Qed.

Lemma getUrl_Some_inv (w : World) (shortCode : string) (now : Z) (l : loc) :
  getUrlByShortCode w shortCode now = Some l ->
  exists id u,
    shortCodeToId w !! shortCode = Some id /\
    Str.truthy id = true /\
    JsMap.get id (urls w) = Some l /\
    heap w !! l = Some u /\
    ShortenedURL.isActive u = true /\
    (ShortenedURL.expiresAt u <? now) = false.
Proof.
  unfold getUrlByShortCode.
  destruct (shortCodeToId w !! shortCode) as [id |] eqn:I; [| discriminate].
  destruct (Str.truthy id) eqn:T; [| discriminate]. cbn [negb].
  destruct (JsMap.get id (urls w)) as [l' |] eqn:G; [| discriminate].
  destruct (heap w !! l') as [u |] eqn:Hu; [| discriminate].
  destruct (ShortenedURL.isActive u) eqn:A; [| discriminate].
  destruct (ShortenedURL.expiresAt u <? now) eqn:X; [discriminate |].
  cbn [negb orb]. intros [= <-]. exists id, u. repeat split; auto.
Qed.

Lemma update_run (l : loc) (f : ShortenedURL.t -> ShortenedURL.t)
    (u : ShortenedURL.t) (w : World) :
  heap w !! l = Some u ->
  update l f w = (Ok tt, set_heap (<[l := f u]> (heap w)) w).
Proof. intros H. unfold update, modify. rewrite H. reflexivity. Qed.

Lemma recordClick_absent (shortCode userAgent referrer : string)
    (env : ClickEnv) (w : World) :
  getUrlByShortCode w shortCode (c_lookupDate env) = None ->
  recordClick shortCode userAgent referrer env w = (Ok false, w).
Proof.
  intros H. unfold recordClick, bind, gets. rewrite H. reflexivity.
Qed.

Lemma recordClick_present (shortCode userAgent referrer : string)
    (env : ClickEnv) (w : World) (l : loc) (u : ShortenedURL.t) :
  getUrlByShortCode w shortCode (c_lookupDate env) = Some l ->
  heap w !! l = Some u ->
  exists ev w',
    recordClick shortCode userAgent referrer env w = (Ok true, w') /\
    ev = ClickEvent.mk
           ("click_" +:+ pretty (c_dateNow env) +:+ "_" +:+ c_random env)
           (c_newDate env) userAgent "xxx.xxx.xxx.xxx" referrer
           "Hyderabad/Secunderabad" /\
    heap w' = <[l := Spec.clicked ev u]> (heap w) /\
    arrays w' = arrays w /\
    urls w' = urls w /\
    shortCodeToId w' = shortCodeToId w /\
    ls_urls w' = Some (url_values w') /\
    logs w' = logs w ++ [LogEvent.mk LogEvent.INFO "URLS_SAVED_TO_STORAGE";
                         LogEvent.mk LogEvent.INFO "CLICK_RECORDED"].
Proof.
  intros Hl Hu. unfold recordClick. unfold bind at 1. unfold gets at 1.
  rewrite Hl. unfold bind at 1. rewrite (update_run _ _ u) by exact Hu.
  unfold bind at 1.
  assert (Hu' : heap (set_heap (<[l := ShortenedURL.set_clicks
            (ShortenedURL.clicks u ++
             [ClickEvent.mk
                ("click_" +:+ pretty (c_dateNow env) +:+ "_" +:+ c_random env)
                (c_newDate env) userAgent "xxx.xxx.xxx.xxx" referrer
                "Hyderabad/Secunderabad"]) u]> (heap w)) w) !! l
          = Some (ShortenedURL.set_clicks
            (ShortenedURL.clicks u ++
             [ClickEvent.mk
                ("click_" +:+ pretty (c_dateNow env) +:+ "_" +:+ c_random env)
                (c_newDate env) userAgent "xxx.xxx.xxx.xxx" referrer
                "Hyderabad/Secunderabad"]) u)).
  { cbn [heap set_heap]. apply list_lookup_insert_eq.
    apply lookup_lt_Some in Hu. exact Hu. }
  rewrite (update_run _ _ _ _ Hu').
  eexists _, _. split; [reflexivity |]. split; [reflexivity |].
  cbn [heap arrays urls shortCodeToId ls_urls logs set_heap].
  rewrite list_insert_insert_eq.
  repeat split. cbn. rewrite <- app_assoc. reflexivity.
Qed.

Lemma deleteUrl_absent (id : string) (w : World) :
  JsMap.get id (urls w) = None -> deleteUrl id w = (Ok false, w).
Proof. intros H. unfold deleteUrl, bind, gets. rewrite H. reflexivity. Qed.

Lemma deleteUrl_present (id : string) (w : World) (l : loc) :
  JsMap.get id (urls w) = Some l ->
  exists w',
    deleteUrl id w = (Ok true, w') /\
    heap w' = heap w /\
    arrays w' = arrays w /\
    urls w' = JsMap.delete id (urls w) /\
    shortCodeToId w'
    = delete (match heap w !! l with
              | Some u => ShortenedURL.shortCode u
              | None => EmptyString
              end) (shortCodeToId w) /\
    ls_urls w' = Some (url_values w').
Proof.
  intros H. unfold deleteUrl. unfold bind at 1. unfold gets at 1.
  rewrite H. eexists. split; [reflexivity |]. repeat split.
Qed.

Lemma cleanupExpiredUrls_run (now : Z) (w : World) :
  exists w',
    cleanupExpiredUrls now w = (Ok tt, w') /\
    heap w' = (foldl (cleanup_step now) (heap w, 0%nat) (urls w)).1 /\
    arrays w' = arrays w /\
    urls w' = urls w /\
    shortCodeToId w' = shortCodeToId w /\
    (ls_urls w' = ls_urls w \/ ls_urls w' = Some (url_values w')).
Proof.
  unfold cleanupExpiredUrls. unfold bind at 1. unfold gets at 1.
  unfold bind at 1. unfold modify at 1.
  destruct (0 <? (foldl (cleanup_step now) (heap w, 0%nat) (urls w)).2)%nat;
    eexists; (split; [reflexivity |]); repeat split; auto.
Qed.

Lemma getAllUrls_run (w : World) :
  getAllUrls w
  = (Ok (length (arrays w)),
     set_arrays
       (arrays w ++
        [sort (fun a b => createdAt_of w b - createdAt_of w a)
              (JsMap.values (urls w))]) w).
Proof.
  unfold getAllUrls, Array_from, Array_sort, bind, gets, modify, ret.
  cbn [arrays set_arrays].
  rewrite list_lookup_middle by reflexivity.
  rewrite insert_app_r_alt by lia. rewrite Nat.sub_diag. reflexivity.
Qed.

(** *** What each operation does to the heap and to the indexes *)

Lemma shortenUrl_cases (originalUrl : string)
    (customShortCode : option string) (expiryMinutes : option Z)
    (env : ShortenEnv) (w : World) :
  (is_Some (shortCodeToId w !! Spec.resolved customShortCode env) /\
   shortenUrl originalUrl customShortCode expiryMinutes env w
   = (Throw E_duplicate, w)) \/
  (shortCodeToId w !! Spec.resolved customShortCode env = None /\
   (5 <= Spec.active_count w)%nat /\
   shortenUrl originalUrl customShortCode expiryMinutes env w
   = (Throw E_limit, snd (Logger.warn "CONCURRENT_LIMIT_REACHED" w))) \/
  (shortCodeToId w !! Spec.resolved customShortCode env = None /\
   (Spec.active_count w < 5)%nat /\
   exists r w',
     shortenUrl originalUrl customShortCode expiryMinutes env w
     = (Ok (length (heap w)), w') /\
     heap w' = heap w ++ [r] /\
     urls w' = JsMap.set (Spec.new_id env) (length (heap w)) (urls w) /\
     shortCodeToId w'
     = <[Spec.resolved customShortCode env := Spec.new_id env]>
         (shortCodeToId w) /\
     ShortenedURL.id r = Spec.new_id env /\
     ShortenedURL.isActive r = true /\
     ls_urls w' = Some (url_values w')).
Proof.
  destruct (shortCodeToId w !! Spec.resolved customShortCode env) eqn:E.
  - left. split; [eauto |]. apply shortenUrl_duplicate. rewrite E. eauto.
  - right. destruct (le_lt_dec 5 (Spec.active_count w)) as [L | L].
    + left. split; [reflexivity |]. split; [exact L |].
      apply shortenUrl_limit; assumption.
    + right. split; [reflexivity |]. split; [exact L |].
      destruct (shortenUrl_success originalUrl customShortCode
                  expiryMinutes env w E L)
        as (r & w' & Run & Hh & Hu & Hc & Hi & _ & _ & _ & _ & Ha & _ & _
            & Hs).
      exists r, w'. auto 10.
Qed.

Lemma sweep_lookup (now : Z) (entries : list (string * loc)) :
  forall (h : list ShortenedURL.t) (n : nat) (l : loc),
    (foldl (cleanup_step now) (h, n) entries).1 !! l
    = (fun u => if bool_decide (l ∈ JsMap.values entries)
                then Spec.swept now u else u) <$> (h !! l).
Proof.
  induction entries as [| [k v] entries IH]; intros h n l.
  - cbn. destruct (h !! l); reflexivity.
  - cbn [foldl JsMap.values map snd]. fold (JsMap.values entries).
    unfold cleanup_step at 2. cbn [fst snd].
    assert (Idem : forall u, Spec.swept now (Spec.swept now u)
                             = Spec.swept now u).
    { intros u. unfold Spec.swept.
      destruct ((ShortenedURL.expiresAt u <? now)
                && ShortenedURL.isActive u) eqn:E; [| rewrite E; reflexivity].
      cbn. rewrite andb_false_r. reflexivity. }
    assert (Other : v <> l ->
      forall u' : ShortenedURL.t,
        (if bool_decide (l ∈ JsMap.values entries)
         then Spec.swept now u' else u')
        = (if bool_decide (l ∈ v :: JsMap.values entries)
           then Spec.swept now u' else u')).
    { intros Hne u'.
      destruct (bool_decide (l ∈ JsMap.values entries)) eqn:B.
      - apply bool_decide_eq_true in B.
        rewrite bool_decide_eq_true_2 by (right; exact B). reflexivity.
      - apply bool_decide_eq_false in B.
        rewrite bool_decide_eq_false_2; [reflexivity |].
        intros M. apply elem_of_cons in M as [? | ?];
          [congruence | tauto]. }
    destruct (h !! v) as [u |] eqn:Hv.
    + assert (Step :
        (if (ShortenedURL.expiresAt u <? now) && ShortenedURL.isActive u
         then (<[v := ShortenedURL.set_isActive false u]> h, S n)
         else (h, n))
        = (<[v := Spec.swept now u]> h,
           if (ShortenedURL.expiresAt u <? now) && ShortenedURL.isActive u
           then S n else n)).
      { unfold Spec.swept.
        destruct ((ShortenedURL.expiresAt u <? now)
                  && ShortenedURL.isActive u); [reflexivity |].
        rewrite list_insert_id by exact Hv. reflexivity. }
      rewrite Step, IH.
      destruct (decide (v = l)) as [-> | Hne].
      * rewrite list_lookup_insert_eq by (eapply lookup_lt_Some; eauto).
        rewrite Hv. cbn [fmap option_fmap option_map].
        rewrite (bool_decide_eq_true_2 (l ∈ l :: JsMap.values entries))
          by left.
        destruct (bool_decide (l ∈ JsMap.values entries));
          [rewrite Idem |]; reflexivity.
      * rewrite list_lookup_insert_ne by exact Hne.
        apply option_fmap_ext. intros u'. apply Other, Hne.
    + rewrite IH. destruct (decide (v = l)) as [-> | Hne].
      * rewrite Hv. reflexivity.
      * apply option_fmap_ext. intros u'. apply Other, Hne.
Qed.

Lemma sweep_length (now : Z) (entries : list (string * loc)) :
  forall acc : list ShortenedURL.t * nat,
    length (foldl (cleanup_step now) acc entries).1 = length acc.1.
Proof.
  induction entries as [| e entries IH]; intros acc; [reflexivity |].
  cbn [foldl]. rewrite IH. unfold cleanup_step.
  destruct (acc.1 !! e.2); [| reflexivity].
  destruct (_ && _); [apply length_insert | reflexivity].
Qed.

(** *** Invariants of the registry *)

Import Spec (flagged).

Lemma flagged_cons (h : list ShortenedURL.t) (l : loc) (vs : list loc) :
  flagged h (l :: vs)
  = match h !! l with
    | Some u => if ShortenedURL.isActive u
                then S (flagged h vs) else flagged h vs
    | None => flagged h vs
    end.
Proof.
  unfold flagged. cbn [omap list_omap]. destruct (h !! l) as [u |];
    [| reflexivity].
  cbn [List.filter]. destruct (ShortenedURL.isActive u); reflexivity.
Qed.

Lemma active_count_flagged (w : World) :
  Spec.active_count w = flagged (heap w) (JsMap.values (urls w)).
Proof. reflexivity. Qed.

Lemma flagged_mono (h h' : list ShortenedURL.t) (vs : list loc) :
  (forall l u', In l vs -> h' !! l = Some u' ->
                ShortenedURL.isActive u' = true ->
                exists u, h !! l = Some u /\ ShortenedURL.isActive u = true) ->
  (flagged h' vs <= flagged h vs)%nat.
Proof.
  induction vs as [| l vs IH]; intros H; [reflexivity |].
  assert (IH' : (flagged h' vs <= flagged h vs)%nat).
  { apply IH. intros l0 u' Hin. apply H. right. exact Hin. }
  rewrite !flagged_cons.
  destruct (h' !! l) as [u' |] eqn:E'.
  - destruct (ShortenedURL.isActive u') eqn:A.
    + destruct (H l u' (or_introl eq_refl) E' A) as (u & -> & ->). lia.
    + destruct (h !! l) as [u |]; [destruct (ShortenedURL.isActive u) |];
        lia.
  - destruct (h !! l) as [u |]; [destruct (ShortenedURL.isActive u) |]; lia.
Qed.

Lemma flagged_set (h : list ShortenedURL.t) (r : ShortenedURL.t)
    (id : string) (m : list (string * loc)) :
  Forall (fun l => (l < length h)%nat) (JsMap.values m) ->
  (flagged (h ++ [r]) (JsMap.values (JsMap.set id (length h) m))
   <= flagged h (JsMap.values m)
      + (if ShortenedURL.isActive r then 1 else 0))%nat.
Proof.
  intros Hv.
  assert (Old : forall vs, Forall (fun l => (l < length h)%nat) vs ->
                flagged (h ++ [r]) vs = flagged h vs).
  { induction vs as [| l vs IHvs]; intros F; [reflexivity |].
    inversion F as [| ? ? Hl Hvs]; subst. rewrite !flagged_cons.
    rewrite lookup_app_l by exact Hl. rewrite (IHvs Hvs). reflexivity. }
  assert (VC : forall (k : string) (v : loc) m,
                 JsMap.values ((k, v) :: m) = v :: JsMap.values m)
    by reflexivity.
  assert (New : (h ++ [r]) !! length h = Some r)
    by (apply list_lookup_middle; reflexivity).
  induction m as [| [k v] m IH].
  - cbn [JsMap.set]. rewrite VC, flagged_cons, New.
    destruct (ShortenedURL.isActive r); cbn; lia.
  - rewrite VC in Hv. inversion Hv as [| ? ? Hl Hm]; subst.
    cbn [JsMap.set]. destruct (String.eqb id k).
    + rewrite !VC, !flagged_cons, (Old _ Hm), New.
      destruct (ShortenedURL.isActive r);
        (destruct (h !! v) as [u |];
         [destruct (ShortenedURL.isActive u) |]); lia.
    + rewrite !VC, !flagged_cons. rewrite lookup_app_l by exact Hl.
      specialize (IH Hm).
      destruct (h !! v) as [u |]; [destruct (ShortenedURL.isActive u) |];
        lia.
Qed.

Lemma flagged_delete (h : list ShortenedURL.t) (id : string)
    (m : list (string * loc)) :
  (flagged h (JsMap.values (JsMap.delete id m))
   <= flagged h (JsMap.values m))%nat.
Proof.
  assert (VC : forall (k : string) (v : loc) m,
                 JsMap.values ((k, v) :: m) = v :: JsMap.values m)
    by reflexivity.
  induction m as [| [k v] m IH]; [reflexivity |].
  cbn [JsMap.delete]. destruct (String.eqb id k);
    rewrite !VC, !flagged_cons;
    (destruct (h !! v) as [u |]; [destruct (ShortenedURL.isActive u) |]);
    lia.
Qed.

Lemma live_le_active (w : World) (now : Z) :
  (Spec.live_count w now <= Spec.active_count w)%nat.
Proof.
  unfold Spec.live_count, Spec.active_count.
  induction (url_values w) as [| u us IH]; [reflexivity |].
  cbn [List.filter]. unfold Spec.live at 1.
  destruct (ShortenedURL.isActive u); cbn [andb];
    [destruct (negb _) |]; cbn [length]; lia.
Qed.

(** Registering a new object under an id and a code, as [shortenUrl] and
    [loadFromStorage] do. *)
Section Registered.

Variables (w w' : World) (r : ShortenedURL.t) (id code : string).
Hypothesis Hheap : heap w' = heap w ++ [r].
Hypothesis Hurls : urls w' = JsMap.set id (length (heap w)) (urls w).
Hypothesis Hcodes : shortCodeToId w' = <[code := id]> (shortCodeToId w).
Hypothesis Hid : ShortenedURL.id r = id.
Hypothesis Htruthy : Str.truthy id = true.

Lemma registered_refs_valid : Spec.refs_valid w -> Spec.refs_valid w'.
Proof.
  unfold Spec.refs_valid. intros Hv.
  rewrite Hheap, Hurls, length_app. cbn [length].
  apply List.Forall_forall. intros l Hl.
  apply JsMapFacts.In_values_set in Hl as [-> | Hl]; [lia |].
  rewrite List.Forall_forall in Hv. specialize (Hv l Hl). lia.
Qed.

Lemma registered_ids_truthy : Spec.ids_truthy w -> Spec.ids_truthy w'.
Proof.
  unfold Spec.ids_truthy. intros Hv c i Hi. rewrite Hcodes in Hi.
  apply lookup_insert_Some in Hi as [[_ <-] | [_ Hi]];
    [exact Htruthy | eapply Hv, Hi].
Qed.

Lemma registered_record_ids :
  Spec.refs_valid w -> Spec.record_ids_truthy w -> Spec.record_ids_truthy w'.
Proof.
  unfold Spec.refs_valid, Spec.record_ids_truthy. intros Hv Hr l u Hl Hu.
  rewrite Hurls in Hl. rewrite Hheap in Hu.
  apply JsMapFacts.In_values_set in Hl as [-> | Hl].
  - rewrite list_lookup_middle in Hu by reflexivity. injection Hu as <-.
    rewrite Hid. exact Htruthy.
  - rewrite List.Forall_forall in Hv.
    rewrite lookup_app_l in Hu by (apply Hv, Hl). eapply Hr; eauto.
Qed.

Lemma registered_active_count :
  Spec.refs_valid w ->
  (Spec.active_count w'
   <= Spec.active_count w + (if ShortenedURL.isActive r then 1 else 0))%nat.
Proof.
  intros Hv. rewrite !active_count_flagged, Hheap, Hurls.
  apply flagged_set, Hv.
Qed.

End Registered.

(** What was saved is sound when the registry is. *)
Lemma saved_ok (w : World) :
  Spec.record_ids_truthy w ->
  (Spec.active_count w <= 5)%nat ->
  ls_urls w = Some (url_values w) ->
  Spec.stored_ok w.
Proof.
  intros Hr Hc Hs. unfold Spec.stored_ok. rewrite Hs. split; [| exact Hc].
  apply List.Forall_forall. intros u Hu. unfold url_values in Hu.
  apply list_elem_of_In, list_elem_of_omap in Hu as (l & Hl & Hlu).
  apply list_elem_of_In in Hl. eapply Hr; eauto.
Qed.

Lemma stored_ok_kept (w w' : World) :
  Spec.record_ids_truthy w' ->
  (Spec.active_count w' <= 5)%nat ->
  ls_urls w' = ls_urls w \/ ls_urls w' = Some (url_values w') ->
  Spec.stored_ok w -> Spec.stored_ok w'.
Proof.
  intros Hr Hc [E | E] Hs; [| apply saved_ok; assumption].
  unfold Spec.stored_ok in *. rewrite E. exact Hs.
Qed.

(** [loadFromStorage], record by record. *)
Lemma load_each_run (us : list ShortenedURL.t) :
  forall w, load_each us w = (Ok tt, foldl Spec.load_one w us).
Proof.
  induction us as [| u us IH]; intros w; [reflexivity |].
  cbn [load_each foldl]. unfold bind at 1. unfold alloc at 1.
  unfold bind at 1. unfold modify at 1. unfold bind at 1. unfold modify at 1.
  rewrite IH. reflexivity.
Qed.

Lemma load_each_invariant (us : list ShortenedURL.t) :
  Forall (fun u => Str.truthy (ShortenedURL.id u) = true) us ->
  forall w,
    Spec.refs_valid w -> Spec.ids_truthy w -> Spec.record_ids_truthy w ->
    Spec.refs_valid (foldl Spec.load_one w us) /\
    Spec.ids_truthy (foldl Spec.load_one w us) /\
    Spec.record_ids_truthy (foldl Spec.load_one w us) /\
    (Spec.active_count (foldl Spec.load_one w us)
     <= Spec.active_count w
        + length (List.filter ShortenedURL.isActive us))%nat.
Proof.
  induction 1 as [| u us Hu _ IH]; intros w R I K.
  - cbn. repeat split; try assumption. lia.
  - cbn [foldl].
    assert (R1 : Spec.refs_valid (Spec.load_one w u))
      by (eapply registered_refs_valid; [reflexivity .. | exact R]).
    assert (I1 : Spec.ids_truthy (Spec.load_one w u))
      by (eapply registered_ids_truthy; [reflexivity | exact Hu | exact I]).
    assert (K1 : Spec.record_ids_truthy (Spec.load_one w u))
      by (eapply registered_record_ids;
          [reflexivity | reflexivity | reflexivity | exact Hu | exact R
           | exact K]).
    assert (C1 : (Spec.active_count (Spec.load_one w u)
                  <= Spec.active_count w
                     + (if ShortenedURL.isActive u then 1 else 0))%nat)
      by (eapply registered_active_count; [reflexivity .. | exact R]).
    destruct (IH _ R1 I1 K1) as (R2 & I2 & K2 & C2).
    repeat split; try assumption.
    cbn [List.filter]. destruct (ShortenedURL.isActive u); cbn [length]; lia.
Qed.

Lemma load_one_store (us : list ShortenedURL.t) :
  forall w, ls_urls (foldl Spec.load_one w us) = ls_urls w.
Proof.
  induction us as [| u us IH]; intros w; [reflexivity |].
  cbn [foldl]. rewrite IH. reflexivity.
Qed.

Lemma reload_run (w : World) :
  Spec.reload w
  = match ls_urls w with
    | Some us =>
        snd (Logger.info "URLS_LOADED_FROM_STORAGE"
               (foldl Spec.load_one (Spec.new_page w) us))
    | None => Spec.new_page w
    end.
Proof.
  unfold Spec.reload, constructor, loadFromStorage.
  unfold bind at 1. unfold gets at 1.
  change (ls_urls (Spec.new_page w)) with (ls_urls w).
  destruct (ls_urls w) as [us |]; [| reflexivity].
  unfold bind at 1. rewrite load_each_run. reflexivity.
Qed.

Lemma invariant_reload (w : World) :
  Spec.stored_ok w -> Spec.invariant (Spec.reload w).
Proof.
  intros Hs. rewrite reload_run.
  assert (R0 : Spec.refs_valid (Spec.new_page w)) by constructor.
  assert (I0 : Spec.ids_truthy (Spec.new_page w))
    by (intros c i Hi; discriminate Hi).
  assert (K0 : Spec.record_ids_truthy (Spec.new_page w))
    by (intros l u []).
  unfold Spec.stored_ok in Hs.
  destruct (ls_urls w) as [us |] eqn:E.
  - destruct Hs as [Ht Hc].
    destruct (load_each_invariant us Ht _ R0 I0 K0) as (R & I & K & C).
    change (Spec.active_count (Spec.new_page w)) with 0%nat in C.
    repeat split; try assumption.
    + change (Spec.active_count
                (snd (Logger.info "URLS_LOADED_FROM_STORAGE"
                        (foldl Spec.load_one (Spec.new_page w) us))))
        with (Spec.active_count (foldl Spec.load_one (Spec.new_page w) us)).
      lia.
    + unfold Spec.stored_ok.
      change (ls_urls (snd (Logger.info "URLS_LOADED_FROM_STORAGE"
                              (foldl Spec.load_one (Spec.new_page w) us))))
        with (ls_urls (foldl Spec.load_one (Spec.new_page w) us)).
      rewrite load_one_store.
      change (ls_urls (Spec.new_page w)) with (ls_urls w). rewrite E. auto.
  - repeat split; try assumption.
    + cbn. lia.
    + unfold Spec.stored_ok.
      change (ls_urls (Spec.new_page w)) with (ls_urls w). rewrite E. exact I.
Qed.

Lemma invariant_run (w : World) (o : Spec.op) :
  Spec.invariant w -> Spec.invariant (Spec.run w o).
Proof.
  intros (R & I & K & C & S). destruct o as
    [u c e env | code now | code ua rf env | | id | now |]; cbn [Spec.run].
  - destruct (shortenUrl_cases u c e env w)
      as [[_ ->] | [(_ & _ & ->) |
                    (_ & L & r & w' & -> & Hh & Hu & Hc & Hi & _ & Hs)]];
      [repeat split; assumption | repeat split; assumption |].
    cbn [snd].
    assert (R' : Spec.refs_valid w')
      by (eapply registered_refs_valid; eauto).
    assert (K' : Spec.record_ids_truthy w')
      by (eapply registered_record_ids; eauto using new_id_truthy).
    assert (C' : (Spec.active_count w' <= 5)%nat).
    { pose proof (registered_active_count w w' r _ Hh Hu R).
      destruct (ShortenedURL.isActive r); lia. }
    repeat split; try assumption.
    + eapply registered_ids_truthy; eauto using new_id_truthy.
    + apply saved_ok; assumption.
  - repeat split; assumption.
  - destruct (getUrlByShortCode w code (c_lookupDate env)) as [l |] eqn:G;
      [| rewrite recordClick_absent by exact G; repeat split; assumption].
    destruct (getUrl_Some_inv _ _ _ _ G) as (i & x & _ & _ & _ & Hx & _).
    destruct (recordClick_present code ua rf env w l x G Hx)
      as (ev & w' & -> & _ & Hh & _ & Hu & Hc & Hs & _).
    cbn [snd].
    assert (K' : Spec.record_ids_truthy w').
    { intros l0 u0 Hl0 Hu0. rewrite Hu in Hl0. rewrite Hh in Hu0.
      destruct (decide (l = l0)) as [<- | Hne].
      - rewrite list_lookup_insert_eq in Hu0
          by (eapply lookup_lt_Some; eauto).
        injection Hu0 as <-. apply (K l x Hl0 Hx).
      - rewrite list_lookup_insert_ne in Hu0 by exact Hne. eauto. }
    assert (C' : (Spec.active_count w' <= 5)%nat).
    { rewrite active_count_flagged in *. rewrite Hh, Hu.
      etransitivity; [| exact C]. apply flagged_mono.
      intros l0 u' _ Hl0 A.
      destruct (decide (l = l0)) as [<- | Hne].
      - rewrite list_lookup_insert_eq in Hl0
          by (eapply lookup_lt_Some; eauto).
        injection Hl0 as <-. exists x. split; [exact Hx | exact A].
      - rewrite list_lookup_insert_ne in Hl0 by exact Hne. eauto. }
    repeat split; try assumption.
    + unfold Spec.refs_valid. rewrite Hh, Hu, length_insert. exact R.
    + unfold Spec.ids_truthy. rewrite Hc. exact I.
    + apply saved_ok; assumption.
  - rewrite getAllUrls_run. repeat split; assumption.
  - destruct (JsMap.get id (urls w)) as [l |] eqn:G;
      [| rewrite deleteUrl_absent by exact G; repeat split; assumption].
    destruct (deleteUrl_present id w l G) as (w' & -> & Hh & _ & Hu & Hc & Hs).
    cbn [snd].
    assert (K' : Spec.record_ids_truthy w').
    { intros l0 u0 Hl0 Hu0. rewrite Hu in Hl0. rewrite Hh in Hu0.
      eapply K; [eapply JsMapFacts.In_values_delete, Hl0 | exact Hu0]. }
    assert (C' : (Spec.active_count w' <= 5)%nat).
    { rewrite active_count_flagged in *. rewrite Hh, Hu.
      etransitivity; [apply flagged_delete | exact C]. }
    repeat split; try assumption.
    + unfold Spec.refs_valid. rewrite Hh, Hu.
      apply List.Forall_forall. intros l' Hl.
      unfold Spec.refs_valid in R. rewrite List.Forall_forall in R.
      apply R, (JsMapFacts.In_values_delete _ _ _ Hl).
    + unfold Spec.ids_truthy. rewrite Hc. intros code i Hi.
      apply lookup_delete_Some in Hi as [_ Hi]. eapply I, Hi.
    + apply saved_ok; assumption.
  - destruct (cleanupExpiredUrls_run now w)
      as (w' & -> & Hh & _ & Hu & Hc & Hs).
    cbn [snd].
    assert (K' : Spec.record_ids_truthy w').
    { intros l0 u0 Hl0 Hu0. rewrite Hu in Hl0.
      rewrite Hh, sweep_lookup in Hu0.
      destruct (heap w !! l0) as [x |] eqn:Hx; [| discriminate].
      injection Hu0 as <-. specialize (K l0 x Hl0 Hx).
      destruct (bool_decide _); [| exact K].
      unfold Spec.swept. destruct (_ && _); exact K. }
    assert (C' : (Spec.active_count w' <= 5)%nat).
    { rewrite active_count_flagged in *. rewrite Hh, Hu.
      etransitivity; [| exact C]. apply flagged_mono.
      intros l0 u' _ Hl0 A. rewrite sweep_lookup in Hl0.
      destruct (heap w !! l0) as [x |]; [| discriminate].
      injection Hl0 as <-. exists x. split; [reflexivity |].
      destruct (bool_decide _); [| exact A].
      unfold Spec.swept in A. destruct (_ && _); [discriminate | exact A]. }
    repeat split; try assumption.
    + unfold Spec.refs_valid. rewrite Hh, Hu, sweep_length. exact R.
    + unfold Spec.ids_truthy. rewrite Hc. exact I.
    + eapply stored_ok_kept; eauto.
  - apply invariant_reload, S.
Qed.

Lemma invariant_run_all (ops : list Spec.op) :
  forall w, Spec.invariant w -> Spec.invariant (Spec.run_all w ops).
Proof.
  induction ops as [| o ops IH]; intros w H; [exact H |].
  cbn [Spec.run_all foldl]. apply IH, invariant_run, H.
Qed.

Lemma invariant_initial : Spec.invariant Spec.initial.
Proof. apply invariant_reload. exact I. Qed.

(** The sample worlds are states of the registry. *)
Lemma w_abc_reached :
  Sample.w_abc
  = Spec.run_all Spec.initial
      [Spec.Shorten "https://x.com" (Some "abc") (Some 30)
         (Sample.env_at Sample.t0 "k3j9x2m1q")].
Proof. reflexivity. Qed.

Lemma w_abc_ids_truthy : Spec.ids_truthy Sample.w_abc.
Proof.
  rewrite w_abc_reached. apply (invariant_run_all _ _ invariant_initial).
Qed.

(** *** C3 *)

(** C3: for every short code, every instant and every registry state
    (ids being truthy strings, as those that [shortenUrl] builds),
    [getUrlByShortCode] returns null exactly when the code maps to no
    record, or the record it maps to has [isActive] false, or that
    record's [expiresAt] is before the instant of the call; otherwise it
    returns the record that the code maps to. The sweep plays no part:
    a record that is still flagged active is refused once its deadline
    has passed. *)
Theorem lookup_absent_iff (w : World) (shortCode : string) (now : Z) :
  Spec.ids_truthy w ->
  (getUrlByShortCode w shortCode now = None <->
   Spec.mapped_record w shortCode = None \/
   (exists u, Spec.mapped_record w shortCode = Some u /\
              ShortenedURL.isActive u = false) \/
   (exists u, Spec.mapped_record w shortCode = Some u /\
              ShortenedURL.expiresAt u < now)) /\
  (forall u,
     Spec.mapped_record w shortCode = Some u ->
     ShortenedURL.isActive u = true ->
     now <= ShortenedURL.expiresAt u ->
     exists l, getUrlByShortCode w shortCode now = Some l /\
               Spec.mapped w shortCode = Some l /\
               heap w !! l = Some u).
Proof.
  intros Hid. unfold getUrlByShortCode, Spec.mapped_record, Spec.mapped.
  destruct (shortCodeToId w !! shortCode) as [id |] eqn:I.
  - rewrite (Hid _ _ I). cbn [negb].
    destruct (JsMap.get id (urls w)) as [l |] eqn:G.
    + destruct (heap w !! l) as [u |] eqn:Hu.
      * destruct (ShortenedURL.isActive u) eqn:A; cbn [negb orb].
        -- destruct (ShortenedURL.expiresAt u <? now) eqn:X.
           ++ apply Z.ltb_lt in X. split.
              ** split; [intros _ | reflexivity]. right. right. eauto.
              ** intros u' [= <-] _ ?. lia.
           ++ apply Z.ltb_ge in X. split.
              ** split; [discriminate |].
                 intros [? | [(u' & [= <-] & ?) | (u' & [= <-] & ?)]];
                   [discriminate | congruence | lia].
              ** intros u' [= <-] _ _. exists l. auto.
        -- split.
           ++ split; [intros _ | reflexivity]. right. left. eauto.
           ++ intros u' [= <-] ?. congruence.
      * split; [tauto | discriminate].
    + split; [tauto | discriminate].
  - split; [tauto | discriminate].
Qed.

(** On the sample registry: the code that is registered is found up to
    its deadline and refused after it, sweep or no sweep; a code that is
    not registered is not found. *)
Lemma lookup_absent_iff_abc :
  getUrlByShortCode Sample.w_abc "abc" (Sample.t0 + 30 * 60 * 1000)
  = Some 0%nat /\
  getUrlByShortCode Sample.w_abc "abc" (Sample.t0 + 30 * 60 * 1000 + 1)
  = None /\
  getUrlByShortCode Sample.w_abc "abd" Sample.t0 = None.
Proof.
  pose proof (lookup_absent_iff Sample.w_abc "abc"
                (Sample.t0 + 30 * 60 * 1000) w_abc_ids_truthy) as [_ H1].
  pose proof (lookup_absent_iff Sample.w_abc "abc"
                (Sample.t0 + 30 * 60 * 1000 + 1) w_abc_ids_truthy)
    as [H2 _].
  pose proof (lookup_absent_iff Sample.w_abc "abd" Sample.t0
                w_abc_ids_truthy) as [H3 _].
  split; [| split].
  - destruct (H1 (ShortenedURL.mk
                    "url_1700000000000_k3j9x2m1q" "https://x.com" "abc"
                    "http://localhost:5173/abc" Sample.t0
                    (Sample.t0 + 30 * 60 * 1000) true 0 []))
      as (l & Hl & Hm & _).
    + vm_compute. reflexivity.
    + reflexivity.
    + cbn [ShortenedURL.expiresAt]. lia.
    + rewrite Hl. vm_compute in Hm. symmetry. exact Hm.
  - apply H2. right. right. eexists. split.
    + vm_compute. reflexivity.
    + vm_compute. reflexivity.
  - apply H3. left. vm_compute. reflexivity.
Defined.

(** *** C5 *)

(** C5: [recordClick] on a code whose lookup fails returns false and
    leaves the whole state as it was (log and store included); on a code
    whose lookup succeeds it returns true, and the record found has its
    [clickCount] increased by one and one [ClickEvent] appended to its
    [clicks], with the masked address, the fixed location, the instant of
    the call, and the user agent and referrer given; the other fields of
    the record, every other record and both indexes are unchanged. *)
Theorem recordClick_spec (shortCode userAgent referrer : string)
    (env : ClickEnv) (w : World) :
  (getUrlByShortCode w shortCode (c_lookupDate env) = None ->
   recordClick shortCode userAgent referrer env w = (Ok false, w)) /\
  (forall l,
     getUrlByShortCode w shortCode (c_lookupDate env) = Some l ->
     exists u u' ev w',
       recordClick shortCode userAgent referrer env w = (Ok true, w') /\
       heap w !! l = Some u /\
       heap w' !! l = Some u' /\
       ShortenedURL.clickCount u' = ShortenedURL.clickCount u + 1 /\
       ShortenedURL.clicks u' = ShortenedURL.clicks u ++ [ev] /\
       ClickEvent.ipAddress ev = "xxx.xxx.xxx.xxx" /\
       ClickEvent.location ev = "Hyderabad/Secunderabad" /\
       ClickEvent.timestamp ev = c_newDate env /\
       ClickEvent.userAgent ev = userAgent /\
       ClickEvent.referrer ev = referrer /\
       ShortenedURL.set_clickCount (ShortenedURL.clickCount u)
         (ShortenedURL.set_clicks (ShortenedURL.clicks u) u') = u /\
       (forall l', l' <> l -> heap w' !! l' = heap w !! l') /\
       urls w' = urls w /\
       shortCodeToId w' = shortCodeToId w).
Proof.
  split; [apply recordClick_absent |].
  intros l G.
  destruct (getUrl_Some_inv _ _ _ _ G) as (i & u & _ & _ & _ & Hu & _).
  destruct (recordClick_present shortCode userAgent referrer env w l u G Hu)
    as (ev & w' & Run & -> & Hh & _ & Hm & Hc & _).
  eexists u, _, _, w'. split; [exact Run |]. split; [exact Hu |].
  split; [rewrite Hh; apply list_lookup_insert_eq;
          eapply lookup_lt_Some; eauto |].
  repeat split; try assumption.
  - destruct u. reflexivity.
  - intros l' Hne. rewrite Hh. apply list_lookup_insert_ne. congruence.
Qed.

(** Scenario D: an unknown code, then two clicks on a known one. *)
Lemma recordClick_spec_abc :
  recordClick "nope" "Mozilla/5.0" "https://ref.example"
    (Sample.click_env_at (Sample.t0 + 1) "a1b2c3d4e") Sample.w_abc
  = (Ok false, Sample.w_abc) /\
  exists w1 w2,
    recordClick "abc" "Mozilla/5.0" "https://ref.example"
      (Sample.click_env_at (Sample.t0 + 1) "a1b2c3d4e") Sample.w_abc
    = (Ok true, w1) /\
    recordClick "abc" "Mozilla/5.0" "https://ref.example"
      (Sample.click_env_at (Sample.t0 + 2) "f5g6h7i8j") w1
    = (Ok true, w2) /\
    ShortenedURL.clickCount <$> heap w1 !! 0%nat = Some 1 /\
    ShortenedURL.clickCount <$> heap w2 !! 0%nat = Some 2 /\
    (fun u => length (ShortenedURL.clicks u)) <$> heap w2 !! 0%nat
    = Some 2%nat.
Proof.
  split.
  - apply (recordClick_spec "nope" "Mozilla/5.0" "https://ref.example"
             (Sample.click_env_at (Sample.t0 + 1) "a1b2c3d4e") Sample.w_abc).
    vm_compute. reflexivity.
  - eexists _, _. split; [vm_compute; reflexivity |].
    split; [vm_compute; reflexivity |].
    repeat split; vm_compute; reflexivity.
Defined.

(** *** C6 *)

Lemma sweep_nothing (now : Z) (entries : list (string * loc))
    (h : list ShortenedURL.t) (n : nat) :
  (forall l u, In l (JsMap.values entries) -> h !! l = Some u ->
               ShortenedURL.isActive u && (ShortenedURL.expiresAt u <? now)
               = false) ->
  foldl (cleanup_step now) (h, n) entries = (h, n).
Proof.
  induction entries as [| [k v] entries IH]; intros H; [reflexivity |].
  cbn [foldl]. unfold cleanup_step at 2. cbn [fst snd].
  destruct (h !! v) as [u |] eqn:Hv.
  - rewrite andb_comm, (H v u (or_introl eq_refl) Hv).
    apply IH. intros l u' Hl. apply H. right. exact Hl.
  - apply IH. intros l u' Hl. apply H. right. exact Hl.
Qed.

Lemma getAllUrls_contents (w : World) :
  exists a w' xs,
    getAllUrls w = (Ok a, w') /\
    arrays w' !! a = Some xs /\
    xs = sort (fun a b => createdAt_of w b - createdAt_of w a)
              (JsMap.values (urls w)) /\
    Permutation xs (JsMap.values (urls w)) /\
    Spec.registry_of w' = Spec.registry_of w.
Proof.
  eexists _, _, _. split; [apply getAllUrls_run |].
  split; [cbn [arrays set_arrays]; apply list_lookup_middle; reflexivity |].
  split; [reflexivity |]. split; [| reflexivity].
  apply (SortFacts.sort_perm (createdAt_of w)).
Qed.

(** C6: one tick of the sweep returns with both indexes as they were and
    no record removed; every record of the registry that is flagged
    active and whose [expiresAt] is before the tick has its flag set to
    false, and every other record, and every other field, is unchanged;
    a tick that finds no such record changes nothing at all. A record that
    the tick deactivated is afterwards refused by [getUrlByShortCode], at
    any instant, and is still in the array of [getAllUrls], with
    [isActive] false. *)
Theorem sweep_spec (now : Z) (w : World) :
  exists w',
    cleanupExpiredUrls now w = (Ok tt, w') /\
    urls w' = urls w /\
    shortCodeToId w' = shortCodeToId w /\
    length (heap w') = length (heap w) /\
    (forall l u,
       heap w !! l = Some u ->
       heap w' !! l
       = Some (if bool_decide (l ∈ JsMap.values (urls w))
                  && ShortenedURL.isActive u
                  && (ShortenedURL.expiresAt u <? now)
               then ShortenedURL.set_isActive false u else u)) /\
    ((forall l u, In l (JsMap.values (urls w)) -> heap w !! l = Some u ->
                  ShortenedURL.isActive u && (ShortenedURL.expiresAt u <? now)
                  = false) ->
     w' = w) /\
    (forall shortCode l u,
       Spec.mapped w shortCode = Some l ->
       heap w !! l = Some u ->
       ShortenedURL.isActive u = true ->
       ShortenedURL.expiresAt u < now ->
       (forall t, getUrlByShortCode w' shortCode t = None) /\
       exists a w'' xs,
         getAllUrls w' = (Ok a, w'') /\
         arrays w'' !! a = Some xs /\
         In l xs /\
         heap w'' !! l = Some (ShortenedURL.set_isActive false u)).
Proof.
  destruct (cleanupExpiredUrls_run now w)
    as (w' & Run & Hh & _ & Hu & Hc & _).
  exists w'. split; [exact Run |]. split; [exact Hu |]. split; [exact Hc |].
  split; [rewrite Hh; apply sweep_length |].
  assert (Rec : forall l u,
    heap w !! l = Some u ->
    heap w' !! l
    = Some (if bool_decide (l ∈ JsMap.values (urls w))
               && ShortenedURL.isActive u
               && (ShortenedURL.expiresAt u <? now)
            then ShortenedURL.set_isActive false u else u)).
  { intros l u Hl. rewrite Hh, sweep_lookup, Hl.
    cbn [fmap option_fmap option_map]. f_equal. unfold Spec.swept.
    destruct (bool_decide _); cbn [andb]; [| reflexivity].
    rewrite andb_comm. reflexivity. }
  split; [exact Rec |].
  split.
  { intros Hnone. unfold cleanupExpiredUrls in Run.
    unfold bind at 1 in Run. unfold gets at 1 in Run.
    rewrite (sweep_nothing now (urls w) (heap w) 0 Hnone) in Run.
    injection Run as <-. destruct w. reflexivity. }
  intros shortCode l u Hm Hl Ha Hx.
  assert (Hin : In l (JsMap.values (urls w))).
  { unfold Spec.mapped in Hm.
    destruct (shortCodeToId w !! shortCode); [| discriminate].
    eapply JsMapFacts.get_In_values, Hm. }
  assert (Hl' : heap w' !! l = Some (ShortenedURL.set_isActive false u)).
  { rewrite (Rec l u Hl), Ha.
    rewrite bool_decide_eq_true_2 by (apply list_elem_of_In; exact Hin).
    apply Z.ltb_lt in Hx. rewrite Hx. reflexivity. }
  split.
  - intros t. unfold getUrlByShortCode. rewrite Hc, Hu.
    unfold Spec.mapped in Hm.
    destruct (shortCodeToId w !! shortCode) as [id |]; [| reflexivity].
    destruct (negb (Str.truthy id)); [reflexivity |].
    rewrite Hm, Hl'. reflexivity.
  - destruct (getAllUrls_contents w') as (a & w'' & xs & R & Ha' & _ & P & F).
    exists a, w'', xs. split; [exact R |]. split; [exact Ha' |]. split.
    + eapply Permutation_in; [symmetry; exact P |]. rewrite Hu. exact Hin.
    + injection F as -> _. exact Hl'.
Qed.

(** Scenario A, second half: the record of one minute, swept 61 seconds
    after its creation. *)
Lemma sweep_spec_generated :
  exists w',
    cleanupExpiredUrls (Sample.t0 + 61000) Sample.w_gen = (Ok tt, w') /\
    getUrlByShortCode w' "dkryFM" (Sample.t0 + 61000) = None /\
    exists a w'' xs,
      getAllUrls w' = (Ok a, w'') /\
      arrays w'' !! a = Some xs /\
      In 0%nat xs /\
      ShortenedURL.isActive <$> heap w'' !! 0%nat = Some false.
Proof.
  destruct (sweep_spec (Sample.t0 + 61000) Sample.w_gen)
    as (w' & Run & _ & _ & _ & _ & _ & H).
  destruct (H "dkryFM" 0%nat
              (ShortenedURL.mk "url_1700000000000_k3j9x2m1q"
                 "https://example.com/a" "dkryFM"
                 "http://localhost:5173/dkryFM" Sample.t0
                 (Sample.t0 + 1 * 60 * 1000) true 0 []))
    as (Habs & a & w'' & xs & R & Ha & Hin & Hl).
  - vm_compute. reflexivity.
  - vm_compute. reflexivity.
  - reflexivity.
  - cbn [ShortenedURL.expiresAt]. unfold Sample.t0. lia.
  - exists w'. split; [exact Run |]. split; [apply Habs |].
    exists a, w'', xs. repeat split; try assumption.
    rewrite Hl. reflexivity.
Defined.

(** *** C9 *)

Section IgnoresArrays.

Import Spec (ignores_arrays).

Lemma ignores_ret {A : Type} (x : A) : ignores_arrays (ret x).
Proof. intros a w. reflexivity. Qed.

Lemma ignores_throw {A : Type} (e : string) :
  ignores_arrays (@throw A e).
Proof. intros a w. reflexivity. Qed.

Lemma ignores_gets {A : Type} (f : World -> A) :
  (forall a w, f (set_arrays a w) = f w) -> ignores_arrays (gets f).
Proof. intros H a w. unfold gets. rewrite H. reflexivity. Qed.

Lemma ignores_modify (f : World -> World) :
  (forall a w, f (set_arrays a w) = set_arrays a (f w)) ->
  ignores_arrays (modify f).
Proof. intros H a w. unfold modify. rewrite H. reflexivity. Qed.

Lemma ignores_bind {A B : Type} (m : M A) (k : A -> M B) :
  ignores_arrays m -> (forall x, ignores_arrays (k x)) ->
  ignores_arrays (bind m k).
Proof.
  intros Hm Hk a w. unfold bind. rewrite Hm.
  destruct (m w) as [[x | e] w']; cbn [fst snd]; [apply Hk | reflexivity].
Qed.

Lemma ignores_alloc (u : ShortenedURL.t) : ignores_arrays (alloc u).
Proof. intros a w. reflexivity. Qed.

Lemma ignores_update (l : loc) (f : ShortenedURL.t -> ShortenedURL.t) :
  ignores_arrays (update l f).
Proof.
  apply ignores_modify. intros a w. cbn [heap set_arrays].
  destruct (heap w !! l); reflexivity.
Qed.

Lemma ignores_log (level : LogEvent.level_t) (action : string) :
  ignores_arrays (Logger.log level action).
Proof. intros a w. reflexivity. Qed.

Lemma ignores_saveToStorage : ignores_arrays saveToStorage.
Proof. intros a w. reflexivity. Qed.

Lemma ignores_shortenUrl (u : string) (c : option string)
    (e : option Z) (env : ShortenEnv) :
  ignores_arrays (shortenUrl u c e env).
Proof.
  unfold shortenUrl. cbv zeta.
  apply ignores_bind; [apply ignores_gets; reflexivity |].
  intros [|]; [apply ignores_throw |].
  apply ignores_bind; [apply ignores_gets; reflexivity |].
  intros active. destruct (5 <=? length active)%nat.
  - apply ignores_bind; [apply ignores_log |]. intros _.
    apply ignores_throw.
  - apply ignores_bind; [apply ignores_alloc |]. intros l.
    apply ignores_bind; [apply ignores_modify; reflexivity |]. intros _.
    apply ignores_bind; [apply ignores_modify; reflexivity |]. intros _.
    apply ignores_bind; [apply ignores_saveToStorage |]. intros _.
    apply ignores_bind; [apply ignores_log |]. intros _.
    apply ignores_ret.
Qed.

Lemma ignores_recordClick (c ua rf : string) (env : ClickEnv) :
  ignores_arrays (recordClick c ua rf env).
Proof.
  unfold recordClick.
  apply ignores_bind; [apply ignores_gets; reflexivity |].
  intros [l |]; [| apply ignores_ret].
  apply ignores_bind; [apply ignores_update |]. intros _.
  apply ignores_bind; [apply ignores_update |]. intros _.
  apply ignores_bind; [apply ignores_saveToStorage |]. intros _.
  apply ignores_bind; [apply ignores_log |]. intros _.
  apply ignores_ret.
Qed.

Lemma ignores_deleteUrl (id : string) : ignores_arrays (deleteUrl id).
Proof.
  unfold deleteUrl.
  apply ignores_bind; [apply ignores_gets; reflexivity |].
  intros [l |]; [| apply ignores_ret].
  apply ignores_bind; [apply ignores_gets; reflexivity |]. intros code.
  apply ignores_bind; [apply ignores_modify; reflexivity |]. intros _.
  apply ignores_bind; [apply ignores_modify; reflexivity |]. intros _.
  apply ignores_bind; [apply ignores_saveToStorage |]. intros _.
  apply ignores_bind; [apply ignores_log |]. intros _.
  apply ignores_ret.
Qed.

Lemma ignores_cleanupExpiredUrls (now : Z) :
  ignores_arrays (cleanupExpiredUrls now).
Proof.
  unfold cleanupExpiredUrls.
  apply ignores_bind; [apply ignores_gets; reflexivity |]. intros swept.
  apply ignores_bind; [apply ignores_modify; reflexivity |]. intros _.
  destruct (0 <? swept.2)%nat; [| apply ignores_ret].
  apply ignores_bind; [apply ignores_saveToStorage |]. intros _.
  apply ignores_log.
Qed.

End IgnoresArrays.

(** No operation reads the arrays that were handed out. *)
Lemma run_set_arrays (o : Spec.op) (a : list (list loc)) (w : World) :
  Spec.registry_of (Spec.run (set_arrays a w) o)
  = Spec.registry_of (Spec.run w o) /\
  Spec.answer_of (set_arrays a w) o = Spec.answer_of w o.
Proof.
  destruct o as [u c e env | code now | code ua rf env | | id | now |];
    cbn [Spec.run Spec.answer_of].
  - rewrite ignores_shortenUrl. split; reflexivity.
  - split; reflexivity.
  - rewrite ignores_recordClick. split; reflexivity.
  - rewrite !getAllUrls_run. cbn [snd arrays set_arrays].
    rewrite !list_lookup_middle by reflexivity. split; reflexivity.
  - rewrite ignores_deleteUrl. split; reflexivity.
  - rewrite ignores_cleanupExpiredUrls. split; reflexivity.
  - split; reflexivity.
Qed.

Lemma same_registry (w1 w2 : World) :
  Spec.registry_of w1 = Spec.registry_of w2 ->
  w2 = set_arrays (arrays w2) w1.
Proof.
  destruct w1, w2. unfold Spec.registry_of. cbn.
  intros [= -> -> -> -> -> ->]. reflexivity.
Qed.

Lemma run_same_registry (o : Spec.op) (w1 w2 : World) :
  Spec.registry_of w1 = Spec.registry_of w2 ->
  Spec.registry_of (Spec.run w1 o) = Spec.registry_of (Spec.run w2 o) /\
  Spec.answer_of w1 o = Spec.answer_of w2 o.
Proof.
  intros H. rewrite (same_registry w1 w2 H).
  destruct (run_set_arrays o (arrays w2) w1) as [-> ->]. auto.
Qed.

Lemma caller_array_assign_registry (a : nat) (f : list loc -> list loc)
    (w : World) :
  Spec.registry_of (caller_array_assign a f w) = Spec.registry_of w.
Proof.
  unfold caller_array_assign. destruct (arrays w !! a); reflexivity.
Qed.

Lemma run_steps_same_registry (steps : list Spec.caller_step) :
  forall w1 w2,
    Spec.registry_of w1 = Spec.registry_of w2 ->
    Spec.registry_of (foldl Spec.run_step w1 steps)
    = Spec.registry_of (Spec.run_all w2 (Spec.calls steps)).
Proof.
  induction steps as [| [o | a f] steps IH]; intros w1 w2 H; [exact H | |].
  - cbn [foldl Spec.run_step Spec.calls omap list_omap Spec.run_all].
    apply IH, run_same_registry, H.
  - cbn [foldl Spec.run_step Spec.calls omap list_omap].
    apply IH. rewrite caller_array_assign_registry. exact H.
Qed.

(** C9 (as stated, refuted): the array of [getAllUrls] holds the
    registry's own record: once the caller has set [isActive] to false
    on the record it was given, the registry no longer finds the code. *)
Lemma getAllUrls_shares_records :
  exists a w1 xs l,
    getAllUrls Sample.w_abc = (Ok a, w1) /\
    arrays w1 !! a = Some xs /\
    In l xs /\
    getUrlByShortCode w1 "abc" Sample.t0 = Some l /\
    getUrlByShortCode
      (caller_assign l (ShortenedURL.set_isActive false) w1) "abc" Sample.t0
    = None.
Proof.
  exists 0%nat, (snd (getAllUrls Sample.w_abc)), [0%nat], 0%nat.
  repeat split; try (vm_compute; reflexivity). left. reflexivity.
Qed.

(** C9 (amended): for every registry state, [getAllUrls] returns an
    array that holds every record of the registry (active or not) once,
    newest [createdAt] first, records of one instant in the order of
    their insertion. The array is a new one and the call changes nothing
    else: whatever the caller does to arrays, at whatever point of a
    session, every operation of the session answers as it would without
    those writes and leaves the same registry. Its entries are the
    registry's own records: an assignment to a field of one of them is an
    assignment to the record that the registry holds. *)
Theorem getAllUrls_spec (w : World) :
  exists a w' xs,
    getAllUrls w = (Ok a, w') /\
    arrays w' !! a = Some xs /\
    Permutation xs (JsMap.values (urls w)) /\
    (forall id l, JsMap.get id (urls w) = Some l -> In l xs) /\
    StronglySorted (fun x y => createdAt_of w y <= createdAt_of w x) xs /\
    (forall t, List.filter (fun x => createdAt_of w x =? t) xs
               = List.filter (fun x => createdAt_of w x =? t)
                             (JsMap.values (urls w))) /\
    arrays w !! a = None /\
    Spec.registry_of w' = Spec.registry_of w /\
    (forall steps o,
       Spec.registry_of (foldl Spec.run_step w' steps)
       = Spec.registry_of (Spec.run_all w' (Spec.calls steps)) /\
       Spec.answer_of (foldl Spec.run_step w' steps) o
       = Spec.answer_of (Spec.run_all w' (Spec.calls steps)) o) /\
    (forall l f,
       In l xs ->
       heap (caller_assign l f w') !! l = f <$> heap w !! l /\
       urls (caller_assign l f w') = urls w /\
       shortCodeToId (caller_assign l f w') = shortCodeToId w).
Proof.
  destruct (getAllUrls_contents w) as (a & w' & xs & Run & Ha & Exs & P & F).
  exists a, w', xs. split; [exact Run |]. split; [exact Ha |].
  split; [exact P |].
  split.
  { intros id l G. eapply Permutation_in; [symmetry; exact P |].
    eapply JsMapFacts.get_In_values, G. }
  split; [rewrite Exs; apply (SortFacts.sort_strongly_sorted (createdAt_of w)) |].
  split; [intros t; rewrite Exs;
          apply (SortFacts.sort_stable (createdAt_of w)) |].
  split.
  { rewrite getAllUrls_run in Run. injection Run as <- _.
    apply lookup_ge_None. lia. }
  split; [exact F |].
  split.
  { intros steps o.
    pose proof (run_steps_same_registry steps w' w' eq_refl) as R.
    split; [exact R |]. apply run_same_registry, R. }
  intros l f Hin.
  assert (Hh : heap w' = heap w) by (injection F; auto).
  assert (Hu : urls w' = urls w) by (injection F; auto).
  assert (Hc : shortCodeToId w' = shortCodeToId w) by (injection F; auto).
  unfold caller_assign, update, modify. cbn [snd]. rewrite Hh.
  destruct (heap w !! l) as [u |] eqn:Hl.
  - cbn [heap set_heap urls shortCodeToId].
    rewrite list_lookup_insert_eq by (eapply lookup_lt_Some; eauto).
    rewrite Hu, Hc. auto.
  - rewrite Hh, Hl, Hu, Hc. auto.
Qed.

(** *** C2 *)

(** C2: from a registry in its invariant, and so from the empty one, no
    sequence of operations (calls of [shortenUrl] that pass the limit
    check or not, lookups, clicks, listings, deletions, ticks of the
    sweep, page loads) leads to a registry with more than five records
    flagged active, let alone flagged and not yet expired. In the state
    reached, [shortenUrl] goes through its checks in their order. A
    resolved code that is taken throws the duplicate error, whatever the
    count, with the state as it was. A resolved code that is free
    reaches the limit check, which throws the limit error whenever at
    least five records are flagged, and so whenever at least five
    records are flagged and not past their deadline at whatever instant:
    it does so before it creates anything, the heap, both indexes and
    the store being as they were and only the warning logged. A call
    that returns has found fewer than five, and leaves at most five. *)
Theorem active_cap (w0 : World) (ops : list Spec.op) :
  Spec.invariant w0 ->
  (forall now,
     (Spec.live_count (Spec.run_all w0 ops) now
      <= Spec.active_count (Spec.run_all w0 ops) <= 5)%nat) /\
  (forall originalUrl customShortCode expiryMinutes env w,
     w = Spec.run_all w0 ops ->
     (is_Some (shortCodeToId w !! Spec.resolved customShortCode env) ->
      shortenUrl originalUrl customShortCode expiryMinutes env w
      = (Throw E_duplicate, w)) /\
     (shortCodeToId w !! Spec.resolved customShortCode env = None ->
      (5 <= Spec.active_count w)%nat ->
      exists w',
        shortenUrl originalUrl customShortCode expiryMinutes env w
        = (Throw E_limit, w') /\
        heap w' = heap w /\ urls w' = urls w /\
        shortCodeToId w' = shortCodeToId w /\ ls_urls w' = ls_urls w /\
        logs w' = logs w ++ [LogEvent.mk LogEvent.WARN
                               "CONCURRENT_LIMIT_REACHED"]) /\
     (forall now,
        shortCodeToId w !! Spec.resolved customShortCode env = None ->
        (5 <= Spec.live_count w now)%nat ->
        exists w',
          shortenUrl originalUrl customShortCode expiryMinutes env w
          = (Throw E_limit, w') /\
          heap w' = heap w /\ urls w' = urls w /\
          shortCodeToId w' = shortCodeToId w /\ ls_urls w' = ls_urls w) /\
     (forall l w',
        shortenUrl originalUrl customShortCode expiryMinutes env w
        = (Ok l, w') ->
        shortCodeToId w !! Spec.resolved customShortCode env = None /\
        (Spec.active_count w < 5)%nat /\
        (forall now, (Spec.live_count w now < 5)%nat) /\
        heap w' <> heap w /\
        (Spec.active_count w' <= 5)%nat)).
Proof.
  intros Inv.
  assert (Cap : forall ops',
            (Spec.active_count (Spec.run_all w0 ops') <= 5)%nat).
  { intros ops'. apply (invariant_run_all ops' w0 Inv). }
  split.
  - intros now. split; [apply live_le_active | apply Cap].
  - intros originalUrl customShortCode expiryMinutes env w ->.
    split; [apply shortenUrl_duplicate |]. split; [| split].
    + intros Hfree Hfull. eexists. split.
      * apply shortenUrl_limit; assumption.
      * repeat split.
    + intros now Hfree Hfull. eexists. split.
      * apply shortenUrl_limit; [exact Hfree |].
        pose proof (live_le_active (Spec.run_all w0 ops) now). lia.
      * repeat split.
    + intros l w' Run.
      destruct (shortenUrl_returns _ _ _ _ _ _ _ Run) as [Hfree L].
      split; [exact Hfree |]. split; [exact L |]. split; [| split].
      * intros now.
        pose proof (live_le_active (Spec.run_all w0 ops) now). lia.
      * destruct (shortenUrl_success originalUrl customShortCode
                    expiryMinutes env _ Hfree L)
          as (r & w1 & Run1 & Hh & _).
        rewrite Run1 in Run. injection Run as _ <-. rewrite Hh.
        intros E. apply (f_equal length) in E.
        rewrite length_app in E. cbn [length] in E. lia.
      * pose proof (Cap (ops ++ [Spec.Shorten originalUrl customShortCode
                                   expiryMinutes env])) as C'.
        unfold Spec.run_all in C'. rewrite foldl_app in C'.
        cbn [foldl Spec.run] in C'. fold (Spec.run_all w0 ops) in C'.
        rewrite Run in C'. exact C'.
Qed.

(** Scenario C: five records from the empty registry; a sixth call with
    a free code, refused by the limit with nothing created; the same
    call with a code that is taken, refused as a duplicate; and the
    sixth call once one of the five is deleted. *)
Lemma active_cap_five :
  Spec.active_count Sample.w_five = 5%nat /\
  Spec.live_count Sample.w_five (Sample.t0 + 10) = 5%nat /\
  (forall now, (Spec.live_count Sample.w_five now <= 5)%nat) /\
  (exists w',
     shortenUrl "https://y.com" (Some "sixth") (Some 30)
       (Sample.env_at (Sample.t0 + 10) "z8y7x6w5v") Sample.w_five
     = (Throw E_limit, w') /\
     heap w' = heap Sample.w_five /\ urls w' = urls Sample.w_five /\
     shortCodeToId w' = shortCodeToId Sample.w_five) /\
  shortenUrl "https://y.com" (Some "abcdef") (Some 30)
    (Sample.env_at (Sample.t0 + 10) "z8y7x6w5v") Sample.w_five
  = (Throw E_duplicate, Sample.w_five) /\
  (exists l w',
     shortenUrl "https://y.com" (Some "sixth") (Some 30)
       (Sample.env_at (Sample.t0 + 10) "z8y7x6w5v")
       (Spec.run Sample.w_five (Spec.Delete "url_1700000000000_k3j9x2m1q"))
     = (Ok l, w')).
Proof.
  destruct (active_cap Spec.initial Sample.five_calls invariant_initial)
    as [Hcap Hlim].
  fold Sample.w_five in Hcap.
  assert (L5 : Spec.live_count Sample.w_five (Sample.t0 + 10) = 5%nat)
    by (vm_compute; reflexivity).
  split; [vm_compute; reflexivity |]. split; [exact L5 |].
  split; [| split; [| split]].
  - intros now. specialize (Hcap now). lia.
  - destruct (Hlim "https://y.com" (Some "sixth") (Some 30)
                (Sample.env_at (Sample.t0 + 10) "z8y7x6w5v") Sample.w_five)
      as (_ & _ & H & _); [reflexivity |].
    destruct (H (Sample.t0 + 10)) as (w' & Run & Hh & Hu & Hc & _).
    + vm_compute. reflexivity.
    + rewrite L5. lia.
    + exists w'. auto.
  - destruct (Hlim "https://y.com" (Some "abcdef") (Some 30)
                (Sample.env_at (Sample.t0 + 10) "z8y7x6w5v") Sample.w_five)
      as (H & _); [reflexivity |].
    apply H. vm_compute. eauto.
  - eexists _, _. vm_compute. reflexivity.
Defined.

End URLServiceFacts.

(** ** Keys of insertion-ordered maps *)

Module JsMapKeys.

Import JsMap.

Section Facts.
Context {V : Type}.
Implicit Types (m : list (string * V)) (k : string) (v : V).

Lemma get_Some_elem k v m : get k m = Some v -> (k, v) ∈ m.
Proof.
  induction m as [| [k' v'] m IH]; [discriminate |]. cbn [get].
  destruct (String.eqb_spec k k') as [-> | Hne].
  - intros [= ->]. left.
  - intros H. right. apply IH, H.
Qed.

Lemma get_None_keys k m : get k m = None <-> k ∉ map fst m.
Proof.
  induction m as [| [k' v'] m IH]; cbn [get map fst].
  - split; [intros _; apply not_elem_of_nil | reflexivity].
  - rewrite not_elem_of_cons.
    destruct (String.eqb_spec k k') as [-> | Hne].
    + split; [discriminate | intros [? _]; congruence].
    + rewrite IH. tauto.
Qed.

Lemma get_elem k v m : NoDup (map fst m) -> (k, v) ∈ m -> get k m = Some v.
Proof.
  induction m as [| [k' v'] m IH]; cbn [map fst get].
  - intros _ H. apply elem_of_nil in H. contradiction.
  - rewrite NoDup_cons. intros [Hk Hm] H.
    apply elem_of_cons in H as [[= <- <-] | H].
    + rewrite String.eqb_refl. reflexivity.
    + destruct (String.eqb_spec k k') as [-> | Hne]; [| apply IH; assumption].
      exfalso. apply Hk. apply (list_elem_of_fmap_2 fst _ (k', v)) in H.
      exact H.
Qed.

Lemma values_elem v m : In v (values m) <-> exists k, (k, v) ∈ m.
Proof.
  unfold values. rewrite <- list_elem_of_In, list_elem_of_fmap. split.
  - intros ([k v'] & -> & H). exists k. exact H.
  - intros (k & H). exists (k, v). auto.
Qed.

Lemma keys_set_fresh k v m :
  get k m = None -> map fst (set k v m) = map fst m ++ [k].
Proof.
  intros H. rewrite JsMapFacts.set_fresh by exact H.
  rewrite map_app. reflexivity.
Qed.

Lemma keys_delete k k' m : k' ∈ map fst (delete k m) -> k' ∈ map fst m.
Proof.
  induction m as [| [k0 v0] m IH]; [auto |]. cbn [delete].
  destruct (String.eqb k k0); cbn [map fst]; rewrite ?elem_of_cons; tauto.
Qed.

Lemma NoDup_keys_delete k m :
  NoDup (map fst m) -> NoDup (map fst (delete k m)).
Proof.
  induction m as [| [k0 v0] m IH]; [auto |]. cbn [delete map fst].
  rewrite NoDup_cons. intros [Hk Hm].
  destruct (String.eqb k k0); [auto |]. cbn [map fst].
  apply NoDup_cons. split; [| auto].
  intros H. apply Hk. eapply keys_delete, H.
Qed.

Lemma elem_delete k k' v m :
  (k', v) ∈ delete k m <-> k' <> k /\ (k', v) ∈ m.
Proof.
  induction m as [| [k0 v0] m IH]; cbn [delete].
  - split; [intros H | intros [_ H]]; apply elem_of_nil in H; contradiction.
  - destruct (String.eqb_spec k k0) as [<- | Hne].
    + rewrite IH, elem_of_cons. split; [tauto |].
      intros [Hk [[= -> ->] | H]]; [congruence | auto].
    + rewrite !elem_of_cons, IH. split.
      * intros [[= -> ->] | [? ?]]; auto.
      * intros [Hk [E | H]]; auto.
Qed.

End Facts.

End JsMapKeys.

(** ** The registry as a whole *)

Module RegistryFacts.

Import URLService URLServiceFacts.
Import Spec (flagged).

(** *** Deleting *)

Lemma flagged_delete_active (h : list ShortenedURL.t) (id : string)
    (m : list (string * loc)) (l : loc) (u : ShortenedURL.t) :
  JsMap.get id m = Some l -> h !! l = Some u ->
  ShortenedURL.isActive u = true ->
  (flagged h (JsMap.values (JsMap.delete id m))
   < flagged h (JsMap.values m))%nat.
Proof.
  intros G Hl A.
  assert (VC : forall (k : string) (v : loc) m,
                 JsMap.values ((k, v) :: m) = v :: JsMap.values m)
    by reflexivity.
  induction m as [| [k v] m IH]; [discriminate |].
  cbn [JsMap.get] in G. cbn [JsMap.delete].
  destruct (String.eqb id k).
  - injection G as ->. rewrite VC, flagged_cons, Hl, A.
    pose proof (flagged_delete h id m). lia.
  - specialize (IH G). rewrite !VC, !flagged_cons.
    destruct (h !! v) as [x |]; [destruct (ShortenedURL.isActive x) |]; lia.
Qed.

Lemma lookup_code_deleted (w : World) (code : string) (t : Z) :
  shortCodeToId w !! code = None -> getUrlByShortCode w code t = None.
Proof. intros H. unfold getUrlByShortCode. rewrite H. reflexivity. Qed.

(** X1: [deleteUrl] on an id that the registry does not hold returns
    false and leaves the whole state as it was. On an id that it holds it
    returns true: the id is no longer held and the short code of its
    record no longer leads anywhere, so that a lookup of that code
    answers null at any instant; every other id and every other short
    code is as before, what was deleted is saved to the store, and the
    record object itself is not written to. *)
Theorem deleteUrl_spec (id : string) (w : World) :
  (JsMap.get id (urls w) = None -> deleteUrl id w = (Ok false, w)) /\
  (forall l u,
     JsMap.get id (urls w) = Some l -> heap w !! l = Some u ->
     exists w',
       deleteUrl id w = (Ok true, w') /\
       JsMap.get id (urls w') = None /\
       shortCodeToId w' !! ShortenedURL.shortCode u = None /\
       (forall t, getUrlByShortCode w' (ShortenedURL.shortCode u) t = None) /\
       (forall id', id' <> id ->
                    JsMap.get id' (urls w') = JsMap.get id' (urls w)) /\
       (forall code, code <> ShortenedURL.shortCode u ->
                     shortCodeToId w' !! code = shortCodeToId w !! code) /\
       heap w' = heap w /\
       ls_urls w' = Some (url_values w')).
Proof.
  split; [apply deleteUrl_absent |].
  intros l u G Hl.
  destruct (deleteUrl_present id w l G) as (w' & Run & Hh & _ & Hu & Hc & Hs).
  rewrite Hl in Hc.
  exists w'. split; [exact Run |].
  split; [rewrite Hu; apply JsMapFacts.get_delete_eq |].
  assert (Hgone : shortCodeToId w' !! ShortenedURL.shortCode u = None)
    by (rewrite Hc; apply lookup_delete_eq).
  split; [exact Hgone |].
  split; [intros t; apply lookup_code_deleted, Hgone |].
  split; [intros id' Hne; rewrite Hu; apply JsMapFacts.get_delete_ne;
          congruence |].
  split; [intros code Hne; rewrite Hc; apply lookup_delete_ne; congruence |].
  split; assumption.
Qed.

(** Scenario: the record of the sample registry is deleted; an id that
    is not held is not. *)
Lemma deleteUrl_spec_abc :
  deleteUrl "url_0_nobody" Sample.w_abc = (Ok false, Sample.w_abc) /\
  exists w',
    deleteUrl Scenario.id_abc Sample.w_abc = (Ok true, w') /\
    getUrlByShortCode w' "abc" Sample.t0 = None.
Proof.
  destruct (deleteUrl_spec "url_0_nobody" Sample.w_abc) as [H0 _].
  destruct (deleteUrl_spec Scenario.id_abc Sample.w_abc) as [_ H1].
  split; [apply H0; vm_compute; reflexivity |].
  destruct (H1 0%nat Scenario.u_abc) as (w' & Run & _ & _ & Hl & _);
    [vm_compute; reflexivity | vm_compute; reflexivity |].
  exists w'. split; [exact Run | apply (Hl Sample.t0)].
Defined.

(** X2: deleting a record that carries the flag frees its place and its
    short code at once. In a registry with at most five flagged records,
    once such a record is deleted a call of [shortenUrl] returns, whether
    it asks for the code of the deleted record or for any code that was
    free, and the new record is registered under that code. *)
Theorem delete_then_shorten (id : string) (w : World) (l : loc)
    (u : ShortenedURL.t) (originalUrl : string)
    (customShortCode : option string) (expiryMinutes : option Z)
    (env : ShortenEnv) :
  (Spec.active_count w <= 5)%nat ->
  JsMap.get id (urls w) = Some l -> heap w !! l = Some u ->
  ShortenedURL.isActive u = true ->
  Spec.resolved customShortCode env = ShortenedURL.shortCode u \/
  shortCodeToId w !! Spec.resolved customShortCode env = None ->
  exists w1 l' w2 r,
    deleteUrl id w = (Ok true, w1) /\
    (Spec.active_count w1 < 5)%nat /\
    shortenUrl originalUrl customShortCode expiryMinutes env w1
    = (Ok l', w2) /\
    heap w2 !! l' = Some r /\
    ShortenedURL.originalUrl r = originalUrl /\
    ShortenedURL.shortCode r = Spec.resolved customShortCode env /\
    Spec.mapped w2 (Spec.resolved customShortCode env) = Some l'.
Proof.
  intros Cap G Hl A Hcode.
  destruct (deleteUrl_present id w l G) as (w1 & Run & Hh & _ & Hu & Hc & _).
  rewrite Hl in Hc.
  assert (C1 : (Spec.active_count w1 < 5)%nat).
  { rewrite active_count_flagged in *. rewrite Hh, Hu.
    pose proof (flagged_delete_active (heap w) id (urls w) l u G Hl A). lia. }
  assert (Free : shortCodeToId w1 !! Spec.resolved customShortCode env = None).
  { rewrite Hc. destruct Hcode as [-> | Hfree].
    - apply lookup_delete_eq.
    - apply lookup_delete_None. right. exact Hfree. }
  destruct (shortenUrl_success originalUrl customShortCode expiryMinutes
              env w1 Free C1)
    as (r & w2 & Run2 & Hh2 & Hu2 & Hc2 & _ & Ho & Hs & _).
  exists w1, (length (heap w1)), w2, r.
  split; [exact Run |]. split; [exact C1 |]. split; [exact Run2 |].
  split; [rewrite Hh2; apply list_lookup_middle; reflexivity |].
  split; [exact Ho |]. split; [exact Hs |].
  unfold Spec.mapped. rewrite Hc2, lookup_insert_eq, Hu2.
  apply JsMapFacts.get_set_eq.
Qed.

(** Scenario C, its end: with five records, the first is deleted and its
    code is taken again. *)
Lemma delete_then_shorten_five :
  exists w1 l' w2 r,
    deleteUrl Scenario.id_abc Sample.w_five = (Ok true, w1) /\
    (Spec.active_count w1 < 5)%nat /\
    shortenUrl "https://y.com" (Some "abcdef") (Some 30)
      (Sample.env_at (Sample.t0 + 10) "z8y7x6w5v") w1
    = (Ok l', w2) /\
    heap w2 !! l' = Some r /\
    ShortenedURL.originalUrl r = "https://y.com" /\
    ShortenedURL.shortCode r = "abcdef" /\
    Spec.mapped w2 "abcdef" = Some l'.
Proof.
  apply (delete_then_shorten Scenario.id_abc Sample.w_five 0%nat
           (ShortenedURL.mk Scenario.id_abc "https://x.com" "abcdef"
              "http://localhost:5173/abcdef" Sample.t0
              (Sample.t0 + 30 * 60 * 1000) true 0 [])
           "https://y.com" (Some "abcdef") (Some 30)
           (Sample.env_at (Sample.t0 + 10) "z8y7x6w5v")).
  - vm_compute. lia.
  - vm_compute. reflexivity.
  - vm_compute. reflexivity.
  - reflexivity.
  - left. reflexivity.
Defined.

(** *** The sweep *)

Lemma swept_live (now t : Z) (u : ShortenedURL.t) :
  now <= t ->
  negb (ShortenedURL.isActive (Spec.swept now u))
  || (ShortenedURL.expiresAt (Spec.swept now u) <? t)
  = negb (ShortenedURL.isActive u) || (ShortenedURL.expiresAt u <? t).
Proof.
  intros Ht. unfold Spec.swept.
  destruct (ShortenedURL.expiresAt u <? now) eqn:X;
    destruct (ShortenedURL.isActive u) eqn:A; cbn [andb];
    rewrite ?A; try reflexivity.
  cbn. apply Z.ltb_lt in X. symmetry. apply Z.ltb_lt. lia.
Qed.

(** A tick that finds nothing to deactivate changes nothing. *)
Lemma cleanup_nothing (now : Z) (w : World) :
  (forall l u, In l (JsMap.values (urls w)) -> heap w !! l = Some u ->
               ShortenedURL.isActive u && (ShortenedURL.expiresAt u <? now)
               = false) ->
  cleanupExpiredUrls now w = (Ok tt, w).
Proof.
  intros Hnone. unfold cleanupExpiredUrls.
  unfold bind at 1. unfold gets at 1.
  rewrite (sweep_nothing now (urls w) (heap w) 0 Hnone).
  destruct w. reflexivity.
Qed.

(** X3: the sweep cannot be observed through lookups. After a tick at
    [now], [getUrlByShortCode] answers at every instant from [now] on as
    it would have answered without the tick, for every short code; and a
    further tick at the same instant, or at an earlier reading of the
    clock, changes nothing at all (no write to the store, no log
    event). *)
Theorem sweep_unobservable (now : Z) (w : World) :
  exists w',
    cleanupExpiredUrls now w = (Ok tt, w') /\
    (forall shortCode t,
       now <= t ->
       getUrlByShortCode w' shortCode t = getUrlByShortCode w shortCode t) /\
    (forall t, t <= now -> cleanupExpiredUrls t w' = (Ok tt, w')).
Proof.
  destruct (cleanupExpiredUrls_run now w)
    as (w' & Run & Hh & _ & Hu & Hc & _).
  exists w'. split; [exact Run |]. split.
  - intros shortCode t Ht. unfold getUrlByShortCode. rewrite Hc, Hu.
    destruct (shortCodeToId w !! shortCode) as [id |]; [| reflexivity].
    destruct (negb (Str.truthy id)); [reflexivity |].
    destruct (JsMap.get id (urls w)) as [l |]; [| reflexivity].
    rewrite Hh, sweep_lookup.
    destruct (heap w !! l) as [u |]; [| reflexivity].
    cbn [fmap option_fmap option_map].
    destruct (bool_decide (l ∈ JsMap.values (urls w))); [| reflexivity].
    rewrite (swept_live now t u Ht). reflexivity.
  - intros t Ht. apply cleanup_nothing. intros l u' Hin Hl.
    rewrite Hu in Hin. rewrite Hh, sweep_lookup in Hl.
    destruct (heap w !! l) as [u |]; [| discriminate].
    injection Hl as <-.
    rewrite bool_decide_eq_true_2 by (apply list_elem_of_In; exact Hin).
    unfold Spec.swept.
    destruct (ShortenedURL.expiresAt u <? now) eqn:X;
      destruct (ShortenedURL.isActive u) eqn:A; cbn [andb];
      rewrite ?A; try reflexivity.
    cbn [andb]. apply Z.ltb_ge in X. apply Z.ltb_ge. lia.
Qed.

(** Scenario A: the record of one minute, at its last instant and one
    millisecond later, with a tick in between. *)
Lemma sweep_unobservable_generated :
  exists w',
    cleanupExpiredUrls (Sample.t0 + 60001) Sample.w_gen = (Ok tt, w') /\
    getUrlByShortCode w' "dkryFM" (Sample.t0 + 60001)
    = getUrlByShortCode Sample.w_gen "dkryFM" (Sample.t0 + 60001) /\
    cleanupExpiredUrls (Sample.t0 + 60001) w' = (Ok tt, w').
Proof.
  destruct (sweep_unobservable (Sample.t0 + 60001) Sample.w_gen)
    as (w' & Run & Hl & Hi).
  exists w'. split; [exact Run |]. split.
  - apply Hl. lia.
  - apply Hi. lia.
Defined.

Lemma swept_values (now : Z) (h h' : list ShortenedURL.t) (vs0 : list loc) :
  (forall l, h' !! l
             = (fun u => if bool_decide (l ∈ vs0)
                         then Spec.swept now u else u) <$> (h !! l)) ->
  forall vs, (forall l, In l vs -> l ∈ vs0) ->
    omap (fun l => h' !! l) vs
    = map (Spec.swept now) (omap (fun l => h !! l) vs).
Proof.
  intros H. induction vs as [| v vs IH]; intros Hin; [reflexivity |].
  cbn [omap list_omap]. rewrite H.
  rewrite bool_decide_eq_true_2 by (apply Hin; left; reflexivity).
  rewrite IH by (intros l Hl; apply Hin; right; exact Hl).
  destruct (h !! v); reflexivity.
Qed.

Lemma swept_flag (now : Z) (u : ShortenedURL.t) :
  ShortenedURL.isActive (Spec.swept now u) = Spec.live now u.
Proof.
  unfold Spec.swept, Spec.live.
  destruct (ShortenedURL.expiresAt u <? now);
    destruct (ShortenedURL.isActive u) eqn:A; cbn; rewrite ?A; reflexivity.
Qed.

Lemma swept_live_later (now t : Z) (u : ShortenedURL.t) :
  now <= t -> Spec.live t (Spec.swept now u) = Spec.live t u.
Proof.
  intros Ht. unfold Spec.live.
  pose proof (swept_live now t u Ht) as E.
  destruct (ShortenedURL.isActive (Spec.swept now u)),
    (ShortenedURL.expiresAt (Spec.swept now u) <? t),
    (ShortenedURL.isActive u), (ShortenedURL.expiresAt u <? t);
    cbn in *; congruence.
Qed.

Lemma filter_map_length {A : Type} (f : A -> A) (p q : A -> bool)
    (xs : list A) :
  (forall x, p (f x) = q x) ->
  length (List.filter p (map f xs)) = length (List.filter q xs).
Proof.
  intros H. induction xs as [| x xs IH]; [reflexivity |].
  cbn [map List.filter]. rewrite H. destruct (q x); cbn [length]; congruence.
Qed.

(** X4: what the limit counts, before and after a tick. After
    [cleanupExpiredUrls] at [now] the records of the registry are the
    same records with the flag cleared on those past their deadline: the
    number of flagged records, which is what [shortenUrl] holds against
    the limit of five, is then the number of records that were flagged
    and not past their deadline at [now]; what is live at later instants
    is not changed. So a call of [shortenUrl] for a free code returns
    after the tick whenever fewer than five records were live, however
    many records were flagged, and refused by the limit, before it. *)
Theorem sweep_frees_slots (now : Z) (w : World) :
  exists w',
    cleanupExpiredUrls now w = (Ok tt, w') /\
    url_values w' = map (Spec.swept now) (url_values w) /\
    Spec.active_count w' = Spec.live_count w now /\
    (forall t, now <= t -> Spec.live_count w' t = Spec.live_count w t) /\
    (forall originalUrl customShortCode expiryMinutes env,
       shortCodeToId w !! Spec.resolved customShortCode env = None ->
       (Spec.live_count w now < 5)%nat ->
       exists l w'',
         shortenUrl originalUrl customShortCode expiryMinutes env w'
         = (Ok l, w'')).
Proof.
  destruct (cleanupExpiredUrls_run now w)
    as (w' & Run & Hh & _ & Hu & Hc & _).
  assert (V : url_values w' = map (Spec.swept now) (url_values w)).
  { unfold url_values. rewrite Hu.
    apply (swept_values now (heap w) (heap w') (JsMap.values (urls w))).
    - intros l. rewrite Hh. apply sweep_lookup.
    - intros l Hl. apply list_elem_of_In. exact Hl. }
  assert (A : Spec.active_count w' = Spec.live_count w now).
  { unfold Spec.active_count, Spec.live_count. rewrite V.
    apply filter_map_length, swept_flag. }
  exists w'. split; [exact Run |]. split; [exact V |]. split; [exact A |].
  split.
  - intros t Ht. unfold Spec.live_count. rewrite V.
    apply filter_map_length. intros u. apply swept_live_later, Ht.
  - intros originalUrl customShortCode expiryMinutes env Free L.
    destruct (shortenUrl_success originalUrl customShortCode expiryMinutes
                env w') as (r & w'' & Run' & _).
    + rewrite Hc. exact Free.
    + rewrite A. exact L.
    + eauto.
Qed.

(** Scenario C, half an hour later: the five records are past their
    deadline and still flagged; a sixth call is refused by the limit
    before the tick and returns after it. *)
Lemma sweep_frees_slots_five :
  Spec.live_count Sample.w_five (Sample.t0 + 31 * 60 * 1000) = 0%nat /\
  fst (shortenUrl "https://y.com" (Some "sixth") (Some 30)
         (Sample.env_at (Sample.t0 + 31 * 60 * 1000) "z8y7x6w5v")
         Sample.w_five) = Throw E_limit /\
  exists w' l w'',
    cleanupExpiredUrls (Sample.t0 + 31 * 60 * 1000) Sample.w_five
    = (Ok tt, w') /\
    Spec.active_count w' = 0%nat /\
    shortenUrl "https://y.com" (Some "sixth") (Some 30)
      (Sample.env_at (Sample.t0 + 31 * 60 * 1000) "z8y7x6w5v") w'
    = (Ok l, w'').
Proof.
  assert (L : Spec.live_count Sample.w_five (Sample.t0 + 31 * 60 * 1000)
              = 0%nat) by (vm_compute; reflexivity).
  split; [exact L |]. split; [vm_compute; reflexivity |].
  destruct (sweep_frees_slots (Sample.t0 + 31 * 60 * 1000) Sample.w_five)
    as (w' & Run & _ & A & _ & S).
  destruct (S "https://y.com" (Some "sixth") (Some 30)
              (Sample.env_at (Sample.t0 + 31 * 60 * 1000) "z8y7x6w5v"))
    as (l & w'' & Run').
  - vm_compute. reflexivity.
  - rewrite L. lia.
  - exists w', l, w''. split; [exact Run |]. split; [| exact Run'].
    rewrite A. exact L.
Defined.

(** *** What becomes of a record *)

Import Registry (evolves).

Lemma evolves_refl (u : ShortenedURL.t) : evolves u u.
Proof. unfold evolves. repeat split; auto; lia. Qed.

Lemma evolves_trans (u1 u2 u3 : ShortenedURL.t) :
  evolves u1 u2 -> evolves u2 u3 -> evolves u1 u3.
Proof.
  unfold evolves.
  intros (I1 & O1 & C1 & S1 & T1 & E1 & A1 & N1 & P1)
         (I2 & O2 & C2 & S2 & T2 & E2 & A2 & N2 & P2).
  repeat split; try congruence; auto; [lia |].
  etransitivity; eassumption.
Qed.

Lemma evolves_clicked (ev : ClickEvent.t) (u : ShortenedURL.t) :
  evolves u (Spec.clicked ev u).
Proof.
  unfold evolves, Spec.clicked. cbn. repeat split; auto; [lia |].
  apply prefix_app_r. reflexivity.
Qed.

Lemma evolves_swept (now : Z) (u : ShortenedURL.t) :
  evolves u (Spec.swept now u).
Proof.
  unfold Spec.swept. destruct (_ && _) eqn:E; [| apply evolves_refl].
  apply andb_prop in E as [_ A].
  unfold evolves. cbn. repeat split; auto; lia.
Qed.

Lemma run_evolves (o : Spec.op) (w : World) (l : loc) (u : ShortenedURL.t) :
  Registry.is_reload o = false ->
  heap w !! l = Some u ->
  exists u', heap (Spec.run w o) !! l = Some u' /\ evolves u u'.
Proof.
  intros Ho Hl.
  destruct o as [x c e env | code now | code ua rf env | | id | now |];
    cbn [Spec.run]; try discriminate.
  - destruct (shortenUrl_cases x c e env w)
      as [[_ ->] | [(_ & _ & ->) | (_ & _ & r & w' & -> & Hh & _)]];
      cbn [snd].
    + exists u. split; [exact Hl | apply evolves_refl].
    + exists u. split; [exact Hl | apply evolves_refl].
    + exists u. split; [| apply evolves_refl].
      rewrite Hh. apply lookup_app_l_Some. exact Hl.
  - exists u. split; [exact Hl | apply evolves_refl].
  - destruct (getUrlByShortCode w code (c_lookupDate env)) as [l0 |] eqn:G;
      [| rewrite recordClick_absent by exact G; exists u;
         split; [exact Hl | apply evolves_refl]].
    destruct (getUrl_Some_inv _ _ _ _ G) as (i & x & _ & _ & _ & Hx & _).
    destruct (recordClick_present code ua rf env w l0 x G Hx)
      as (ev & w' & -> & _ & Hh & _).
    cbn [snd]. rewrite Hh. destruct (decide (l0 = l)) as [-> | Hne].
    + rewrite list_lookup_insert_eq by (eapply lookup_lt_Some; eauto).
      assert (x = u) as -> by congruence.
      eexists. split; [reflexivity | apply evolves_clicked].
    + rewrite list_lookup_insert_ne by exact Hne.
      exists u. split; [exact Hl | apply evolves_refl].
  - rewrite getAllUrls_run. exists u. split; [exact Hl | apply evolves_refl].
  - destruct (JsMap.get id (urls w)) as [l0 |] eqn:G.
    + destruct (deleteUrl_present id w l0 G) as (w' & -> & Hh & _).
      cbn [snd]. rewrite Hh. exists u. split; [exact Hl | apply evolves_refl].
    + rewrite deleteUrl_absent by exact G.
      exists u. split; [exact Hl | apply evolves_refl].
  - destruct (cleanupExpiredUrls_run now w) as (w' & -> & Hh & _).
    cbn [snd]. rewrite Hh, sweep_lookup, Hl.
    cbn [fmap option_fmap option_map]. eexists. split; [reflexivity |].
    destruct (bool_decide _); [apply evolves_swept | apply evolves_refl].
Qed.

(** X5: what no operation of a page ever does to a record. Through any
    sequence of operations of one page (calls of [shortenUrl] that return
    or throw, lookups, clicks, listings, deletions, ticks of the sweep),
    the object of a record stays where it is and keeps its id, its
    [originalUrl], its short code and short URL, its [createdAt] and its
    [expiresAt]; a record whose [isActive] is false is not flagged again;
    [clickCount] does not decrease and the click events it had stay, in
    their order, at the head of [clicks]. This holds of deleted records
    too, which a caller may still hold. *)
Theorem records_evolve (ops : list Spec.op) :
  forall (w : World) (l : loc) (u : ShortenedURL.t),
    forallb (fun o => negb (Registry.is_reload o)) ops = true ->
    heap w !! l = Some u ->
    exists u', heap (Spec.run_all w ops) !! l = Some u' /\ evolves u u'.
Proof.
  induction ops as [| o ops IH]; intros w l u Hops Hl.
  - exists u. split; [exact Hl | apply evolves_refl].
  - cbn [forallb] in Hops. apply andb_prop in Hops as [Ho Hops].
    apply negb_true_iff in Ho.
    destruct (run_evolves o w l u Ho Hl) as (u1 & H1 & E1).
    destruct (IH (Spec.run w o) l u1 Hops H1) as (u2 & H2 & E2).
    exists u2. split; [exact H2 | eapply evolves_trans; eassumption].
Qed.

(** The record of the sample registry after two clicks, a tick past its
    deadline and its deletion. *)
Lemma records_evolve_abc :
  exists u',
    heap (Spec.run_all Sample.w_abc
            [Scenario.click_abc (Sample.t0 + 1) "a1b2c3d4e";
             Scenario.click_abc (Sample.t0 + 2) "f5g6h7i8j";
             Spec.Sweep (Sample.t0 + 30 * 60 * 1000 + 1);
             Spec.Delete Scenario.id_abc]) !! 0%nat = Some u' /\
    evolves Scenario.u_abc u' /\
    ShortenedURL.clickCount u' = 2 /\
    ShortenedURL.isActive u' = false.
Proof.
  destruct (records_evolve
              [Scenario.click_abc (Sample.t0 + 1) "a1b2c3d4e";
               Scenario.click_abc (Sample.t0 + 2) "f5g6h7i8j";
               Spec.Sweep (Sample.t0 + 30 * 60 * 1000 + 1);
               Spec.Delete Scenario.id_abc]
              Sample.w_abc 0%nat Scenario.u_abc)
    as (u' & Hu & E); [reflexivity | vm_compute; reflexivity |].
  exists u'. split; [exact Hu |]. split; [exact E |].
  vm_compute in Hu. injection Hu as <-. split; reflexivity.
Defined.

(** *** Both indexes and the store *)

Import Registry (consistent, synced, sound, ids).

Lemma url_values_elem (w : World) (u : ShortenedURL.t) :
  u ∈ url_values w <->
  exists l, In l (JsMap.values (urls w)) /\ heap w !! l = Some u.
Proof.
  unfold url_values. rewrite list_elem_of_omap. split.
  - intros (l & Hl & Hu). exists l. rewrite <- list_elem_of_In. auto.
  - intros (l & Hl & Hu). exists l. rewrite list_elem_of_In. auto.
Qed.

(** The records of a consistent registry, by id and by code. *)
Lemma consistent_values (w : World) (u : ShortenedURL.t) :
  consistent w ->
  (u ∈ url_values w <->
   exists l, JsMap.get (ShortenedURL.id u) (urls w) = Some l /\
             heap w !! l = Some u).
Proof.
  intros (N & R & _). rewrite url_values_elem. split.
  - intros (l & Hl & Hu). apply JsMapKeys.values_elem in Hl as (k & Hk).
    apply (JsMapKeys.get_elem _ _ _ N) in Hk.
    destruct (R k l Hk) as (u' & Hu' & Hid & _).
    assert (u' = u) as -> by congruence. exists l. rewrite Hid. auto.
  - intros (l & G & Hu). exists l. split; [| exact Hu].
    eapply JsMapFacts.get_In_values, G.
Qed.

Lemma consistent_codes (w : World) (code id : string) :
  consistent w ->
  (shortCodeToId w !! code = Some id <->
   exists u, u ∈ url_values w /\ ShortenedURL.shortCode u = code /\
             ShortenedURL.id u = id).
Proof.
  intros C. pose proof C as (N & R & K). split.
  - intros H. destruct (K code id H) as (l & u & G & Hu & Hc).
    destruct (R id l G) as (u' & Hu' & Hid & _).
    assert (u' = u) as -> by congruence.
    exists u. split; [| auto].
    apply (consistent_values w u C). exists l. rewrite Hid. auto.
  - intros (u & Hin & <- & <-).
    apply (consistent_values w u C) in Hin as (l & G & Hu).
    destruct (R _ l G) as (u' & Hu' & _ & Hc).
    assert (u' = u) as -> by congruence. exact Hc.
Qed.

Lemma consistent_mapped (w : World) (code : string) (u : ShortenedURL.t) :
  consistent w ->
  (Spec.mapped_record w code = Some u <->
   u ∈ url_values w /\ ShortenedURL.shortCode u = code).
Proof.
  intros C. pose proof C as (N & R & K).
  unfold Spec.mapped_record, Spec.mapped. split.
  - destruct (shortCodeToId w !! code) as [id |] eqn:I; [| discriminate].
    destruct (JsMap.get id (urls w)) as [l |] eqn:G; [| discriminate].
    intros Hu. destruct (K code id I) as (l' & u' & G' & Hu' & Hc).
    assert (l' = l) as -> by congruence.
    assert (u' = u) as -> by congruence.
    split; [| exact Hc]. apply url_values_elem. exists l.
    split; [eapply JsMapFacts.get_In_values, G | exact Hu].
  - intros [Hin <-].
    apply (consistent_values w u C) in Hin as (l & G & Hu).
    destruct (R _ l G) as (u' & Hu' & _ & Hc).
    assert (u' = u) as -> by congruence. rewrite Hc, G. exact Hu.
Qed.

(** The ids and the codes of the records of a consistent registry. *)
Lemma values_ids (h : list ShortenedURL.t) (m : list (string * loc)) :
  (forall k l, (k, l) ∈ m ->
               exists u, h !! l = Some u /\ ShortenedURL.id u = k) ->
  map ShortenedURL.id (omap (fun l => h !! l) (JsMap.values m)) = map fst m.
Proof.
  induction m as [| [k l] m IH]; intros H; [reflexivity |].
  cbn [JsMap.values map fst snd omap list_omap].
  destruct (H k l) as (u & -> & Hid); [left |].
  cbn [map]. rewrite Hid. f_equal. apply IH.
  intros k' l' Hin. apply H. right. exact Hin.
Qed.

Lemma consistent_ids (w : World) :
  consistent w -> map ShortenedURL.id (url_values w) = ids w.
Proof.
  intros (N & R & _). apply values_ids. intros k l Hin.
  apply (JsMapKeys.get_elem _ _ _ N) in Hin.
  destruct (R k l Hin) as (u & Hu & Hid & _). eauto.
Qed.

Lemma NoDup_map_through {A B C : Type} (f : A -> B) (g : A -> C)
    (xs : list A) :
  (forall x y, x ∈ xs -> y ∈ xs -> g x = g y -> f x = f y) ->
  NoDup (map f xs) -> NoDup (map g xs).
Proof.
  induction xs as [| x xs IH]; intros H; [constructor |].
  cbn [map]. rewrite !NoDup_cons. intros [Hx Hxs]. split.
  - intros Hin. apply Hx. apply list_elem_of_fmap in Hin as (y & Hg & Hy).
    apply list_elem_of_fmap. exists y. split; [| exact Hy].
    apply H; [left | right; exact Hy | exact Hg].
  - apply IH; [| exact Hxs]. intros a b Ha Hb. apply H; right; assumption.
Qed.

Lemma consistent_NoDup (w : World) :
  consistent w ->
  NoDup (map ShortenedURL.id (url_values w)) /\
  NoDup (map ShortenedURL.shortCode (url_values w)).
Proof.
  intros C.
  assert (Ni : NoDup (map ShortenedURL.id (url_values w)))
    by (rewrite consistent_ids by exact C; apply C).
  split; [exact Ni |].
  apply (NoDup_map_through ShortenedURL.id); [| exact Ni].
  intros x y Hx Hy E.
  assert (Hcx : shortCodeToId w !! ShortenedURL.shortCode x
                = Some (ShortenedURL.id x))
    by (apply consistent_codes; eauto).
  assert (Hcy : shortCodeToId w !! ShortenedURL.shortCode y
                = Some (ShortenedURL.id y))
    by (apply consistent_codes; eauto).
  congruence.
Qed.

(** Registering a new object under an id and a code that are free. *)
Section Register.

Variables (w w' : World) (r : ShortenedURL.t).
Hypothesis Hheap : heap w' = heap w ++ [r].
Hypothesis Hurls :
  urls w' = JsMap.set (ShortenedURL.id r) (length (heap w)) (urls w).
Hypothesis Hcodes :
  shortCodeToId w'
  = <[ShortenedURL.shortCode r := ShortenedURL.id r]> (shortCodeToId w).
Hypothesis Hid : JsMap.get (ShortenedURL.id r) (urls w) = None.
Hypothesis Hcode : shortCodeToId w !! ShortenedURL.shortCode r = None.

Lemma register_consistent : consistent w -> consistent w'.
Proof.
  intros (N & R & K). unfold consistent, ids.
  rewrite Hheap, Hurls, Hcodes. split; [| split].
  - rewrite JsMapKeys.keys_set_fresh by exact Hid.
    apply NoDup_app. split; [exact N |]. split; [| apply NoDup_singleton].
    intros k Hk Hk'. apply list_elem_of_singleton in Hk' as ->.
    apply JsMapKeys.get_None_keys in Hid. contradiction.
  - intros id l G.
    destruct (decide (ShortenedURL.id r = id)) as [<- | Hne].
    + rewrite JsMapFacts.get_set_eq in G. injection G as <-.
      exists r. split; [apply list_lookup_middle; reflexivity |].
      split; [reflexivity | apply lookup_insert_eq].
    + rewrite JsMapFacts.get_set_ne in G by exact Hne.
      destruct (R id l G) as (u & Hu & Hi & Hc).
      exists u. split; [apply lookup_app_l_Some; exact Hu |].
      split; [exact Hi |].
      rewrite lookup_insert_ne; [exact Hc |]. intros E. rewrite E in Hcode.
      congruence.
  - intros code id H. apply lookup_insert_Some in H as [[<- <-] | [Hne H]].
    + exists (length (heap w)), r.
      split; [apply JsMapFacts.get_set_eq |].
      split; [apply list_lookup_middle; reflexivity | reflexivity].
    + destruct (K code id H) as (l & u & G & Hu & Hc).
      exists l, u. split; [| split; [apply lookup_app_l_Some; exact Hu
                                    | exact Hc]].
      rewrite JsMapFacts.get_set_ne; [exact G |]. intros E. rewrite E in Hid.
      congruence.
Qed.

Lemma register_values :
  Spec.refs_valid w -> url_values w' = url_values w ++ [r].
Proof.
  intros Rv. unfold url_values. rewrite Hheap, Hurls.
  rewrite JsMapFacts.set_fresh by exact Hid.
  unfold JsMap.values. rewrite map_app, omap_app.
  cbn [map snd omap list_omap].
  rewrite list_lookup_middle by reflexivity. f_equal.
  unfold Spec.refs_valid, JsMap.values in Rv.
  induction (map snd (urls w)) as [| l ls IH]; [reflexivity |].
  inversion Rv as [| ? ? Hl Hls]; subst. cbn [omap list_omap].
  rewrite lookup_app_l by exact Hl. rewrite (IH Hls). reflexivity.
Qed.

End Register.

(** An operation that leaves both indexes alone and keeps the id and the
    code of every object. *)
Lemma consistent_heap (w w' : World) :
  urls w' = urls w -> shortCodeToId w' = shortCodeToId w ->
  (forall l u, heap w !! l = Some u ->
     exists u', heap w' !! l = Some u' /\ Registry.evolves u u') ->
  consistent w -> consistent w'.
Proof.
  intros Hu Hc Hh (N & R & K). unfold consistent, ids. rewrite Hu, Hc.
  split; [exact N |]. split.
  - intros id l G. destruct (R id l G) as (u & Hl & Hi & Hcode).
    destruct (Hh l u Hl) as (u' & Hl' & E). exists u'.
    destruct E as (Ei & _ & Ec & _). rewrite Ei, Ec. auto.
  - intros code id H. destruct (K code id H) as (l & u & G & Hl & Hcode).
    destruct (Hh l u Hl) as (u' & Hl' & E). exists l, u'.
    destruct E as (_ & _ & Ec & _). rewrite Ec. auto.
Qed.

Lemma consistent_delete (id : string) (w w' : World) (l : loc) :
  JsMap.get id (urls w) = Some l ->
  heap w' = heap w ->
  urls w' = JsMap.delete id (urls w) ->
  shortCodeToId w'
  = delete (match heap w !! l with
            | Some u => ShortenedURL.shortCode u
            | None => EmptyString
            end) (shortCodeToId w) ->
  consistent w -> consistent w'.
Proof.
  intros G Hh Hu Hc (N & R & K). unfold consistent, ids.
  rewrite Hh, Hu, Hc.
  destruct (R id l G) as (u & Hl & Hi & Hcode). rewrite Hl.
  split; [apply JsMapKeys.NoDup_keys_delete, N |]. split.
  - intros id' l' G'.
    destruct (decide (id = id')) as [<- | Hne];
      [rewrite JsMapFacts.get_delete_eq in G'; discriminate |].
    rewrite JsMapFacts.get_delete_ne in G' by exact Hne.
    destruct (R id' l' G') as (u' & Hl' & Hi' & Hcode').
    exists u'. split; [exact Hl' |]. split; [exact Hi' |].
    rewrite lookup_delete_ne; [exact Hcode' |]. intros E.
    rewrite E in Hcode. congruence.
  - intros code id' H. apply lookup_delete_Some in H as [Hne H].
    destruct (K code id' H) as (l' & u' & G' & Hl' & Hcode').
    exists l', u'. split; [| auto].
    rewrite JsMapFacts.get_delete_ne; [exact G' |]. intros <-.
    assert (l' = l) as -> by congruence.
    assert (u' = u) as -> by congruence. congruence.
Qed.

(** [loadFromStorage] on records whose ids and codes are free and
    distinct. *)
Lemma load_consistent (us : list ShortenedURL.t) :
  forall w,
    consistent w -> Spec.refs_valid w ->
    (forall u, u ∈ us ->
               JsMap.get (ShortenedURL.id u) (urls w) = None /\
               shortCodeToId w !! ShortenedURL.shortCode u = None) ->
    NoDup (map ShortenedURL.id us) ->
    NoDup (map ShortenedURL.shortCode us) ->
    consistent (foldl Spec.load_one w us) /\
    url_values (foldl Spec.load_one w us) = url_values w ++ us.
Proof.
  induction us as [| u us IH]; intros w C Rv F Ni Nc.
  - cbn [foldl]. rewrite app_nil_r. auto.
  - cbn [foldl]. cbn [map] in Ni, Nc.
    apply NoDup_cons in Ni as [Hi Ni]. apply NoDup_cons in Nc as [Hc Nc].
    destruct (F u) as [Fi Fc]; [left |].
    assert (C1 : consistent (Spec.load_one w u))
      by (apply (register_consistent w _ u); auto).
    assert (V1 : url_values (Spec.load_one w u) = url_values w ++ [u])
      by (apply (register_values w _ u); auto).
    assert (R1 : Spec.refs_valid (Spec.load_one w u))
      by (eapply registered_refs_valid; [reflexivity .. | exact Rv]).
    destruct (IH (Spec.load_one w u) C1 R1) as [C2 V2]; [| exact Ni
                                                         | exact Nc |].
    + intros u' Hu'. destruct (F u') as [Fi' Fc']; [right; exact Hu' |].
      cbn [Spec.load_one urls shortCodeToId set_urls set_shortCodeToId
           set_heap]. split.
      * rewrite JsMapFacts.get_set_ne; [exact Fi' |]. intros E. apply Hi.
        rewrite E. apply list_elem_of_fmap. eauto.
      * rewrite lookup_insert_ne; [exact Fc' |]. intros E. apply Hc.
        rewrite E. apply list_elem_of_fmap. eauto.
    + split; [exact C2 |]. rewrite V2, V1, <- app_assoc. reflexivity.
Qed.

Lemma new_page_consistent (w : World) :
  consistent (Spec.new_page w) /\ Spec.refs_valid (Spec.new_page w).
Proof.
  split; [| constructor]. split; [constructor |]. split.
  - intros id l G. discriminate G.
  - intros code id H. discriminate H.
Qed.

(** A page load takes in the records that were stored. *)
Lemma reload_values (w : World) (us : list ShortenedURL.t) :
  ls_urls w = Some us ->
  NoDup (map ShortenedURL.id us) ->
  NoDup (map ShortenedURL.shortCode us) ->
  consistent (Spec.reload w) /\ url_values (Spec.reload w) = us.
Proof.
  intros Hs Ni Nc. rewrite reload_run, Hs.
  destruct (new_page_consistent w) as [C0 R0].
  destruct (load_consistent us (Spec.new_page w) C0 R0) as [C V];
    [intros u _; split; reflexivity | exact Ni | exact Nc |].
  split; [exact C | exact V].
Qed.

Lemma reload_nothing_stored (w : World) :
  ls_urls w = None -> Spec.reload w = Spec.new_page w.
Proof. intros Hs. rewrite reload_run, Hs. reflexivity. Qed.

Lemma reload_store (w : World) : ls_urls (Spec.reload w) = ls_urls w.
Proof.
  rewrite reload_run. destruct (ls_urls w) as [us |] eqn:E; [| exact E].
  change (ls_urls (foldl Spec.load_one (Spec.new_page w) us) = Some us).
  rewrite load_one_store. exact E.
Qed.

(** The sweep either changes nothing or saves what it changed. *)
Lemma sweep_count (now : Z) (entries : list (string * loc)) :
  forall (h : list ShortenedURL.t) (n : nat),
    (n <= (foldl (cleanup_step now) (h, n) entries).2)%nat /\
    ((foldl (cleanup_step now) (h, n) entries).2 = n ->
     (foldl (cleanup_step now) (h, n) entries).1 = h).
Proof.
  induction entries as [| e entries IH]; intros h n; [cbn; auto |].
  cbn [foldl]. unfold cleanup_step at 2 4 6. cbn [fst snd].
  destruct (h !! e.2) as [u |]; [| apply IH].
  destruct (_ && _); [| apply IH].
  destruct (IH (<[e.2 := ShortenedURL.set_isActive false u]> h) (S n))
    as [L _].
  split; [lia | intros E; lia].
Qed.

Lemma cleanup_cases (now : Z) (w : World) :
  cleanupExpiredUrls now w = (Ok tt, w) \/
  exists w', cleanupExpiredUrls now w = (Ok tt, w') /\
             ls_urls w' = Some (url_values w').
Proof.
  destruct (sweep_count now (urls w) (heap w) 0) as [_ Z].
  destruct (foldl (cleanup_step now) (heap w, 0%nat) (urls w))
    as [h' n'] eqn:E.
  cbn [fst snd] in Z. destruct n' as [| n'].
  - left. unfold cleanupExpiredUrls. unfold bind at 1. unfold gets at 1.
    rewrite E, (Z eq_refl). destruct w. reflexivity.
  - right. unfold cleanupExpiredUrls. unfold bind at 1. unfold gets at 1.
    rewrite E. eexists. split; reflexivity.
Qed.

Lemma sound_run (w : World) (o : Spec.op) :
  sound w -> Registry.fresh_id w o -> sound (Spec.run w o).
Proof.
  intros (I & C & S) F.
  split; [apply invariant_run, I |].
  assert (Keep : forall w',
            urls w' = urls w -> heap w' = heap w ->
            shortCodeToId w' = shortCodeToId w -> ls_urls w' = ls_urls w ->
            consistent w' /\ synced w').
  { intros w' Hu Hh Hc Hs. split.
    - apply (consistent_heap w w' Hu Hc); [| exact C].
      intros l u Hl. exists u. rewrite Hh. split; [exact Hl |].
      apply evolves_refl.
    - unfold synced, url_values. rewrite Hs, Hu, Hh. exact S. }
  destruct o as [x c e env | code now | code ua rf env | | id | now |];
    cbn [Spec.run].
  - destruct (shortenUrl_cases x c e env w)
      as [[_ ->] | [(_ & _ & ->) | (Free & L & _)]];
      [apply Keep; reflexivity | apply Keep; reflexivity |].
    destruct (shortenUrl_success x c e env w Free L)
      as (r & w' & -> & Hh & Hu & Hc & Hi & _ & Hcode & _ & _ & _ & _ & _
          & Hs).
    cbn [snd]. cbn [Registry.fresh_id] in F. split; [| left; exact Hs].
    apply (register_consistent w w' r); rewrite ?Hi, ?Hcode; assumption.
  - auto.
  - destruct (getUrlByShortCode w code (c_lookupDate env)) as [l |] eqn:G;
      [| rewrite recordClick_absent by exact G; auto].
    destruct (getUrl_Some_inv _ _ _ _ G) as (i & u & _ & _ & _ & Hl & _).
    destruct (recordClick_present code ua rf env w l u G Hl)
      as (ev & w' & Run & _ & _ & _ & Hu & Hc & Hs & _).
    assert (E : w' = Spec.run w (Spec.Click code ua rf env))
      by (cbn [Spec.run]; rewrite Run; reflexivity).
    rewrite Run. cbn [snd]. split; [| left; exact Hs].
    apply (consistent_heap w w' Hu Hc); [| exact C].
    intros l0 u0 Hl0. rewrite E. apply run_evolves; [reflexivity | exact Hl0].
  - rewrite getAllUrls_run. apply Keep; reflexivity.
  - destruct (JsMap.get id (urls w)) as [l |] eqn:G;
      [| rewrite deleteUrl_absent by exact G; auto].
    destruct (deleteUrl_present id w l G) as (w' & -> & Hh & _ & Hu & Hc & Hs).
    cbn [snd]. split; [| left; exact Hs].
    apply (consistent_delete id w w' l); assumption.
  - destruct (cleanup_cases now w) as [-> | (w' & Run & Hs)]; [auto |].
    assert (E : w' = Spec.run w (Spec.Sweep now))
      by (cbn [Spec.run]; rewrite Run; reflexivity).
    destruct (cleanupExpiredUrls_run now w)
      as (w'' & Run' & _ & _ & Hu & Hc & _).
    rewrite Run in Run'. injection Run' as <-.
    rewrite Run. cbn [snd]. split; [| left; exact Hs].
    apply (consistent_heap w w' Hu Hc); [| exact C].
    intros l0 u0 Hl0. rewrite E. apply run_evolves; [reflexivity | exact Hl0].
  - destruct S as [Hs | [Hs Hn]].
    + destruct (consistent_NoDup w C) as [Ni Nc].
      destruct (reload_values w _ Hs Ni Nc) as [C' V'].
      split; [exact C' |]. left. rewrite reload_store, V'. exact Hs.
    + rewrite (reload_nothing_stored w Hs). split.
      * apply new_page_consistent.
      * right. split; [exact Hs | reflexivity].
Qed.

Lemma sound_run_all (ops : list Spec.op) :
  forall w, sound w -> Registry.fresh_ids w ops ->
            sound (Spec.run_all w ops).
Proof.
  induction ops as [| o ops IH]; intros w S F; [exact S |].
  destruct F as [Fo F]. cbn [Spec.run_all foldl].
  apply IH; [apply sound_run; assumption | exact F].
Qed.

Lemma sound_initial : sound Spec.initial.
Proof.
  split; [apply invariant_initial |]. split.
  - apply (new_page_consistent empty_world).
  - right. split; reflexivity.
Qed.

Lemma found_mapped (w : World) (shortCode : string) (t : Z) :
  Spec.ids_truthy w ->
  Registry.found w shortCode t
  = match Spec.mapped_record w shortCode with
    | Some u =>
        if negb (ShortenedURL.isActive u) || (ShortenedURL.expiresAt u <? t)
        then None else Some u
    | None => None
    end.
Proof.
  intros T.
  unfold Registry.found, getUrlByShortCode, Spec.mapped_record, Spec.mapped.
  destruct (shortCodeToId w !! shortCode) as [id |] eqn:I; [| reflexivity].
  rewrite (T _ _ I). cbn [negb].
  destruct (JsMap.get id (urls w)) as [l |]; [| reflexivity].
  destruct (heap w !! l) as [u |] eqn:Hl; [| reflexivity].
  destruct (negb (ShortenedURL.isActive u) || (ShortenedURL.expiresAt u <? t));
    [reflexivity | exact Hl].
Qed.

(** X6: in every state that the registry reaches from a sound one (the
    empty registry is sound) by operations whose new ids are not in use,
    the store holds the records of the registry, in their order; no two
    records of the registry share an id or a short code; a lookup that
    answers, answers with a record of the registry that carries the code
    asked for; and every record of the registry that carries the flag is
    found under its short code at every instant up to its deadline. *)
Theorem registry_sound (w0 : World) (ops : list Spec.op) :
  sound w0 -> Registry.fresh_ids w0 ops ->
  let w := Spec.run_all w0 ops in
  synced w /\
  NoDup (map ShortenedURL.id (url_values w)) /\
  NoDup (map ShortenedURL.shortCode (url_values w)) /\
  (forall shortCode t l,
     getUrlByShortCode w shortCode t = Some l ->
     exists u, heap w !! l = Some u /\ u ∈ url_values w /\
               ShortenedURL.shortCode u = shortCode) /\
  (forall u t,
     u ∈ url_values w -> ShortenedURL.isActive u = true ->
     t <= ShortenedURL.expiresAt u ->
     Registry.found w (ShortenedURL.shortCode u) t = Some u).
Proof.
  intros S0 F w.
  destruct (sound_run_all ops w0 S0 F) as (I & C & S). fold w in I, C, S.
  split; [exact S |].
  destruct (consistent_NoDup w C) as [Ni Nc].
  split; [exact Ni |]. split; [exact Nc |]. split.
  - intros shortCode t l G.
    destruct (getUrl_Some_inv _ _ _ _ G) as (id & u & Hc & _ & Hg & Hl & _).
    exists u. split; [exact Hl |].
    apply (consistent_mapped w shortCode u C).
    unfold Spec.mapped_record, Spec.mapped. rewrite Hc, Hg. exact Hl.
  - intros u t Hin A Ht.
    rewrite found_mapped by apply I.
    replace (Spec.mapped_record w (ShortenedURL.shortCode u)) with (Some u)
      by (symmetry; apply consistent_mapped; auto).
    rewrite A. cbn [negb orb]. apply Z.ltb_ge in Ht. rewrite Ht. reflexivity.
Qed.

(** The sample registry after a click: its one record is found under
    [abc] at its last instant. *)
Lemma registry_sound_abc :
  synced Scenario.w_clicked /\
  NoDup (map ShortenedURL.shortCode (url_values Scenario.w_clicked)) /\
  Registry.found Scenario.w_clicked "abc" (Sample.t0 + 30 * 60 * 1000)
  = Some Scenario.u_clicked.
Proof.
  destruct (registry_sound Spec.initial
              [Scenario.shorten_abc;
               Scenario.click_abc (Sample.t0 + 1) "a1b2c3d4e"]
              sound_initial)
    as (S & _ & Nc & _ & L); [repeat split |].
  fold Scenario.w_clicked in S, Nc, L.
  split; [exact S |]. split; [exact Nc |].
  apply (L Scenario.u_clicked (Sample.t0 + 30 * 60 * 1000)).
  - vm_compute. left.
  - reflexivity.
  - cbn. lia.
Defined.

(** X7: nothing is lost over a page load. When a page is loaded on the
    store that a sound registry left, the new registry is sound again and
    holds the same records with the same fields, under the same ids in
    the same order and under the same short codes: a lookup of any code
    at any instant answers with a record of the same fields as before,
    or with null as before. The store itself is not written to. *)
Theorem reload_round_trip (w : World) :
  sound w ->
  sound (Spec.reload w) /\
  url_values (Spec.reload w) = url_values w /\
  ids (Spec.reload w) = ids w /\
  shortCodeToId (Spec.reload w) = shortCodeToId w /\
  (forall shortCode t,
     Registry.found (Spec.reload w) shortCode t
     = Registry.found w shortCode t) /\
  ls_urls (Spec.reload w) = ls_urls w.
Proof.
  intros S.
  pose proof (sound_run w Spec.Reload S I) as S'. cbn [Spec.run] in S'.
  destruct S as (Iw & C & Sy). pose proof S' as (I' & C' & _).
  assert (V : url_values (Spec.reload w) = url_values w).
  { destruct Sy as [Hs | [Hs Hn]].
    - destruct (consistent_NoDup w C) as [Ni Nc].
      apply (reload_values w _ Hs Ni Nc).
    - rewrite (reload_nothing_stored w Hs). unfold url_values.
      rewrite Hn. reflexivity. }
  assert (M : forall code, Spec.mapped_record (Spec.reload w) code
                           = Spec.mapped_record w code).
  { intros code. apply option_eq. intros u.
    rewrite !consistent_mapped by assumption. rewrite V. reflexivity. }
  split; [exact S' |]. split; [exact V |]. split; [| split; [| split]].
  - rewrite <- !consistent_ids by assumption. rewrite V. reflexivity.
  - apply map_eq. intros code. apply option_eq. intros id.
    rewrite !consistent_codes by assumption. rewrite V. reflexivity.
  - intros shortCode t. rewrite !found_mapped by (apply I' || apply Iw).
    rewrite M. reflexivity.
  - apply reload_store.
Qed.

(** The sample registry after a click and a page load. *)
Lemma reload_round_trip_abc :
  url_values (Spec.reload Scenario.w_clicked)
  = url_values Scenario.w_clicked /\
  Registry.found (Spec.reload Scenario.w_clicked) "abc" (Sample.t0 + 2)
  = Registry.found Scenario.w_clicked "abc" (Sample.t0 + 2).
Proof.
  destruct (reload_round_trip Scenario.w_clicked) as (_ & V & _ & _ & L & _).
  - apply (sound_run_all _ _ sound_initial). repeat split.
  - split; [exact V | apply L].
Defined.

(** *** Properties of records that every operation keeps *)

Lemma load_heap (us : list ShortenedURL.t) :
  forall w, heap (foldl Spec.load_one w us) = heap w ++ us.
Proof.
  induction us as [| u us IH]; intros w; cbn [foldl].
  - rewrite app_nil_r. reflexivity.
  - rewrite IH. cbn [Spec.load_one heap set_heap set_urls set_shortCodeToId].
    rewrite <- app_assoc. reflexivity.
Qed.

Section RecordInvariant.

Import Registry (everywhere).

Variable P : ShortenedURL.t -> Prop.

Hypothesis P_new :
  forall id originalUrl shortCode shortUrl createdAt expiresAt,
    P (ShortenedURL.mk id originalUrl shortCode shortUrl createdAt expiresAt
         true 0 []).
Hypothesis P_clicked : forall ev u, P u -> P (Spec.clicked ev u).
Hypothesis P_swept : forall now u, P u -> P (Spec.swept now u).

Lemma everywhere_saved (w : World) :
  Forall P (url_values w) -> ls_urls w = Some (url_values w) ->
  everywhere P w.
Proof. intros Hv Hs. split; [exact Hv |]. intros us. rewrite Hs.
       intros [= <-]. exact Hv. Qed.

Lemma everywhere_run (w : World) (o : Spec.op) :
  everywhere P w -> everywhere P (Spec.run w o).
Proof.
  intros [Hv Hs].
  assert (Old : forall l u, In l (JsMap.values (urls w)) ->
                            heap w !! l = Some u -> P u).
  { intros l u Hl Hu. rewrite List.Forall_forall in Hv. apply Hv.
    apply list_elem_of_In, url_values_elem. eauto. }
  assert (Keep : forall w',
            urls w' = urls w -> heap w' = heap w -> ls_urls w' = ls_urls w ->
            everywhere P w').
  { intros w' Hu Hh Hl. unfold everywhere, url_values.
    rewrite Hu, Hh, Hl. split; assumption. }
  destruct o as [x c e env | code now | code ua rf env | | id | now |];
    cbn [Spec.run].
  - destruct (shortenUrl_cases x c e env w)
      as [[_ ->] | [(_ & _ & ->) | (Free & L & _)]];
      [apply Keep; reflexivity | apply Keep; reflexivity |].
    destruct (shortenUrl_success x c e env w Free L)
      as (r & w' & -> & Hh & Hu & _ & _ & _ & _ & _ & _ & Ha & Hn & Hc & Hst).
    cbn [snd]. apply everywhere_saved; [| exact Hst].
    assert (Pr : P r).
    { destruct r. cbn in Ha, Hn, Hc. subst. apply P_new. }
    apply List.Forall_forall. intros u Hin.
    apply list_elem_of_In, url_values_elem in Hin as (l & Hl & Hlu).
    rewrite Hh in Hlu. rewrite Hu in Hl.
    apply lookup_app_Some in Hlu as [Hlu | [_ Hlu]].
    + apply JsMapFacts.In_values_set in Hl as [-> | Hl].
      * apply lookup_lt_Some in Hlu. lia.
      * eapply Old; eauto.
    + destruct (l - length (heap w))%nat; [| discriminate].
      injection Hlu as <-. exact Pr.
  - split; assumption.
  - destruct (getUrlByShortCode w code (c_lookupDate env)) as [l |] eqn:G;
      [| rewrite recordClick_absent by exact G; split; assumption].
    destruct (getUrl_Some_inv _ _ _ _ G) as (i & x & _ & _ & Hg & Hx & _).
    destruct (recordClick_present code ua rf env w l x G Hx)
      as (ev & w' & -> & _ & Hh & _ & Hu & _ & Hst & _).
    cbn [snd]. apply everywhere_saved; [| exact Hst].
    apply List.Forall_forall. intros u Hin.
    apply list_elem_of_In, url_values_elem in Hin as (l0 & Hl0 & Hlu).
    rewrite Hh in Hlu. rewrite Hu in Hl0.
    destruct (decide (l = l0)) as [<- | Hne].
    + rewrite list_lookup_insert_eq in Hlu by (eapply lookup_lt_Some; eauto).
      injection Hlu as <-. apply P_clicked. eapply Old; eauto.
    + rewrite list_lookup_insert_ne in Hlu by exact Hne. eapply Old; eauto.
  - rewrite getAllUrls_run. apply Keep; reflexivity.
  - destruct (JsMap.get id (urls w)) as [l |] eqn:G;
      [| rewrite deleteUrl_absent by exact G; split; assumption].
    destruct (deleteUrl_present id w l G) as (w' & -> & Hh & _ & Hu & _ & Hst).
    cbn [snd]. apply everywhere_saved; [| exact Hst].
    apply List.Forall_forall. intros u Hin.
    apply list_elem_of_In, url_values_elem in Hin as (l0 & Hl0 & Hlu).
    rewrite Hh in Hlu. rewrite Hu in Hl0.
    apply JsMapFacts.In_values_delete in Hl0. eapply Old; eauto.
  - destruct (cleanupExpiredUrls_run now w)
      as (w' & -> & Hh & _ & Hu & _ & Hst).
    cbn [snd].
    assert (Hv' : Forall P (url_values w')).
    { apply List.Forall_forall. intros u Hin.
      apply list_elem_of_In, url_values_elem in Hin as (l0 & Hl0 & Hlu).
      rewrite Hh, sweep_lookup in Hlu. rewrite Hu in Hl0.
      destruct (heap w !! l0) as [x |] eqn:Hx; [| discriminate].
      injection Hlu as <-.
      destruct (bool_decide _); [apply P_swept |]; eapply Old; eauto. }
    destruct Hst as [Hst | Hst]; [| apply everywhere_saved; assumption].
    split; [exact Hv' |]. rewrite Hst. exact Hs.
  - rewrite reload_run. destruct (ls_urls w) as [us |] eqn:E.
    + specialize (Hs us eq_refl). split.
      * apply List.Forall_forall. intros u Hin.
        apply list_elem_of_In, url_values_elem in Hin as (l0 & _ & Hlu).
        change (heap (foldl Spec.load_one (Spec.new_page w) us) !! l0
                = Some u) in Hlu.
        rewrite load_heap in Hlu. cbn [Spec.new_page heap app] in Hlu.
        rewrite List.Forall_forall in Hs. apply Hs.
        apply list_elem_of_In. eapply list_elem_of_lookup_2, Hlu.
      * intros us'.
        change (ls_urls (foldl Spec.load_one (Spec.new_page w) us)
                = Some us' -> Forall P us').
        rewrite load_one_store. cbn [Spec.new_page ls_urls]. rewrite E.
        intros [= <-]. exact Hs.
    + split; [constructor |]. cbn [Spec.new_page ls_urls]. rewrite E.
      discriminate.
Qed.

Lemma everywhere_run_all (ops : list Spec.op) :
  forall w, everywhere P w -> everywhere P (Spec.run_all w ops).
Proof.
  induction ops as [| o ops IH]; intros w H; [exact H |].
  cbn [Spec.run_all foldl]. apply IH, everywhere_run, H.
Qed.

End RecordInvariant.

Lemma everywhere_initial (P : ShortenedURL.t -> Prop) :
  Registry.everywhere P Spec.initial.
Proof. split; [constructor | discriminate]. Qed.

(** X8: the counter of a record is the number of its click events.
    When every record of the registry and every stored record has a
    [clickCount] equal to the length of its [clicks], as in the empty
    registry, this stays so through every operation and every page load:
    a new record has no click and counts none, a click adds one event
    and one to the counter, and the sweep, the deletion and the store
    leave both alone. *)
Theorem clicks_are_counted (w0 : World) (ops : list Spec.op) :
  Registry.everywhere Registry.clicks_counted w0 ->
  Registry.everywhere Registry.clicks_counted (Spec.run_all w0 ops).
Proof.
  apply everywhere_run_all.
  - intros. reflexivity.
  - intros ev u H. unfold Registry.clicks_counted, Spec.clicked in *. cbn.
    rewrite length_app. cbn [length]. lia.
  - intros now u H. unfold Spec.swept. destruct (_ && _); exact H.
Qed.

(** From the empty registry: the sample registry after a click. *)
Lemma clicks_are_counted_clicked :
  Registry.everywhere Registry.clicks_counted Scenario.w_clicked.
Proof.
  apply (clicks_are_counted Spec.initial
           [Scenario.shorten_abc;
            Scenario.click_abc (Sample.t0 + 1) "a1b2c3d4e"]).
  apply everywhere_initial.
Defined.

(** *** Ids that collide *)

(** X9: ids are not compared. When [shortenUrl] builds an id that is in
    use (the clock reading and the random suffix of an earlier call) for
    a code that is free, it returns as usual; the new record takes the
    place of the earlier one under that id, while the short code of the
    earlier record stays in the index: from then on a lookup of the
    earlier code answers with the new record, whose [originalUrl] and
    short code are those of the new call. *)
Theorem id_collision (originalUrl : string)
    (customShortCode : option string) (expiryMinutes : option Z)
    (env : ShortenEnv) (w : World) (earlier : string) (t : Z) :
  shortCodeToId w !! earlier = Some (Spec.new_id env) ->
  shortCodeToId w !! Spec.resolved customShortCode env = None ->
  (Spec.active_count w < 5)%nat ->
  t <= Spec.deadline expiryMinutes env ->
  exists l w' r,
    shortenUrl originalUrl customShortCode expiryMinutes env w = (Ok l, w') /\
    getUrlByShortCode w' earlier t = Some l /\
    heap w' !! l = Some r /\
    ShortenedURL.originalUrl r = originalUrl /\
    ShortenedURL.shortCode r = Spec.resolved customShortCode env /\
    ShortenedURL.shortCode r <> earlier.
Proof.
  intros Hold Hfree Hcount Ht.
  destruct (shortenUrl_success originalUrl customShortCode expiryMinutes
              env w Hfree Hcount)
    as (r & w' & Run & Hh & Hu & Hc & _ & Ho & Hs & _ & He & Ha & _).
  assert (Hne : Spec.resolved customShortCode env <> earlier)
    by (intros E; rewrite E in Hfree; congruence).
  exists (length (heap w)), w', r. split; [exact Run |].
  assert (Hl : heap w' !! length (heap w) = Some r)
    by (rewrite Hh; apply list_lookup_middle; reflexivity).
  split; [| split; [exact Hl |]; split; [exact Ho |]; split; [exact Hs |];
           rewrite Hs; exact Hne].
  unfold getUrlByShortCode.
  rewrite Hc, lookup_insert_ne, Hold by exact Hne.
  rewrite new_id_truthy. cbn [negb].
  rewrite Hu, JsMapFacts.get_set_eq, Hl, Ha. cbn [negb orb].
  rewrite He. apply Z.ltb_ge in Ht. rewrite Ht. reflexivity.
Qed.

(** The sample registry, and a second call within the same millisecond
    that draws the same suffix: [abc] then leads to the second URL. *)
Lemma id_collision_abc :
  exists l w' r,
    shortenUrl "https://y.com" (Some "xyz") (Some 30)
      (Sample.env_at Sample.t0 "k3j9x2m1q") Sample.w_abc = (Ok l, w') /\
    getUrlByShortCode w' "abc" Sample.t0 = Some l /\
    heap w' !! l = Some r /\
    ShortenedURL.originalUrl r = "https://y.com" /\
    ShortenedURL.shortCode r = "xyz" /\
    ShortenedURL.shortCode r <> "abc".
Proof.
  apply (id_collision "https://y.com" (Some "xyz") (Some 30)
           (Sample.env_at Sample.t0 "k3j9x2m1q") Sample.w_abc "abc"
           Sample.t0).
  - vm_compute. reflexivity.
  - vm_compute. reflexivity.
  - vm_compute. lia.
  - unfold Spec.deadline. cbn. lia.
Defined.

End RegistryFacts.

(** ** Validation: verdicts *)

Module ValidationLaws.

Import Validation ValidationResult ValidationFacts.

Lemma logged_only_refl (w : World) : Registry.logged_only w w.
Proof. unfold Registry.logged_only. repeat split; reflexivity. Qed.

Lemma logged_only_trans (w1 w2 w3 : World) :
  Registry.logged_only w1 w2 -> Registry.logged_only w2 w3 ->
  Registry.logged_only w1 w3.
Proof.
  unfold Registry.logged_only.
  intros (H1 & A1 & U1 & C1 & S1 & L1) (H2 & A2 & U2 & C2 & S2 & L2).
  repeat split; try congruence. etransitivity; eassumption.
Qed.

Lemma logged_only_log (level : LogEvent.level_t) (action : string)
    (w : World) :
  Registry.logged_only w (snd (Logger.log level action w)).
Proof.
  unfold Registry.logged_only. repeat split.
  rewrite LoggerFacts.log_appends. apply prefix_app_r. reflexivity.
Qed.

Lemma includes_http (protocol : string) :
  Str.includes ["http:"; "https:"] protocol = true <->
  protocol = "http:" \/ protocol = "https:".
Proof.
  rewrite StrFacts.includes_spec. cbn [In]. split.
  - intros [<- | [<- | []]]; auto.
  - intros [-> | ->]; auto.
Qed.

Section Platform.

Variable URL_protocol : string -> option string.

(** [validateUrl] returns, writes to the log only, and accepts the URLs
    of [Rules.url_ok]. *)
Lemma validateUrl_cases (url : string) (w : World) :
  exists res w',
    validateUrl URL_protocol url w = (Ok res, w') /\
    Registry.logged_only w w' /\
    (isValid res = true <-> Rules.url_ok URL_protocol url).
Proof.
  unfold Rules.url_ok, validateUrl.
  destruct (Str.truthy (Str.trim url)) eqn:T; cbn [negb].
  - apply StrFacts.trim_truthy_not_blank in T.
    destruct (URL_protocol url) as [protocol |] eqn:P.
    + pose proof (maliciousPatterns_spec url) as MS.
      pose proof (includes_http protocol) as IH.
      destruct (existsb (fun pattern => RegExp.test pattern url)
                        maliciousPatterns) eqn:M;
        destruct (Str.includes ["http:"; "https:"] protocol) eqn:Inc;
        (eexists _, _; split; [reflexivity |]);
        (split; [unfold Registry.logged_only; cbn; repeat split;
                 rewrite <- ?app_assoc; apply prefix_app_r; reflexivity |]);
        cbn [isValid errors push_if negb app length Nat.eqb];
        (split; [try discriminate | try reflexivity]).
      * intros (_ & _ & N). exfalso. apply N, MS. reflexivity.
      * intros (_ & _ & N). exfalso. apply N, MS. reflexivity.
      * intros _. split; [exact T |].
        split; [destruct IH as [IH _]; destruct (IH eq_refl) as [-> | ->];
                auto |].
        intros N. apply MS in N. discriminate.
      * intros (_ & [[= E] | [= E]] & _); apply IH; auto.
    + eexists _, _. split; [reflexivity |].
      split; [unfold Registry.logged_only; cbn; repeat split;
              apply prefix_app_r; reflexivity |].
      cbn [isValid errors app length Nat.eqb].
      split; [discriminate |]. intros (_ & [? | ?] & _); discriminate.
  - apply StrFacts.trim_truthy in T.
    eexists _, _. split; [reflexivity |].
    split; [unfold Registry.logged_only; cbn; repeat split;
            apply prefix_app_r; reflexivity |].
    cbn [isValid errors app length Nat.eqb].
    split; [discriminate |]. intros (N & _). contradiction.
Qed.

(** X10: the verdict of [validateUrl], whatever the platform's parser
    answers. The call returns and writes to the log only, its last event
    being URL_VALIDATION. The URL is valid exactly when it is not blank,
    the parser gives it the protocol [http:] or [https:], and none of
    javascript:, data:, vbscript:, file: occurs in it up to case. A blank
    URL gets the error that it is required and no other; a URL that does
    not parse gets the format error and no other; a parsed URL with
    another protocol gets the protocol error first. *)
Theorem validateUrl_verdict (url : string) (w : World) :
  exists res w',
    validateUrl URL_protocol url w = (Ok res, w') /\
    Registry.logged_only w w' /\
    last (logs w') = Some (LogEvent.mk LogEvent.INFO "URL_VALIDATION") /\
    (isValid res = true <-> errors res = []) /\
    (isValid res = true <->
     ~ Spec.blank url /\
     (URL_protocol url = Some "http:" \/ URL_protocol url = Some "https:") /\
     ~ Exists (fun p => Spec.occurs_ignore_case p url)
              Spec.dangerous_schemes) /\
    (Spec.blank url -> errors res = [E_required]) /\
    (~ Spec.blank url -> URL_protocol url = None ->
     errors res = [E_format]) /\
    (forall protocol,
       ~ Spec.blank url -> URL_protocol url = Some protocol ->
       protocol <> "http:" -> protocol <> "https:" ->
       head (errors res) = Some E_protocol).
Proof.
  unfold validateUrl.
  destruct (Str.truthy (Str.trim url)) eqn:T; cbn [negb].
  - apply StrFacts.trim_truthy_not_blank in T.
    destruct (URL_protocol url) as [protocol |] eqn:P.
    + pose proof (maliciousPatterns_spec url) as MS.
      pose proof (includes_http protocol) as IH.
      destruct (existsb (fun pattern => RegExp.test pattern url)
                        maliciousPatterns) eqn:M;
        destruct (Str.includes ["http:"; "https:"] protocol) eqn:Inc;
        (eexists _, _; split; [reflexivity |]);
        (split; [unfold Registry.logged_only; cbn; repeat split;
                 rewrite <- ?app_assoc; apply prefix_app_r; reflexivity |]);
        (split; [cbn; rewrite ?last_snoc; reflexivity |]);
        cbn [isValid errors push_if negb app length Nat.eqb].
      * split; [split; discriminate |]. split.
        { split; [discriminate |]. intros (_ & _ & N). exfalso. apply N.
          apply MS. reflexivity. }
        split; [tauto |]. split; [discriminate |].
        intros p _ [= <-] N1 N2. exfalso.
        destruct IH as [IH _]. destruct (IH eq_refl); congruence.
      * split; [split; discriminate |]. split.
        { split; [discriminate |]. intros (_ & _ & N). exfalso. apply N.
          apply MS. reflexivity. }
        split; [tauto |]. split; [discriminate |].
        intros p _ _ _ _. reflexivity.
      * split; [split; reflexivity |]. split.
        { split; [| reflexivity]. intros _. split; [exact T |].
          split; [destruct IH as [IH _]; destruct (IH eq_refl) as [-> | ->];
                  auto |].
          intros N. apply MS in N. discriminate. }
        split; [tauto |]. split; [discriminate |].
        intros p _ [= <-] N1 N2. exfalso.
        destruct IH as [IH _]. destruct (IH eq_refl); congruence.
      * split; [split; discriminate |]. split.
        { split; [discriminate |]. intros (_ & [[= E] | [= E]] & _);
            apply IH; auto. }
        split; [tauto |]. split; [discriminate |].
        intros p _ _ _ _. reflexivity.
    + eexists _, _. split; [reflexivity |].
      split; [unfold Registry.logged_only; cbn; repeat split;
              apply prefix_app_r; reflexivity |].
      split; [cbn; rewrite last_snoc; reflexivity |].
      cbn [isValid errors app length Nat.eqb].
      split; [split; discriminate |]. split.
      { split; [discriminate |]. intros (_ & [? | ?] & _); discriminate. }
      split; [tauto |]. split; [reflexivity |]. intros p _ [=].
  - apply StrFacts.trim_truthy in T.
    eexists _, _. split; [reflexivity |].
    split; [unfold Registry.logged_only; cbn; repeat split;
            apply prefix_app_r; reflexivity |].
    split; [cbn; rewrite last_snoc; reflexivity |].
    cbn [isValid errors app length Nat.eqb].
    split; [split; discriminate |]. split.
    { split; [discriminate |]. intros (N & _). contradiction. }
    split; [reflexivity |]. split; [tauto |]. intros p N. contradiction.
Qed.

End Platform.

(** With the scheme as the parser reads it: an https URL, a URL of
    another scheme, white space, and a string without a scheme. *)
Lemma validateUrl_verdict_samples :
  fst (validateUrl scheme_of "https://example.com/a" empty_world)
  = Ok (mk true []) /\
  fst (validateUrl scheme_of "ftp://example.com/a" empty_world)
  = Ok (mk false [E_protocol]) /\
  errors <$> (match fst (validateUrl scheme_of "   " empty_world) with
              | Ok res => Some res
              | Throw _ => None
              end) = Some [E_required] /\
  fst (validateUrl scheme_of "example.com" empty_world)
  = Ok (mk false [E_format]).
Proof.
  split; [vm_compute; reflexivity |]. split; [vm_compute; reflexivity |].
  split; [| vm_compute; reflexivity].
  destruct (validateUrl_verdict scheme_of "   " empty_world)
    as (res & w' & Run & _ & _ & _ & _ & B & _).
  rewrite Run. cbn [fst fmap option_fmap option_map]. f_equal. apply B.
  repeat constructor.
Defined.

(** The cases of [validateShortCode]. *)
Lemma validateShortCode_cases (shortCode : string) (w : World) :
  exists res w',
    validateShortCode shortCode w = (Ok res, w') /\
    Registry.logged_only w w' /\
    (isValid res = true <-> errors res = []) /\
    (isValid res = true <-> Spec.blank shortCode \/ Rules.code_ok shortCode).
Proof.
  unfold validateShortCode.
  destruct (Str.truthy (Str.trim shortCode)) eqn:T.
  - eexists _, _. split; [reflexivity |].
    split; [apply logged_only_log |]. cbn [errors isValid].
    apply StrFacts.trim_truthy_not_blank in T.
    assert (Hne : shortCode <> EmptyString).
    { intros ->. apply T, StrFacts.blank_nil. }
    set (b1 := (String.length shortCode <? 3)%nat
               || (20 <? String.length shortCode)%nat).
    set (b2 := negb (RegExp.test shortCodePattern shortCode)).
    set (b3 := Str.includes reservedWords (Str.toLowerCase shortCode)).
    assert (B1 : b1 = false <-> (3 <= String.length shortCode <= 20)%nat).
    { unfold b1. rewrite orb_false_iff, !Nat.ltb_ge. tauto. }
    assert (B2 : b2 = false <->
                 forall c, In c (Str.to_list shortCode) ->
                           Spec.code_char c = true).
    { unfold b2. rewrite negb_false_iff, shortCodePattern_spec. tauto. }
    assert (B3 : b3 = false <->
                 ~ exists word, In word reservedWords
                                /\ Spec.eq_ignore_case shortCode word).
    { rewrite <- reserved_spec. fold b3. destruct b3; split; congruence. }
    unfold Rules.code_ok. rewrite <- B1, <- B2, <- B3.
    clearbody b1 b2 b3. clear B1 B2 B3.
    destruct b1, b2, b3; cbn [push_if app length Nat.eqb];
      (split; [split; congruence |]); split; try discriminate;
      try (intros [? | (? & ? & ?)]; [contradiction | discriminate]);
      auto.
  - eexists _, _. split; [reflexivity |].
    split; [apply logged_only_log |]. cbn [errors isValid length Nat.eqb].
    apply StrFacts.trim_truthy in T. split; [tauto | tauto].
Qed.

(** *** Codes that the service generates *)

Lemma alphanumeric_not_space (c : ascii) :
  Spec.alphanumeric c = true -> Str.is_space c = false.
Proof.
  destruct c as [[] [] [] [] [] [] [] []]; vm_compute; congruence.
Qed.

Lemma alphanumeric_code_char (c : ascii) :
  Spec.alphanumeric c = true -> Spec.code_char c = true.
Proof. unfold Spec.code_char. intros ->. reflexivity. Qed.

Lemma toLowerCase_length (s : string) :
  String.length (Str.toLowerCase s) = String.length s.
Proof.
  induction s as [| c s IH]; [reflexivity |].
  cbn [Str.toLowerCase String.length]. rewrite IH. reflexivity.
Qed.

(** X11: every code that [generateShortCode] builds, from draws that
    are indexes of its alphabet, passes [validateShortCode] with no
    error: it has six characters, all of them letters or digits, it is
    not white space and it is none of the reserved words. A generated
    code can be given back as a custom code. *)
Theorem generated_code_passes (draw : nat -> nat) (w : World) :
  (forall i, (i < 6)%nat -> (draw i < 62)%nat) ->
  fst (validateShortCode (URLService.generateShortCode draw) w)
  = Ok (mk true []) /\
  Registry.logged_only w
    (snd (validateShortCode (URLService.generateShortCode draw) w)).
Proof.
  intros Hd.
  destruct (URLServiceFacts.generateShortCode_spec draw Hd) as (L & A & _).
  set (code := URLService.generateShortCode draw) in *.
  assert (Hne : code <> EmptyString) by (intros E; rewrite E in L;
                                          discriminate).
  assert (T : Str.truthy (Str.trim code) = true).
  { apply StrFacts.trim_truthy_not_blank. unfold Spec.blank. intros B.
    destruct (Str.to_list code) as [| c cs] eqn:E.
    - apply StrFacts.to_list_nil in E. contradiction.
    - inversion A as [| ? ? Ac _]; subst. inversion B as [| ? ? Bc _]; subst.
      rewrite (alphanumeric_not_space c Ac) in Bc. discriminate. }
  assert (R : RegExp.test shortCodePattern code = true).
  { apply shortCodePattern_spec. split; [exact Hne |]. intros c Hc.
    apply alphanumeric_code_char. rewrite List.Forall_forall in A.
    apply A, Hc. }
  assert (W : Str.includes reservedWords (Str.toLowerCase code) = false).
  { destruct (Str.includes reservedWords (Str.toLowerCase code)) eqn:E;
      [| reflexivity].
    apply reserved_spec in E as (word & Hw & Hcase).
    unfold Spec.eq_ignore_case in Hcase.
    apply (f_equal String.length) in Hcase.
    rewrite !toLowerCase_length, L in Hcase.
    cbn [reservedWords In] in Hw.
    destruct Hw as [<- | [<- | [<- | [<- | [<- | [<- | []]]]]]];
      discriminate Hcase. }
  unfold validateShortCode. rewrite T, L, R, W.
  split; [reflexivity |]. apply logged_only_log.
Qed.

(** The code of the sample draws. *)
Lemma generated_code_passes_sample :
  fst (validateShortCode "dkryFM" empty_world) = Ok (mk true []).
Proof.
  apply (generated_code_passes (fun i => (7 * i + 3)%nat) empty_world).
  intros i Hi. lia.
Defined.

End ValidationLaws.

(** ** The redirection page *)

Module RedirectFacts.

Import URLService URLServiceFacts RedirectHandler.

(** A lookup that succeeded, repeated at another instant. *)
Lemma lookup_other_instant (w : World) (shortCode : string) (t t' : Z)
    (l : loc) (u : ShortenedURL.t) :
  getUrlByShortCode w shortCode t = Some l -> heap w !! l = Some u ->
  getUrlByShortCode w shortCode t'
  = if ShortenedURL.expiresAt u <? t' then None else Some l.
Proof.
  intros G Hl.
  destruct (getUrl_Some_inv _ _ _ _ G) as (id & u' & Hc & Ht & Hg & Hl' & A & _).
  assert (u' = u) as -> by congruence.
  unfold getUrlByShortCode. rewrite Hc, Ht, Hg, Hl, A. reflexivity.
Qed.

Lemma recordClick_returns (shortCode userAgent referrer : string)
    (env : ClickEnv) (w : World) :
  exists b, recordClick shortCode userAgent referrer env w
            = (Ok b, snd (recordClick shortCode userAgent referrer env w)).
Proof.
  destruct (getUrlByShortCode w shortCode (c_lookupDate env)) as [l |] eqn:G.
  - destruct (getUrl_Some_inv _ _ _ _ G) as (i & u & _ & _ & _ & Hl & _).
    destruct (recordClick_present shortCode userAgent referrer env w l u
                G Hl) as (ev & w' & -> & _).
    exists true. reflexivity.
  - rewrite recordClick_absent by exact G. exists false. reflexivity.
Qed.

Lemma effect_run (shortCode : string) (env : Env) (w : World) :
  Str.truthy shortCode = true ->
  effect (Some shortCode) env w
  = match getUrlByShortCode w shortCode (e_lookupDate env) with
    | None =>
        (Ok (not_found, None), snd (Logger.warn "REDIRECT_NOT_FOUND" w))
    | Some l =>
        if stale w l (e_newDate env)
        then (Ok (expired, None), snd (Logger.warn "REDIRECT_EXPIRED" w))
        else (Ok (redirecting, Some l),
              snd (recordClick shortCode (e_userAgent env) (e_referrer env)
                     (e_click env) w))
    end.
Proof.
  intros T. unfold effect. rewrite T. cbn [negb].
  unfold bind at 1. unfold gets at 1.
  destruct (getUrlByShortCode w shortCode (e_lookupDate env)) as [l |];
    [| reflexivity].
  unfold bind at 1. unfold gets at 1.
  destruct (stale w l (e_newDate env)); [reflexivity |].
  unfold bind at 1.
  destruct (recordClick_returns shortCode (e_userAgent env) (e_referrer env)
              (e_click env) w) as (b & ->).
  reflexivity.
Qed.

(** X12: what a visit of [/shortCode] comes to. The effect returns.
    Without a code it shows not-found and writes nothing. With a code
    that the lookup refuses (unknown, deactivated or past its deadline)
    it shows not-found, starts no redirection, logs one warning and
    leaves the registry alone. With a code that the lookup finds, it
    shows expired, without redirection or click, exactly when the
    deadline of the record lies before the second reading of the clock;
    otherwise it shows redirecting and the timer will lead to the
    [originalUrl] of the record found; the click is counted exactly when
    the third reading of the clock, that of [recordClick], is not past
    the deadline either. When the clock does not advance between the
    lookup and the test, expired is never shown. *)
Theorem redirect_outcome (shortCode : string) (env : Env) (w : World) :
  effect None env w = (Ok (not_found, None), w) /\
  effect (Some EmptyString) env w = (Ok (not_found, None), w) /\
  (Str.truthy shortCode = true ->
   exists status target w',
     effect (Some shortCode) env w = (Ok (status, target), w') /\
     (getUrlByShortCode w shortCode (e_lookupDate env) = None ->
      status = not_found /\ target = None /\
      Registry.logged_only w w' /\
      logs w' = logs w ++ [LogEvent.mk LogEvent.WARN "REDIRECT_NOT_FOUND"]) /\
     (forall l u,
        getUrlByShortCode w shortCode (e_lookupDate env) = Some l ->
        heap w !! l = Some u ->
        (ShortenedURL.expiresAt u < e_newDate env ->
         status = expired /\ target = None /\
         Registry.logged_only w w' /\
         logs w' = logs w ++ [LogEvent.mk LogEvent.WARN "REDIRECT_EXPIRED"]) /\
        (e_newDate env <= ShortenedURL.expiresAt u ->
         status = redirecting /\ target = Some l /\
         destination w' l = Some (ShortenedURL.originalUrl u) /\
         exists u',
           heap w' !! l = Some u' /\
           ShortenedURL.clickCount u'
           = ShortenedURL.clickCount u
             + (if ShortenedURL.expiresAt u <? c_lookupDate (e_click env)
                then 0 else 1))) /\
     (e_newDate env <= e_lookupDate env -> status <> expired)).
Proof.
  split; [reflexivity |]. split; [reflexivity |].
  intros T. rewrite (effect_run shortCode env w T).
  destruct (getUrlByShortCode w shortCode (e_lookupDate env)) as [l |] eqn:G.
  - destruct (getUrl_Some_inv _ _ _ _ G) as (id & u & _ & _ & _ & Hl & A & X).
    unfold stale. rewrite Hl, A. cbn [negb orb].
    destruct (ShortenedURL.expiresAt u <? e_newDate env) eqn:X2.
    + eexists _, _, _. split; [reflexivity |]. split; [discriminate |].
      apply Z.ltb_lt in X2. apply Z.ltb_ge in X. split.
      * intros l' u' [= <-] Hl'. assert (u' = u) as -> by congruence.
        split; [| intros ?; lia]. intros _.
        split; [reflexivity |]. split; [reflexivity |].
        split; [apply ValidationLaws.logged_only_log | reflexivity].
      * intros ?. lia.
    + eexists _, _, _. split; [reflexivity |]. split; [discriminate |].
      apply Z.ltb_ge in X2. split; [| discriminate].
      intros l' u' [= <-] Hl'. assert (u' = u) as -> by congruence.
      split; [intros ?; lia |]. intros _.
      split; [reflexivity |]. split; [reflexivity |].
      pose proof (lookup_other_instant w shortCode _
                    (c_lookupDate (e_click env)) l u G Hl) as G2.
      unfold destination.
      destruct (ShortenedURL.expiresAt u <? c_lookupDate (e_click env)).
      * rewrite recordClick_absent by exact G2. cbn [snd]. rewrite Hl.
        split; [reflexivity |]. exists u. split; [reflexivity | lia].
      * destruct (recordClick_present shortCode (e_userAgent env)
                    (e_referrer env) (e_click env) w l u G2 Hl)
          as (ev & w' & -> & _ & Hh & _).
        cbn [snd]. rewrite Hh.
        rewrite list_lookup_insert_eq by (eapply lookup_lt_Some; eauto).
        split; [reflexivity |]. eexists. split; reflexivity.
  - eexists _, _, _. split; [reflexivity |]. split.
    + intros _. split; [reflexivity |]. split; [reflexivity |].
      split; [apply ValidationLaws.logged_only_log | reflexivity].
    + split; [discriminate | discriminate].
Qed.

(** A visit of [/abc] on the sample registry, and one of a code that is
    not registered. *)
Lemma redirect_outcome_abc :
  (exists w',
     effect (Some "abc") Scenario.visit_env Sample.w_abc
     = (Ok (redirecting, Some 0%nat), w') /\
     destination w' 0%nat = Some "https://x.com") /\
  fst (effect (Some "nope") Scenario.visit_env Sample.w_abc)
  = Ok (not_found, None).
Proof.
  split.
  - destruct (redirect_outcome "abc" Scenario.visit_env Sample.w_abc)
      as (_ & _ & H).
    destruct (H eq_refl) as (st & tg & w' & Run & _ & Hf & _).
    destruct (Hf 0%nat Scenario.u_abc) as [_ Hr];
      [vm_compute; reflexivity | vm_compute; reflexivity |].
    destruct Hr as (-> & -> & Hd & _); [cbn; lia |].
    exists w'. split; [exact Run | exact Hd].
  - destruct (redirect_outcome "nope" Scenario.visit_env Sample.w_abc)
      as (_ & _ & H).
    destruct (H eq_refl) as (st & tg & w' & Run & Hn & _).
    destruct Hn as (-> & -> & _); [vm_compute; reflexivity |].
    rewrite Run. reflexivity.
Defined.

(** X13: from the form to the destination. When [shortenUrl] has
    returned a record, a visit of its short code whose three readings of
    the clock are not past the deadline shows redirecting; the timer
    leads to the URL that was submitted; and the record, which had no
    click, has one, with the user agent and the referrer of the visit
    and the instant of the click. *)
Theorem shorten_then_visit (originalUrl : string)
    (customShortCode : option string) (expiryMinutes : option Z)
    (senv : ShortenEnv) (w w1 : World) (l : loc) (env : Env) :
  shortenUrl originalUrl customShortCode expiryMinutes senv w = (Ok l, w1) ->
  Str.truthy (Spec.resolved customShortCode senv) = true ->
  e_lookupDate env <= Spec.deadline expiryMinutes senv ->
  e_newDate env <= Spec.deadline expiryMinutes senv ->
  c_lookupDate (e_click env) <= Spec.deadline expiryMinutes senv ->
  exists w2 r ev,
    effect (Some (Spec.resolved customShortCode senv)) env w1
    = (Ok (redirecting, Some l), w2) /\
    destination w2 l = Some originalUrl /\
    heap w2 !! l = Some r /\
    ShortenedURL.clickCount r = 1 /\
    ShortenedURL.clicks r = [ev] /\
    ClickEvent.userAgent ev = e_userAgent env /\
    ClickEvent.referrer ev = e_referrer env /\
    ClickEvent.timestamp ev = c_newDate (e_click env).
Proof.
  intros Run T D1 D2 D3.
  destruct (shortenUrl_returns _ _ _ _ _ _ _ Run) as [Free L].
  destruct (shortenUrl_success originalUrl customShortCode expiryMinutes
              senv w Free L)
    as (r & w' & Run' & Hh & Hu & Hc & _ & Ho & _ & _ & He & Ha & Hn & Hk & _).
  rewrite Run in Run'. injection Run' as -> <-.
  assert (Hl : heap w1 !! length (heap w) = Some r)
    by (rewrite Hh; apply list_lookup_middle; reflexivity).
  assert (G : forall t, t <= Spec.deadline expiryMinutes senv ->
                        getUrlByShortCode w1
                          (Spec.resolved customShortCode senv) t
                        = Some (length (heap w))).
  { intros t Ht.
    apply (lookup_new_record w1 (heap w) r (urls w) (shortCodeToId w)
             _ (Spec.new_id senv)); auto using new_id_truthy.
    rewrite He. exact Ht. }
  rewrite (effect_run _ env w1 T), (G _ D1).
  unfold stale. rewrite Hl, Ha, He. cbn [negb orb].
  apply Z.ltb_ge in D2. rewrite D2.
  destruct (recordClick_present (Spec.resolved customShortCode senv)
              (e_userAgent env) (e_referrer env) (e_click env) w1
              (length (heap w)) r (G _ D3) Hl)
    as (ev & w2 & -> & -> & Hh2 & _).
  cbn [snd].
  assert (Hl2 : heap w2 !! length (heap w)
                = Some (Spec.clicked
                          (ClickEvent.mk
                             ("click_" +:+ pretty (c_dateNow (e_click env))
                              +:+ "_" +:+ c_random (e_click env))
                             (c_newDate (e_click env)) (e_userAgent env)
                             "xxx.xxx.xxx.xxx" (e_referrer env)
                             "Hyderabad/Secunderabad") r)).
  { rewrite Hh2. apply list_lookup_insert_eq. eapply lookup_lt_Some, Hl. }
  eexists w2, _, _. split; [reflexivity |].
  split; [unfold destination; rewrite Hl2; cbn; rewrite Ho; reflexivity |].
  split; [exact Hl2 |]. cbn. rewrite Hn, Hk. repeat split.
Qed.

(** Scenario A with a visit: the generated code, visited one second
    after the record was made. *)
Lemma shorten_then_visit_generated :
  exists w2 r ev,
    effect (Some "dkryFM") Scenario.visit_env Sample.w_gen
    = (Ok (redirecting, Some 0%nat), w2) /\
    destination w2 0%nat = Some "https://example.com/a" /\
    heap w2 !! 0%nat = Some r /\
    ShortenedURL.clickCount r = 1 /\
    ShortenedURL.clicks r = [ev] /\
    ClickEvent.userAgent ev = "Mozilla/5.0" /\
    ClickEvent.referrer ev = "https://ref.example" /\
    ClickEvent.timestamp ev = Sample.t0 + 1000.
Proof.
  apply (shorten_then_visit "https://example.com/a" None (Some 1)
           (Sample.env_at Sample.t0 "k3j9x2m1q") empty_world Sample.w_gen
           0%nat Scenario.visit_env).
  - vm_compute. reflexivity.
  - reflexivity.
  - unfold Spec.deadline. cbn. lia.
  - unfold Spec.deadline. cbn. lia.
  - unfold Spec.deadline. cbn. lia.
Defined.

End RedirectFacts.

(** ** The form of the shortener page *)

Module FormFacts.

Import URLService URLServiceFacts Validation.
Import ValidationLaws.

Lemma note_empty (field : string) (validation : ValidationResult.t)
    (m : gmap string string) :
  URLShortener.note field validation m = ∅ <->
  ValidationResult.isValid validation = true /\ m = ∅.
Proof.
  unfold URLShortener.note. destruct (ValidationResult.isValid validation); cbn [negb].
  - tauto.
  - split; [intros H; apply insert_non_empty in H; contradiction |].
    intros [? _]. discriminate.
Qed.

Lemma note_lookup (field : string) (validation : ValidationResult.t)
    (m : gmap string string) :
  m !! field = None ->
  (URLShortener.note field validation m !! field = None <->
   ValidationResult.isValid validation = true).
Proof.
  intros Hm. unfold URLShortener.note.
  destruct (ValidationResult.isValid validation); cbn [negb].
  - tauto.
  - rewrite lookup_insert_eq. split; discriminate.
Qed.

Lemma note_lookup_ne (field k : string) (validation : ValidationResult.t)
    (m : gmap string string) :
  k <> field -> URLShortener.note field validation m !! k = m !! k.
Proof.
  intros Hne. unfold URLShortener.note.
  destruct (ValidationResult.isValid validation); cbn [negb];
    [reflexivity |].
  apply lookup_insert_ne. congruence.
Qed.

Lemma truthy_false (s : string) : Str.truthy s = false <-> s = EmptyString.
Proof. destruct s; cbn; split; congruence. Qed.

Section Platform.

Variable URL_protocol : string -> option string.

(** [validateForm], field by field. *)
Lemma validateForm_cases (st : URLShortener.State) (w : World) :
  exists ok errs w',
    URLShortener.validateForm URL_protocol st w = (Ok (ok, errs), w') /\
    Registry.logged_only w w' /\
    (ok = true <-> errs = ∅) /\
    (ok = true <-> URLShortener.form_ok URL_protocol st) /\
    (errs !! "originalUrl" = None <->
     Rules.url_ok URL_protocol (URLShortener.originalUrl st)) /\
    (errs !! "customShortCode" = None <->
     Spec.blank (URLShortener.customShortCode st) \/ Rules.code_ok (URLShortener.customShortCode st)) /\
    (errs !! "expiryMinutes" = None <-> 1 <= URLShortener.expiryMinutes st <= 43200) /\
    errs !! "submit" = None.
Proof.
  unfold URLShortener.validateForm. unfold bind at 1.
  destruct (validateUrl_cases URL_protocol (URLShortener.originalUrl st) w)
    as (v1 & w1 & -> & L1 & V1).
  pose proof (ValidationFacts.validateExpiryMinutes_spec (URLShortener.expiryMinutes st))
    as V3.
  set (v3 := validateExpiryMinutes (URLShortener.expiryMinutes st)) in *.
  assert (Done : forall (v2ok : bool) (errs2 : gmap string string) w2,
    Registry.logged_only w w2 ->
    (errs2 = ∅ <-> ValidationResult.isValid v1 = true /\ v2ok = true) ->
    (errs2 !! "originalUrl" = None <-> ValidationResult.isValid v1 = true) ->
    (errs2 !! "customShortCode" = None <-> v2ok = true) ->
    errs2 !! "expiryMinutes" = None ->
    errs2 !! "submit" = None ->
    (v2ok = true <->
     Spec.blank (URLShortener.customShortCode st) \/ Rules.code_ok (URLShortener.customShortCode st)) ->
    exists ok errs w',
      (Ok ((size (URLShortener.note "expiryMinutes" v3 errs2) =? 0)%nat,
           URLShortener.note "expiryMinutes" v3 errs2), w2) = (Ok (ok, errs), w') /\
      Registry.logged_only w w' /\
      (ok = true <-> errs = ∅) /\
      (ok = true <-> URLShortener.form_ok URL_protocol st) /\
      (errs !! "originalUrl" = None <->
       Rules.url_ok URL_protocol (URLShortener.originalUrl st)) /\
      (errs !! "customShortCode" = None <->
       Spec.blank (URLShortener.customShortCode st)
       \/ Rules.code_ok (URLShortener.customShortCode st)) /\
      (errs !! "expiryMinutes" = None <-> 1 <= URLShortener.expiryMinutes st <= 43200) /\
      errs !! "submit" = None).
  { intros v2ok errs2 w2 L2 E2 O2 C2 X2 S2 V2.
    eexists _, _, _. split; [reflexivity |]. split; [exact L2 |].
    assert (Sz : (size (URLShortener.note "expiryMinutes" v3 errs2) =? 0)%nat = true
                 <-> URLShortener.note "expiryMinutes" v3 errs2 = ∅)
      by (rewrite Nat.eqb_eq; apply map_size_empty_iff).
    split; [exact Sz |]. split.
    - rewrite Sz, note_empty, E2, V3, V1, V2. unfold URLShortener.form_ok.
      set (A := Rules.url_ok URL_protocol (URLShortener.originalUrl st)).
      set (B := Rules.code_ok (URLShortener.customShortCode st)).
      set (C := 1 <= URLShortener.expiryMinutes st <= 43200).
      clearbody A B C. tauto.
    - rewrite (note_lookup_ne _ "originalUrl") by discriminate.
      rewrite (note_lookup_ne _ "customShortCode") by discriminate.
      rewrite (note_lookup_ne _ "submit") by discriminate.
      rewrite (note_lookup _ _ _ X2), O2, C2, V1, V2, V3.
      set (A := Rules.url_ok URL_protocol (URLShortener.originalUrl st)).
      set (B := Rules.code_ok (URLShortener.customShortCode st)).
      set (C := 1 <= URLShortener.expiryMinutes st <= 43200).
      clearbody A B C. tauto. }
  destruct (Str.truthy (URLShortener.customShortCode st)) eqn:T.
  - unfold bind at 1. unfold bind at 1.
    destruct (validateShortCode_cases (URLShortener.customShortCode st) w1)
      as (v2 & w2 & -> & L2 & _ & V2).
    unfold ret at 1.
    apply (Done (ValidationResult.isValid v2)); auto.
    + eapply logged_only_trans; eassumption.
    + rewrite !note_empty. tauto.
    + rewrite note_lookup_ne by discriminate.
      apply note_lookup. reflexivity.
    + apply note_lookup. rewrite note_lookup_ne by discriminate.
      reflexivity.
    + rewrite !note_lookup_ne by discriminate. reflexivity.
    + rewrite !note_lookup_ne by discriminate. reflexivity.
  - unfold bind at 1. unfold ret at 1.
    apply truthy_false in T.
    apply (Done true); auto.
    + rewrite note_empty. tauto.
    + apply note_lookup. reflexivity.
    + rewrite note_lookup_ne by discriminate. split; reflexivity.
    + rewrite note_lookup_ne by discriminate. reflexivity.
    + rewrite note_lookup_ne by discriminate. reflexivity.
    + split; [intros _ | reflexivity]. left. rewrite T.
      apply StrFacts.blank_nil.
Qed.

(** [handleSubmit], by the answer of [validateForm] and that of
    [shortenUrl]. *)
Lemma handleSubmit_run (st : URLShortener.State) (env : ShortenEnv) (w : World) :
  URLShortener.handleSubmit URL_protocol st env w
  = match URLShortener.validateForm URL_protocol st w with
    | (Ok (false, errs), w1) =>
        (Ok (URLShortener.setErrors errs st),
         snd (Logger.warn "FORM_VALIDATION_FAILED" w1))
    | (Ok (true, errs), w1) =>
        match shortenUrl (URLShortener.originalUrl st) (URLShortener.requested st)
                (Some (URLShortener.expiryMinutes st)) env w1 with
        | (Ok l, w2) =>
            (Ok (URLShortener.mkState EmptyString EmptyString 30 ∅ false
                   (Some (length (arrays w2)))),
             snd (Logger.info "URL_CREATION_SUCCESS" (snd (getAllUrls w2))))
        | (Throw message, w2) =>
            (Ok (URLShortener.refused message st),
             snd (Logger.error "URL_CREATION_FAILED" w2))
        end
    | (Throw message, w1) => (Throw message, w1)
    end.
Proof.
  unfold URLShortener.handleSubmit. unfold bind at 1.
  destruct (URLShortener.validateForm URL_protocol st w)
    as [[[[|] errs] | e] w1];
    cbn [fst snd negb]; [| reflexivity | reflexivity].
  cbn [URLShortener.originalUrl URLShortener.customShortCode
       URLShortener.expiryMinutes URLShortener.setIsLoading
       URLShortener.setErrors].
  unfold bind at 1. unfold try_catch. unfold bind at 1.
  fold (URLShortener.requested st).
  destruct (shortenUrl (URLShortener.originalUrl st) (URLShortener.requested st)
              (Some (URLShortener.expiryMinutes st)) env w1) as [[l | e] w2].
  - unfold URLShortener.loadUrls. unfold bind at 1. unfold bind at 1.
    rewrite getAllUrls_run. reflexivity.
  - reflexivity.
Qed.

Lemma active_count_logged (w w1 : World) :
  Registry.logged_only w w1 -> Spec.active_count w1 = Spec.active_count w.
Proof.
  intros (Hh & _ & Hu & _). unfold Spec.active_count, url_values.
  rewrite Hh, Hu. reflexivity.
Qed.

(** X14: what a submission of the form comes to. [handleSubmit] returns,
    whatever [shortenUrl] does. When a field does not pass ([validateUrl]
    on the URL, [validateShortCode] on a custom code that is not empty,
    [validateExpiryMinutes] on the minutes) [shortenUrl] is not called:
    the registry is as it was, the fields and the loading flag stay, and
    exactly the fields that failed carry an error. When the fields pass,
    the loading flag ends false and: a code that is taken, or a registry
    with five flagged records, leaves the registry as it was and the
    fields as they were filled in, with the message of the [Error] as
    the error of the submission; otherwise one record is added, with the
    URL and the minutes of the form and the code asked for (the custom
    code, or a generated one), the form is reset and the list of the page
    is a new array that holds the new record. *)
Theorem handleSubmit_outcome (st : URLShortener.State) (env : ShortenEnv)
    (w : World) :
  exists st' w',
    URLShortener.handleSubmit URL_protocol st env w = (Ok st', w') /\
    (~ URLShortener.form_ok URL_protocol st ->
     Registry.logged_only w w' /\
     last (logs w')
     = Some (LogEvent.mk LogEvent.WARN "FORM_VALIDATION_FAILED") /\
     st' = URLShortener.setErrors (URLShortener.errors st') st /\
     URLShortener.errors st' <> ∅ /\
     (URLShortener.errors st' !! "originalUrl" = None <->
      Rules.url_ok URL_protocol (URLShortener.originalUrl st)) /\
     (URLShortener.errors st' !! "customShortCode" = None <->
      Spec.blank (URLShortener.customShortCode st)
      \/ Rules.code_ok (URLShortener.customShortCode st)) /\
     (URLShortener.errors st' !! "expiryMinutes" = None <->
      1 <= URLShortener.expiryMinutes st <= 43200)) /\
    (URLShortener.form_ok URL_protocol st ->
     (is_Some (shortCodeToId w !! URLShortener.code_of st env) ->
      Registry.logged_only w w' /\
      st' = URLShortener.refused E_duplicate st) /\
     (shortCodeToId w !! URLShortener.code_of st env = None ->
      (5 <= Spec.active_count w)%nat ->
      Registry.logged_only w w' /\
      st' = URLShortener.refused E_limit st) /\
     (shortCodeToId w !! URLShortener.code_of st env = None ->
      (Spec.active_count w < 5)%nat ->
      exists r a xs,
        heap w' = heap w ++ [r] /\
        ShortenedURL.originalUrl r = URLShortener.originalUrl st /\
        ShortenedURL.shortCode r = URLShortener.code_of st env /\
        ShortenedURL.expiresAt r
        = s_newDate env + URLShortener.expiryMinutes st * 60 * 1000 /\
        Spec.mapped w' (URLShortener.code_of st env)
        = Some (length (heap w)) /\
        st' = URLShortener.mkState EmptyString EmptyString 30 ∅ false
                (Some a) /\
        arrays w' !! a = Some xs /\
        In (length (heap w)) xs)).
Proof.
  rewrite handleSubmit_run.
  destruct (validateForm_cases st w)
    as (ok & errs & w1 & -> & L1 & E1 & V1 & O1 & C1 & X1 & _).
  destruct ok.
  - assert (Fok : URLShortener.form_ok URL_protocol st) by (apply V1; auto).
    pose proof L1 as (Hh1 & Ha1 & Hu1 & Hc1 & Hs1 & Hl1).
    unfold URLShortener.code_of.
    destruct (shortenUrl_cases (URLShortener.originalUrl st)
                (URLShortener.requested st)
                (Some (URLShortener.expiryMinutes st)) env w1)
      as [[Taken ->] | [(Free & Full & ->) | (Free & L & _)]].
    + eexists _, _. split; [reflexivity |].
      split; [intros N; contradiction |]. intros _.
      rewrite Hc1 in Taken. split; [| split].
      * intros _. split; [| reflexivity].
        eapply logged_only_trans; [exact L1 | apply logged_only_log].
      * intros Free. rewrite Free in Taken. destruct Taken; discriminate.
      * intros Free. rewrite Free in Taken. destruct Taken; discriminate.
    + eexists _, _. split; [reflexivity |].
      split; [intros N; contradiction |]. intros _.
      rewrite Hc1 in Free. rewrite (active_count_logged w w1 L1) in Full.
      split; [| split].
      * intros [x Taken]. congruence.
      * intros _ _. split; [| reflexivity].
        eapply logged_only_trans; [exact L1 |].
        eapply logged_only_trans; apply logged_only_log.
      * intros _ Lt. lia.
    + destruct (shortenUrl_success (URLShortener.originalUrl st)
                  (URLShortener.requested st)
                  (Some (URLShortener.expiryMinutes st)) env w1 Free L)
        as (r & w2 & -> & Hh & Hu & Hc & _ & Ho & Hcode & _ & He & _).
      eexists _, _. split; [reflexivity |].
      split; [intros N; contradiction |]. intros _.
      rewrite Hc1 in Free. rewrite (active_count_logged w w1 L1) in L.
      split; [| split].
      * intros [x Taken]. congruence.
      * intros _ Full. lia.
      * intros _ _. rewrite getAllUrls_run. cbn [snd].
        exists r, (length (arrays w2)),
          (sort (fun a b => createdAt_of w2 b - createdAt_of w2 a)
                (JsMap.values (urls w2))).
        split; [cbn; rewrite Hh, Hh1; reflexivity |].
        split; [exact Ho |]. split; [exact Hcode |]. split; [exact He |].
        split.
        { unfold Spec.mapped. cbn. rewrite Hc, lookup_insert_eq, Hu, Hh1.
          apply JsMapFacts.get_set_eq. }
        split; [reflexivity |]. split.
        { cbn. apply list_lookup_middle. reflexivity. }
        eapply Permutation_in;
          [symmetry; apply (SortFacts.sort_perm (createdAt_of w2)) |].
        rewrite Hu, <- Hh1.
        eapply JsMapFacts.get_In_values, JsMapFacts.get_set_eq.
  - assert (Nok : ~ URLShortener.form_ok URL_protocol st)
      by (intros F; apply V1 in F; discriminate).
    eexists _, _. split; [reflexivity |].
    split; [| intros F; contradiction]. intros _.
    split; [eapply logged_only_trans; [exact L1 | apply logged_only_log] |].
    split; [cbn; apply last_snoc |].
    split; [reflexivity |]. cbn [URLShortener.errors URLShortener.setErrors].
    split; [intros E; apply E1 in E; discriminate |].
    auto.
Qed.

Lemma space_not_code_char (c : ascii) :
  Str.is_space c = true -> Spec.code_char c = false.
Proof.
  destruct c as [[] [] [] [] [] [] [] []]; vm_compute; congruence.
Qed.

Lemma blank_not_code_ok (shortCode : string) :
  shortCode <> EmptyString -> Spec.blank shortCode ->
  ~ Rules.code_ok shortCode.
Proof.
  intros Hne B (_ & Hc & _). destruct shortCode as [| c s]; [congruence |].
  apply StrFacts.blank_cons in B as [Bc _].
  specialize (Hc c (or_introl eq_refl)).
  rewrite (space_not_code_char c Bc) in Hc. discriminate.
Qed.

(** X15: white space as a custom code. A custom code that is not empty
    and consists of white space only breaks the rules of short codes
    (its length aside, no white space is a letter, a digit, a hyphen or
    an underscore), yet the form lets it pass, [validateShortCode]
    testing only codes that are not blank, and [shortenUrl] registers it
    as it stands: with a valid URL and valid minutes, the code free and
    fewer than five flagged records, the submission adds a record whose
    short code is that white space, and a lookup of it finds the
    record. *)
Theorem blank_code_registered (st : URLShortener.State) (env : ShortenEnv)
    (w : World) :
  Rules.url_ok URL_protocol (URLShortener.originalUrl st) ->
  1 <= URLShortener.expiryMinutes st <= 43200 ->
  URLShortener.customShortCode st <> EmptyString ->
  Spec.blank (URLShortener.customShortCode st) ->
  shortCodeToId w !! URLShortener.customShortCode st = None ->
  (Spec.active_count w < 5)%nat ->
  ~ Rules.code_ok (URLShortener.customShortCode st) /\
  exists st' w' r,
    URLShortener.handleSubmit URL_protocol st env w = (Ok st', w') /\
    URLShortener.errors st' = ∅ /\
    heap w' !! length (heap w) = Some r /\
    ShortenedURL.shortCode r = URLShortener.customShortCode st /\
    getUrlByShortCode w' (URLShortener.customShortCode st) (s_newDate env)
    = Some (length (heap w)).
Proof.
  intros Uok Eok Hne B Free L.
  split; [apply blank_not_code_ok; assumption |].
  rewrite handleSubmit_run.
  destruct (validateForm_cases st w)
    as (ok & errs & w1 & -> & L1 & _ & V1 & _).
  assert (ok = true) as ->
    by (apply V1; split; [exact Uok | split; [left; exact B | exact Eok]]).
  pose proof L1 as (Hh1 & _ & Hu1 & Hc1 & _).
  assert (Req : URLShortener.requested st
                = Some (URLShortener.customShortCode st)).
  { unfold URLShortener.requested.
    destruct (Str.truthy (URLShortener.customShortCode st)) eqn:T;
      [reflexivity |]. apply truthy_false in T. contradiction. }
  assert (Res : Spec.resolved (URLShortener.requested st) env
                = URLShortener.customShortCode st).
  { rewrite Req. unfold Spec.resolved.
    destruct (Str.truthy (URLShortener.customShortCode st)) eqn:T;
      [reflexivity |]. apply truthy_false in T. contradiction. }
  destruct (shortenUrl_success (URLShortener.originalUrl st)
              (URLShortener.requested st)
              (Some (URLShortener.expiryMinutes st)) env w1)
    as (r & w2 & -> & Hh & Hu & Hc & _ & _ & Hcode & _ & He & Ha & _).
  { rewrite Res, Hc1. exact Free. }
  { rewrite (active_count_logged w w1 L1). exact L. }
  rewrite Res in *. rewrite getAllUrls_run. cbn [snd].
  eexists _, _, r. split; [reflexivity |].
  split; [reflexivity |].
  assert (Hl : (heap w1 ++ [r]) !! length (heap w) = Some r)
    by (rewrite <- Hh1; apply list_lookup_middle; reflexivity).
  split; [cbn; rewrite Hh; exact Hl |]. split; [exact Hcode |].
  unfold getUrlByShortCode. cbn.
  rewrite Hc, lookup_insert_eq, new_id_truthy. cbn [negb].
  rewrite Hu, JsMapFacts.get_set_eq, Hh, <- Hh1 at 1.
  rewrite list_lookup_middle by (rewrite Hh1; reflexivity).
  rewrite Ha, He. cbn [negb orb].
  replace (Spec.deadline (Some (URLShortener.expiryMinutes st)) env
           <? s_newDate env) with false; [rewrite Hh1; reflexivity |].
  symmetry. apply Z.ltb_ge. unfold Spec.deadline. simpl. lia.
Qed.

End Platform.

(** X16: the Delete button. In a registry whose indexes are consistent,
    [handleDelete] on an id that is not held changes nothing and keeps
    the list of the page; on an id that is held it deletes the record
    and loads the list again: the new list is a new array without the
    deleted record and with every other record of the registry, and the
    indexes are consistent again. *)
Theorem handleDelete_spec (st : URLShortener.State) (id : string)
    (w : World) :
  Registry.consistent w ->
  (JsMap.get id (urls w) = None ->
   URLShortener.handleDelete st id w = (Ok st, w)) /\
  (forall l,
     JsMap.get id (urls w) = Some l ->
     exists a xs w',
       URLShortener.handleDelete st id w
       = (Ok (URLShortener.setUrls a st), w') /\
       arrays w !! a = None /\
       arrays w' !! a = Some xs /\
       ~ In l xs /\
       (forall l', In l' (JsMap.values (urls w)) -> l' <> l -> In l' xs) /\
       JsMap.get id (urls w') = None /\
       Registry.consistent w').
Proof.
  intros C. split.
  - intros G. unfold URLShortener.handleDelete. unfold bind at 1.
    rewrite deleteUrl_absent by exact G. reflexivity.
  - intros l G. unfold URLShortener.handleDelete. unfold bind at 1.
    destruct (deleteUrl_present id w l G) as (w1 & -> & Hh & Ha & Hu & Hc & _).
    unfold URLShortener.loadUrls. unfold bind at 1.
    rewrite getAllUrls_run.
    assert (C1 : Registry.consistent w1)
      by (apply (RegistryFacts.consistent_delete id w w1 l); assumption).
    pose proof C as (N & R & _).
    eexists _, _, _. split; [reflexivity |].
    split; [rewrite <- Ha; apply lookup_ge_None; lia |].
    split; [cbn; apply list_lookup_middle; reflexivity |].
    assert (P : forall x,
              In x (sort (fun a b => createdAt_of w1 b - createdAt_of w1 a)
                         (JsMap.values (urls w1)))
              <-> In x (JsMap.values (JsMap.delete id (urls w)))).
    { intros x. rewrite <- Hu. split; apply Permutation_in;
        [| symmetry]; apply (SortFacts.sort_perm (createdAt_of w1)). }
    split; [| split; [| split]].
    + rewrite P. intros Hin.
      apply JsMapKeys.values_elem in Hin as (k & Hk).
      apply JsMapKeys.elem_delete in Hk as [Hne Hk].
      apply (JsMapKeys.get_elem _ _ _ N) in Hk.
      destruct (R k l Hk) as (u & Hl & Hi & _).
      destruct (R id l G) as (u' & Hl' & Hi' & _).
      congruence.
    + intros l' Hin Hne. apply P.
      apply JsMapKeys.values_elem in Hin as (k & Hk).
      apply JsMapKeys.values_elem. exists k.
      apply JsMapKeys.elem_delete. split; [| exact Hk].
      intros ->. apply (JsMapKeys.get_elem _ _ _ N) in Hk. congruence.
    + cbn. rewrite Hu. apply JsMapFacts.get_delete_eq.
    + apply (RegistryFacts.consistent_heap w1); try reflexivity; [| exact C1].
      intros l0 u0 Hl0. exists u0. split; [exact Hl0 |].
      apply RegistryFacts.evolves_refl.
Qed.

(** The record of the sample registry, deleted from the page. *)
Lemma handleDelete_spec_abc :
  exists a w',
    URLShortener.handleDelete Scenario.form_abc Scenario.id_abc Sample.w_abc
    = (Ok (URLShortener.setUrls a Scenario.form_abc), w') /\
    arrays w' !! a = Some [] /\
    JsMap.get Scenario.id_abc (urls w') = None.
Proof.
  destruct (handleDelete_spec Scenario.form_abc Scenario.id_abc Sample.w_abc)
    as [_ H].
  - rewrite w_abc_reached.
    apply (RegistryFacts.sound_run_all _ _ RegistryFacts.sound_initial).
    repeat split.
  - destruct (H 0%nat) as (a & xs & w' & Run & _ & Ha & _ & _ & Hg & _);
      [vm_compute; reflexivity |].
    exists a, w'. split; [exact Run |]. split; [| exact Hg].
    rewrite Ha. f_equal. vm_compute in Run. injection Run as <- <-.
    vm_compute in Ha. injection Ha as <-. reflexivity.
Defined.

Lemma url_ok_sample : Rules.url_ok scheme_of "https://example.com/a".
Proof.
  split; [| split].
  - apply StrFacts.trim_truthy_not_blank. vm_compute. reflexivity.
  - right. vm_compute. reflexivity.
  - intros E. apply ValidationFacts.maliciousPatterns_spec in E.
    vm_compute in E. discriminate.
Qed.

(** Three submissions on the sample registry: the code [abc] again, a
    form without a URL, and two spaces as the code. *)
Lemma handleSubmit_outcome_abc :
  (exists w',
     URLShortener.handleSubmit scheme_of Scenario.form_abc
       (Sample.env_at (Sample.t0 + 5) "z8y7x6w5v") Sample.w_abc
     = (Ok (URLShortener.refused E_duplicate Scenario.form_abc), w') /\
     Registry.logged_only Sample.w_abc w') /\
  (exists st' w',
     URLShortener.handleSubmit scheme_of Scenario.form_no_url
       (Sample.env_at (Sample.t0 + 5) "z8y7x6w5v") Sample.w_abc
     = (Ok st', w') /\
     Registry.logged_only Sample.w_abc w' /\
     URLShortener.errors st' !! "originalUrl" = Some E_required).
Proof.
  split.
  - destruct (handleSubmit_outcome scheme_of Scenario.form_abc
                (Sample.env_at (Sample.t0 + 5) "z8y7x6w5v") Sample.w_abc)
      as (st' & w' & Run & _ & H).
    destruct H as [H _].
    + split; [| split].
      * split; [| split].
        -- apply StrFacts.trim_truthy_not_blank. vm_compute. reflexivity.
        -- right. vm_compute. reflexivity.
        -- intros E. apply ValidationFacts.maliciousPatterns_spec in E.
           vm_compute in E. discriminate.
      * right. split; [cbn; lia |]. split.
        -- intros c Hc. cbn in Hc.
           destruct Hc as [<- | [<- | [<- | []]]]; reflexivity.
        -- intros (word & Hw & E). cbn in Hw. unfold Spec.eq_ignore_case in E.
           destruct Hw as [<- | [<- | [<- | [<- | [<- | [<- | []]]]]]];
             vm_compute in E; discriminate.
      * cbn. lia.
    + destruct H as [L ->]; [vm_compute; eauto |].
      exists w'. split; [exact Run | exact L].
  - destruct (handleSubmit_outcome scheme_of Scenario.form_no_url
                (Sample.env_at (Sample.t0 + 5) "z8y7x6w5v") Sample.w_abc)
      as (st' & w' & Run & H & _).
    destruct H as (L & _); [intros ((N & _) & _); apply N; constructor |].
    exists st', w'. split; [exact Run |]. split; [exact L |].
    vm_compute in Run. injection Run as <- _. reflexivity.
Defined.

Lemma blank_code_registered_spaces :
  ~ Rules.code_ok "  " /\
  exists st' w' r,
    URLShortener.handleSubmit scheme_of Scenario.form_spaces
      (Sample.env_at (Sample.t0 + 5) "z8y7x6w5v") Sample.w_abc
    = (Ok st', w') /\
    URLShortener.errors st' = ∅ /\
    heap w' !! 1%nat = Some r /\
    ShortenedURL.shortCode r = "  " /\
    getUrlByShortCode w' "  " (Sample.t0 + 5) = Some 1%nat.
Proof.
  apply (blank_code_registered scheme_of Scenario.form_spaces
           (Sample.env_at (Sample.t0 + 5) "z8y7x6w5v") Sample.w_abc).
  - apply url_ok_sample.
  - cbn. lia.
  - discriminate.
  - repeat constructor.
  - vm_compute. reflexivity.
  - vm_compute. lia.
Defined.

End FormFacts.

(** ** The figures of the statistics page and the list of the shortener
    page *)

Module StatisticsFacts.

Import URLService URLServiceFacts Statistics.

Lemma count_perm {A B : Type} (f : A -> option B) (p : B -> bool)
    (xs ys : list A) :
  Permutation xs ys ->
  length (List.filter p (omap f xs)) = length (List.filter p (omap f ys)).
Proof.
  induction 1 as [| x xs ys _ IH | x y xs | xs ys zs _ IH1 _ IH2].
  - reflexivity.
  - cbn [omap list_omap]. destruct (f x) as [b |]; [| exact IH].
    cbn [List.filter]. destruct (p b); cbn [length]; congruence.
  - cbn [omap list_omap].
    destruct (f x) as [b |], (f y) as [c |]; cbn [List.filter];
      repeat (destruct (p _)); reflexivity.
  - congruence.
Qed.

Lemma filter_take_prefix {A : Type} (p : A -> bool) (n : nat) (xs : list A) :
  List.filter p (take n xs) `prefix_of` List.filter p xs.
Proof.
  revert n. induction xs as [| x xs IH]; intros [| n]; cbn [take List.filter];
    try apply prefix_nil.
  destruct (p x); [apply prefix_cons |]; apply IH.
Qed.

(** X17: the most clicked records. [getTopUrls] answers with at most
    five entries of the list, all five when the list has as many; they
    stand by falling [clickCount]; no entry that is left out has more
    clicks than one that is shown; and among entries with the same
    number of clicks those that come first in the list (the newest, in
    the order of [getAllUrls]) are shown first, and are the ones
    shown. *)
Theorem getTopUrls_spec (w : World) (xs : list loc) :
  length (getTopUrls w xs) = Nat.min 5 (length xs) /\
  StronglySorted (fun a b => clickCount_of w b <= clickCount_of w a)
                 (getTopUrls w xs) /\
  (exists rest,
     Permutation xs (getTopUrls w xs ++ rest) /\
     forall a b, In a (getTopUrls w xs) -> In b rest ->
                 clickCount_of w b <= clickCount_of w a) /\
  (forall n,
     List.filter (fun x => clickCount_of w x =? n) (getTopUrls w xs)
     `prefix_of` List.filter (fun x => clickCount_of w x =? n) xs).
Proof.
  unfold getTopUrls.
  set (s := sort (fun a b => clickCount_of w b - clickCount_of w a) xs).
  assert (P : Permutation s xs)
    by apply (SortFacts.sort_perm (clickCount_of w)).
  assert (S : StronglySorted
                (fun a b => clickCount_of w b <= clickCount_of w a) s)
    by apply (SortFacts.sort_strongly_sorted (clickCount_of w)).
  rewrite <- (take_drop 5 s) in S.
  split; [rewrite length_take, (Permutation_length P); reflexivity |].
  split; [eapply StronglySorted_app_1_l, S |].
  split.
  - exists (drop 5 s). split; [rewrite take_drop; symmetry; exact P |].
    intros a b Ha Hb.
    apply (StronglySorted_app_1_elem_of _ _ _ a b S);
      apply list_elem_of_In; assumption.
  - intros n.
    rewrite <- (SortFacts.sort_stable (clickCount_of w) n xs). fold s.
    apply filter_take_prefix.
Qed.

Lemma getActiveUrls_flagged (w : World) (xs : list loc) :
  forall clock,
    (getActiveUrls w xs clock <= Spec.flagged (heap w) xs)%nat.
Proof.
  unfold getActiveUrls.
  induction xs as [| x xs IH]; intros clock; [reflexivity |].
  cbn [imap]. rewrite flagged_cons.
  specialize (IH (fun i => clock (S i))).
  change (imap ((fun i url =>
                   match heap w !! url with
                   | Some u => ShortenedURL.isActive u
                               && (clock i <? ShortenedURL.expiresAt u)
                   | None => false
                   end) ∘ S) xs)
    with (imap (fun i url =>
                  match heap w !! url with
                  | Some u => ShortenedURL.isActive u
                              && (clock (S i) <? ShortenedURL.expiresAt u)
                  | None => false
                  end) xs).
  destruct (heap w !! x) as [u |]; cbn [List.filter]; [| exact IH].
  destruct (ShortenedURL.isActive u); cbn [andb List.filter];
    [destruct (clock 0%nat <? ShortenedURL.expiresAt u) |];
    cbn [length]; lia.
Qed.

Lemma getActiveUrls_live (w : World) (xs : list loc) (now : Z) :
  getActiveUrls w xs (fun _ => now)
  = length (List.filter (Spec.live (now + 1))
              (omap (fun l => heap w !! l) xs)).
Proof.
  unfold getActiveUrls.
  assert (E : forall f : nat -> nat,
    imap (fun (i : nat) url =>
            match heap w !! url with
            | Some u => ShortenedURL.isActive u
                        && (now <? ShortenedURL.expiresAt u)
            | None => false
            end) xs
    = map (fun url =>
             match heap w !! url with
             | Some u => ShortenedURL.isActive u
                         && (now <? ShortenedURL.expiresAt u)
             | None => false
             end) xs).
  { intros _. induction xs as [| x xs IH]; [reflexivity |].
    cbn [imap map]. f_equal. exact IH. }
  rewrite (E id). clear E.
  induction xs as [| x xs IH]; [reflexivity |].
  cbn [map omap list_omap]. destruct (heap w !! x) as [u |];
    cbn [List.filter]; [| exact IH].
  unfold Spec.live at 1.
  replace (negb (ShortenedURL.expiresAt u <? now + 1))
    with (now <? ShortenedURL.expiresAt u)
    by (destruct (now <? ShortenedURL.expiresAt u) eqn:E1;
        destruct (ShortenedURL.expiresAt u <? now + 1) eqn:E2;
        try reflexivity;
        [apply Z.ltb_lt in E1, E2 | apply Z.ltb_ge in E1, E2]; lia).
  destruct (ShortenedURL.isActive u && (now <? ShortenedURL.expiresAt u));
    cbn [length]; rewrite IH; reflexivity.
Qed.

Lemma getTotalClicks_sum (w : World) (xs : list loc) :
  forall total,
    foldl (fun total url => total + clickCount_of w url) total xs
    = total + foldr (fun url total => clickCount_of w url + total) 0 xs.
Proof.
  induction xs as [| x xs IH]; intros total; cbn [foldl foldr]; [lia |].
  rewrite IH. lia.
Qed.

Lemma sum_perm (f : loc -> Z) (xs ys : list loc) :
  Permutation xs ys ->
  foldr (fun url total => f url + total) 0 xs
  = foldr (fun url total => f url + total) 0 ys.
Proof.
  induction 1; cbn [foldr]; lia.
Qed.

Lemma sum_events (w : World) (vs : list loc) :
  Forall Registry.clicks_counted (omap (fun l => heap w !! l) vs) ->
  foldr (fun url total => clickCount_of w url + total) 0 vs
  = Z.of_nat
      (length (concat (map ShortenedURL.clicks
                         (omap (fun l => heap w !! l) vs)))).
Proof.
  induction vs as [| v vs IH]; intros F; [reflexivity |].
  cbn [foldr omap list_omap] in *. unfold clickCount_of at 1.
  destruct (heap w !! v) as [u |].
  - inversion F as [| ? ? Hu Hvs]; subst. cbn [map concat].
    rewrite length_app, Nat2Z.inj_add, <- (IH Hvs). rewrite Hu. reflexivity.
  - rewrite (IH F). lia.
Qed.

(** X18: the figures of the statistics page, on the list that
    [getAllUrls] gave for a registry in its invariant. Whatever the
    clock reads at each entry, the number of active URLs shown is at
    most the number of flagged records, hence at most five; read at one
    instant, it is the number of flagged records whose deadline lies
    after that instant (a record at the very instant of its deadline,
    which a lookup still finds, is not counted); and the total of clicks
    shown is the number of click events that the records of the registry
    hold, when every counter counts its events. *)
Theorem page_figures (w : World) (xs : list loc) :
  Spec.invariant w ->
  Registry.everywhere Registry.clicks_counted w ->
  Permutation xs (JsMap.values (urls w)) ->
  (forall clock,
     (getActiveUrls w xs clock <= Spec.active_count w <= 5)%nat) /\
  (forall now,
     getActiveUrls w xs (fun _ => now) = Spec.live_count w (now + 1)) /\
  getTotalClicks w xs
  = Z.of_nat (length (concat (map ShortenedURL.clicks (url_values w)))).
Proof.
  intros (_ & _ & _ & Cap & _) [Hc _] P. split; [| split].
  - intros clock. split; [| exact Cap].
    rewrite active_count_flagged.
    etransitivity; [apply getActiveUrls_flagged |].
    unfold Spec.flagged. rewrite (count_perm _ _ _ _ P). reflexivity.
  - intros now. rewrite getActiveUrls_live.
    unfold Spec.live_count, url_values. apply count_perm, P.
  - unfold getTotalClicks. rewrite getTotalClicks_sum, Z.add_0_l.
    rewrite (sum_perm (clickCount_of w) _ _ P).
    apply sum_events. exact Hc.
Qed.

(** The sample registry after a click, one millisecond later. *)
Lemma page_figures_clicked :
  getActiveUrls Scenario.w_clicked [0%nat] (fun _ => Sample.t0 + 2) = 1%nat /\
  getTotalClicks Scenario.w_clicked [0%nat] = 1.
Proof.
  destruct (page_figures Scenario.w_clicked [0%nat]) as (_ & A & T).
  - apply (invariant_run_all _ _ invariant_initial).
  - split; [repeat constructor |].
    intros us Hs. vm_compute in Hs. injection Hs as <-. repeat constructor.
  - vm_compute. reflexivity.
  - split; [rewrite A | rewrite T]; vm_compute; reflexivity.
Defined.

(** *** The time that remains *)

Lemma to_list_app (s t : string) :
  Str.to_list (s +:+ t) = Str.to_list s ++ Str.to_list t.
Proof.
  induction s as [| c s IH]; [reflexivity |].
  change (c :: Str.to_list (s +:+ t) = c :: (Str.to_list s ++ Str.to_list t)).
  f_equal. exact IH.
Qed.

Lemma not_Expired (s : string) (c : ascii) :
  c <> "d"%char -> s +:+ String c EmptyString <> "Expired".
Proof.
  intros Hc E. apply (f_equal (fun x => last (Str.to_list x))) in E.
  rewrite to_list_app in E. cbn [Str.to_list] in E.
  rewrite last_snoc in E. cbn in E. congruence.
Qed.

Lemma append_assoc (s t u : string) : (s +:+ t) +:+ u = s +:+ t +:+ u.
Proof.
  induction s as [| c s IH]; [reflexivity |].
  change (String c ((s +:+ t) +:+ u) = String c (s +:+ t +:+ u)).
  f_equal. exact IH.
Qed.

Lemma formatTimeRemaining_Expired (expiresAt now : Z) :
  URLShortener.formatTimeRemaining expiresAt now = "Expired" <->
  expiresAt <= now.
Proof.
  unfold URLShortener.formatTimeRemaining.
  destruct (expiresAt - now <=? 0) eqn:D.
  - apply Z.leb_le in D. split; [intros _; lia | reflexivity].
  - apply Z.leb_gt in D. split; [| intros ?; lia]. intros E. exfalso.
    destruct (0 <? (expiresAt - now) / (1000 * 60) / 60 / 24).
    + rewrite <- !append_assoc in E. apply not_Expired in E; [exact E |].
      discriminate.
    + destruct (0 <? (expiresAt - now) / (1000 * 60) / 60).
      * rewrite <- !append_assoc in E. apply not_Expired in E; [exact E |].
        discriminate.
      * apply not_Expired in E; [exact E | discriminate].
Qed.

(** X19: the time shown for a record in the list of the shortener page.
    [formatTimeRemaining] answers Expired exactly when the deadline is
    not after the instant it reads; with less than a minute left it
    answers 0m. The badge of a flagged record is Active exactly when
    the time shown is not Expired. A record that a lookup finds at the
    same instant is shown as Expired only at the very instant of its
    deadline, where the lookup still finds it. *)
Theorem remaining_time (now : Z) :
  (forall expiresAt,
     URLShortener.formatTimeRemaining expiresAt now = "Expired" <->
     expiresAt <= now) /\
  (forall expiresAt,
     now < expiresAt -> expiresAt - now < 60000 ->
     URLShortener.formatTimeRemaining expiresAt now = "0m") /\
  (forall u,
     ShortenedURL.isActive u = true ->
     (URLShortener.shown_active u now = true <->
      URLShortener.formatTimeRemaining (ShortenedURL.expiresAt u) now
      <> "Expired")) /\
  (forall w shortCode l u,
     getUrlByShortCode w shortCode now = Some l ->
     heap w !! l = Some u ->
     (URLShortener.formatTimeRemaining (ShortenedURL.expiresAt u) now
      = "Expired" <-> ShortenedURL.expiresAt u = now)).
Proof.
  split; [intros e; apply formatTimeRemaining_Expired |]. split; [| split].
  - intros e H1 H2. unfold URLShortener.formatTimeRemaining.
    replace (e - now <=? 0) with false by (symmetry; apply Z.leb_gt; lia).
    replace ((e - now) / (1000 * 60)) with 0
      by (symmetry; apply Z.div_small; lia).
    reflexivity.
  - intros u A. unfold URLShortener.shown_active.
    rewrite A, formatTimeRemaining_Expired. cbn [andb].
    rewrite Z.ltb_lt. lia.
  - intros w shortCode l u G Hl.
    destruct (getUrl_Some_inv _ _ _ _ G) as (id & u' & _ & _ & _ & Hl' & _ & X).
    assert (u' = u) as -> by congruence. apply Z.ltb_ge in X.
    rewrite formatTimeRemaining_Expired. lia.
Qed.

(** The record of the sample registry, at the instant of its deadline. *)
Lemma remaining_time_abc :
  getUrlByShortCode Sample.w_abc "abc" (Sample.t0 + 30 * 60 * 1000)
  = Some 0%nat /\
  URLShortener.formatTimeRemaining
    (ShortenedURL.expiresAt Scenario.u_abc) (Sample.t0 + 30 * 60 * 1000)
  = "Expired" /\
  URLShortener.formatTimeRemaining
    (ShortenedURL.expiresAt Scenario.u_abc) (Sample.t0 + 29 * 60 * 1000 + 1)
  = "0m".
Proof.
  destruct (remaining_time (Sample.t0 + 30 * 60 * 1000)) as (_ & _ & _ & H).
  destruct (remaining_time (Sample.t0 + 29 * 60 * 1000 + 1)) as (_ & Z & _).
  split; [vm_compute; reflexivity |]. split.
  - apply (H Sample.w_abc "abc" 0%nat Scenario.u_abc);
      vm_compute; reflexivity.
  - apply Z; cbn; lia.
Defined.

End StatisticsFacts.

(** ** The log *)

Module LoggerLaws.

Import URLService.
Import Rules (appends_log).

(** X20: the stored log is a window on the last thousand events. A
    call of the logger returns and writes to the logs only: the event
    is added at the end of the log of the page, which only grows, and
    at the end of the stored log, from whose head as many events are
    dropped as exceed a thousand. So the stored log holds
    min (1000, n + 1) events after a call that found n, the last of them
    the new event, and the events it keeps are the last ones, in their
    order. *)
Theorem log_ring_buffer (level : LogEvent.level_t) (action : string)
    (w : World) :
  exists w',
    Logger.log level action w = (Ok tt, w') /\
    Registry.logged_only w w' /\
    logs w' = logs w ++ [LogEvent.mk level action] /\
    ls_logs w'
    = drop (S (length (ls_logs w)) - 1000)
           (ls_logs w ++ [LogEvent.mk level action]) /\
    length (ls_logs w') = Nat.min 1000 (S (length (ls_logs w))) /\
    last (ls_logs w') = Some (LogEvent.mk level action) /\
    ls_logs w' `suffix_of` (ls_logs w ++ [LogEvent.mk level action]) /\
    ((length (ls_logs w) < 1000)%nat ->
     ls_logs w' = ls_logs w ++ [LogEvent.mk level action]).
Proof.
  exists (snd (Logger.log level action w)). split; [reflexivity |].
  split; [apply ValidationLaws.logged_only_log |].
  split; [reflexivity |].
  set (e := LogEvent.mk level action).
  assert (E : ls_logs (Logger.log level action w).2
              = drop (S (length (ls_logs w)) - 1000) (ls_logs w ++ [e])).
  { change (ls_logs (Logger.log level action w).2)
      with (if (1000 <? length (ls_logs w ++ [e]))%nat
            then drop (length (ls_logs w ++ [e]) - 1000) (ls_logs w ++ [e])
            else ls_logs w ++ [e]).
    rewrite length_app. cbn [length]. rewrite Nat.add_1_r.
    destruct (1000 <? S (length (ls_logs w)))%nat eqn:L; [reflexivity |].
    apply Nat.ltb_ge in L.
    replace (S (length (ls_logs w)) - 1000)%nat with 0%nat by lia.
    reflexivity. }
  split; [exact E |]. rewrite E.
  split; [rewrite length_drop, length_app; cbn [length]; lia |].
  split.
  - rewrite last_lookup, lookup_drop, length_drop, length_app.
    cbn [length].
    replace (S (length (ls_logs w)) - 1000
             + pred (length (ls_logs w) + 1
                     - (S (length (ls_logs w)) - 1000)))%nat
      with (length (ls_logs w)) by lia.
    apply list_lookup_middle. reflexivity.
  - split; [apply suffix_drop |]. intros L.
    replace (S (length (ls_logs w)) - 1000)%nat with 0%nat by lia.
    reflexivity.
Qed.

(** *** Computations that only add to the log *)

Lemma appends_ret {A : Type} (x : A) : appends_log (ret x).
Proof. intros w. split; [reflexivity | auto]. Qed.

Lemma appends_throw {A : Type} (e : string) : appends_log (@throw A e).
Proof. intros w. split; [reflexivity | auto]. Qed.

Lemma appends_gets {A : Type} (f : World -> A) : appends_log (gets f).
Proof. intros w. split; [reflexivity | auto]. Qed.

Lemma appends_modify (f : World -> World) :
  (forall w, logs (f w) = logs w /\ ls_logs (f w) = ls_logs w) ->
  appends_log (modify f).
Proof.
  intros H w. destruct (H w) as [Hl Hs]. cbn [modify snd].
  rewrite Hl, Hs. split; [reflexivity | auto].
Qed.

Lemma appends_bind {A B : Type} (m : M A) (k : A -> M B) :
  appends_log m -> (forall x, appends_log (k x)) -> appends_log (bind m k).
Proof.
  intros Hm Hk w. unfold bind. specialize (Hm w).
  destruct (m w) as [[x | e] w1]; cbn [snd] in *; [| exact Hm].
  destruct Hm as [P1 B1]. destruct (Hk x w1) as [P2 B2].
  split; [etransitivity; eassumption | auto].
Qed.

Lemma appends_try_catch {A : Type} (m : M A) (handler : string -> M A) :
  appends_log m -> (forall e, appends_log (handler e)) ->
  appends_log (try_catch m handler).
Proof.
  intros Hm Hk w. unfold try_catch. specialize (Hm w).
  destruct (m w) as [[x | e] w1]; cbn [snd] in *; [exact Hm |].
  destruct Hm as [P1 B1]. destruct (Hk e w1) as [P2 B2].
  split; [etransitivity; eassumption | auto].
Qed.

Lemma appends_logger (level : LogEvent.level_t) (action : string) :
  appends_log (Logger.log level action).
Proof.
  intros w. split.
  - rewrite LoggerFacts.log_appends. apply prefix_app_r. reflexivity.
  - intros _. apply LoggerFacts.persistLog_bounded.
Qed.

Lemma appends_alloc (u : ShortenedURL.t) : appends_log (alloc u).
Proof. intros w. split; [reflexivity | auto]. Qed.

Lemma appends_update (l : loc) (f : ShortenedURL.t -> ShortenedURL.t) :
  appends_log (update l f).
Proof.
  apply appends_modify. intros w. destruct (heap w !! l); split; reflexivity.
Qed.

Lemma appends_saveToStorage : appends_log saveToStorage.
Proof.
  unfold saveToStorage.
  apply appends_bind; [apply appends_gets |]. intros us.
  apply appends_bind; [apply appends_modify; split; reflexivity |].
  intros _. apply appends_logger.
Qed.

Lemma appends_shortenUrl (u : string) (c : option string) (e : option Z)
    (env : ShortenEnv) :
  appends_log (shortenUrl u c e env).
Proof.
  unfold shortenUrl. cbv zeta.
  apply appends_bind; [apply appends_gets |].
  intros [|]; [apply appends_throw |].
  apply appends_bind; [apply appends_gets |].
  intros active. destruct (5 <=? length active)%nat.
  - apply appends_bind; [apply appends_logger |]. intros _.
    apply appends_throw.
  - apply appends_bind; [apply appends_alloc |]. intros l.
    apply appends_bind; [apply appends_modify; split; reflexivity |].
    intros _.
    apply appends_bind; [apply appends_modify; split; reflexivity |].
    intros _.
    apply appends_bind; [apply appends_saveToStorage |]. intros _.
    apply appends_bind; [apply appends_logger |]. intros _.
    apply appends_ret.
Qed.

Lemma appends_recordClick (c ua rf : string) (env : ClickEnv) :
  appends_log (recordClick c ua rf env).
Proof.
  unfold recordClick.
  apply appends_bind; [apply appends_gets |].
  intros [l |]; [| apply appends_ret].
  apply appends_bind; [apply appends_update |]. intros _.
  apply appends_bind; [apply appends_update |]. intros _.
  apply appends_bind; [apply appends_saveToStorage |]. intros _.
  apply appends_bind; [apply appends_logger |]. intros _.
  apply appends_ret.
Qed.

Lemma appends_deleteUrl (id : string) : appends_log (deleteUrl id).
Proof.
  unfold deleteUrl.
  apply appends_bind; [apply appends_gets |].
  intros [l |]; [| apply appends_ret].
  apply appends_bind; [apply appends_gets |]. intros code.
  apply appends_bind; [apply appends_modify; split; reflexivity |].
  intros _.
  apply appends_bind; [apply appends_modify; split; reflexivity |].
  intros _.
  apply appends_bind; [apply appends_saveToStorage |]. intros _.
  apply appends_bind; [apply appends_logger |]. intros _.
  apply appends_ret.
Qed.

Lemma appends_cleanupExpiredUrls (now : Z) :
  appends_log (cleanupExpiredUrls now).
Proof.
  unfold cleanupExpiredUrls.
  apply appends_bind; [apply appends_gets |]. intros swept.
  apply appends_bind; [apply appends_modify; split; reflexivity |].
  intros _.
  destruct (0 <? swept.2)%nat; [| apply appends_ret].
  apply appends_bind; [apply appends_saveToStorage |]. intros _.
  apply appends_logger.
Qed.

Lemma appends_getAllUrls : appends_log getAllUrls.
Proof.
  intros w. rewrite URLServiceFacts.getAllUrls_run.
  split; [reflexivity | auto].
Qed.

Lemma appends_load_each (us : list ShortenedURL.t) :
  appends_log (load_each us).
Proof.
  induction us as [| u us IH]; [apply appends_ret |].
  cbn [load_each].
  apply appends_bind; [apply appends_alloc |]. intros l.
  apply appends_bind; [apply appends_modify; split; reflexivity |].
  intros _.
  apply appends_bind; [apply appends_modify; split; reflexivity |].
  intros _. exact IH.
Qed.

Lemma appends_loadFromStorage : appends_log loadFromStorage.
Proof.
  unfold loadFromStorage.
  apply appends_bind; [apply appends_gets |].
  intros [us |]; [| apply appends_ret].
  apply appends_bind; [apply appends_load_each |]. intros _.
  apply appends_logger.
Qed.

Lemma appends_validateShortCode (shortCode : string) :
  appends_log (Validation.validateShortCode shortCode).
Proof.
  unfold Validation.validateShortCode. cbv zeta.
  apply appends_bind; [apply appends_logger |]. intros _.
  apply appends_ret.
Qed.

Section Platform.

Variable URL_protocol : string -> option string.

Lemma appends_validateUrl (url : string) :
  appends_log (Validation.validateUrl URL_protocol url).
Proof.
  unfold Validation.validateUrl. cbv zeta.
  apply appends_bind.
  - destruct (negb (Str.truthy (Str.trim url))); [apply appends_ret |].
    destruct (URL_protocol url) as [protocol |]; [| apply appends_ret].
    destruct (existsb _ _); [| apply appends_ret].
    apply appends_bind; [apply appends_logger |]. intros _.
    apply appends_ret.
  - intros errors.
    apply appends_bind; [apply appends_logger |]. intros _.
    apply appends_ret.
Qed.

Lemma appends_validateForm (st : URLShortener.State) :
  appends_log (URLShortener.validateForm URL_protocol st).
Proof.
  unfold URLShortener.validateForm. cbv zeta.
  apply appends_bind; [apply appends_validateUrl |]. intros v1.
  apply appends_bind.
  - destruct (Str.truthy (URLShortener.customShortCode st));
      [| apply appends_ret].
    apply appends_bind; [apply appends_validateShortCode |]. intros v2.
    apply appends_ret.
  - intros errs. apply appends_ret.
Qed.

Lemma appends_handleSubmit (st : URLShortener.State) (env : ShortenEnv) :
  appends_log (URLShortener.handleSubmit URL_protocol st env).
Proof.
  unfold URLShortener.handleSubmit. cbv zeta.
  apply appends_bind; [apply appends_validateForm |]. intros checked.
  destruct (negb checked.1).
  - apply appends_bind; [apply appends_logger |]. intros _.
    apply appends_ret.
  - apply appends_bind; [| intros st'; apply appends_ret].
    apply appends_try_catch.
    + apply appends_bind; [apply appends_shortenUrl |]. intros _.
      apply appends_bind.
      * unfold URLShortener.loadUrls.
        apply appends_bind; [apply appends_getAllUrls |]. intros a.
        apply appends_ret.
      * intros st'. apply appends_bind; [apply appends_logger |].
        intros _. apply appends_ret.
    + intros message. apply appends_bind; [apply appends_logger |].
      intros _. apply appends_ret.
Qed.

End Platform.

Lemma appends_effect (shortCode : option string) (env : RedirectHandler.Env) :
  appends_log (RedirectHandler.effect shortCode env).
Proof.
  unfold RedirectHandler.effect.
  destruct shortCode as [c |]; [| apply appends_ret].
  destruct (negb (Str.truthy c)); [apply appends_ret |].
  apply appends_bind; [apply appends_gets |].
  intros [l |].
  - apply appends_bind; [apply appends_gets |]. intros [|].
    + apply appends_bind; [apply appends_logger |]. intros _.
      apply appends_ret.
    + apply appends_bind; [apply appends_recordClick |]. intros _.
      apply appends_ret.
  - apply appends_bind; [apply appends_logger |]. intros _.
    apply appends_ret.
Qed.

Lemma appends_run (o : Spec.op) (w : World) :
  ((length (ls_logs w) <= 1000)%nat ->
   (length (ls_logs (Spec.run w o)) <= 1000)%nat) /\
  (Registry.is_reload o = false -> logs w `prefix_of` logs (Spec.run w o)).
Proof.
  destruct o as [x c e env | code now | code ua rf env | | id | now |];
    cbn [Spec.run Registry.is_reload].
  - destruct (appends_shortenUrl x c e env w). auto.
  - split; [auto | reflexivity].
  - destruct (appends_recordClick code ua rf env w). auto.
  - destruct (appends_getAllUrls w). auto.
  - destruct (appends_deleteUrl id w). auto.
  - destruct (appends_cleanupExpiredUrls now w). auto.
  - split; [| discriminate]. intros B.
    destruct (appends_loadFromStorage (Spec.new_page w)) as [_ H].
    apply H. exact B.
Qed.

(** X21: nothing is taken from the log. Within a page, every operation
    of the registry, every validation, a submission of the form and a
    visit of a short code leave the events of the log of the page in
    place and at most add events after them, whether the operation
    returns or throws; and through any sequence of operations and page
    loads the stored log never holds more than a thousand events, once
    it holds no more. *)
Theorem log_discipline (w0 : World) (ops : list Spec.op) :
  ((length (ls_logs w0) <= 1000)%nat ->
   (length (ls_logs (Spec.run_all w0 ops)) <= 1000)%nat) /\
  (forallb (fun o => negb (Registry.is_reload o)) ops = true ->
   logs w0 `prefix_of` logs (Spec.run_all w0 ops)) /\
  (forall URL_protocol st env,
     appends_log (URLShortener.handleSubmit URL_protocol st env)) /\
  (forall URL_protocol url,
     appends_log (Validation.validateUrl URL_protocol url)) /\
  (forall shortCode, appends_log (Validation.validateShortCode shortCode)) /\
  (forall shortCode env, appends_log (RedirectHandler.effect shortCode env)).
Proof.
  split; [| split].
  - revert w0. induction ops as [| o ops IH]; intros w0 B; [exact B |].
    cbn [Spec.run_all foldl]. apply IH. apply (appends_run o w0), B.
  - revert w0. induction ops as [| o ops IH]; intros w0 N; [reflexivity |].
    cbn [forallb] in N. apply andb_prop in N as [No N].
    apply negb_true_iff in No. cbn [Spec.run_all foldl].
    etransitivity; [apply (appends_run o w0), No | apply IH, N].
  - split; [intros; apply appends_handleSubmit |].
    split; [intros; apply appends_validateUrl |].
    split; [intros; apply appends_validateShortCode |].
    intros; apply appends_effect.
Qed.

(** The log of the sample registry is kept by a click and a tick of the
    sweep. *)
Lemma log_discipline_abc :
  (length (ls_logs (Spec.run_all Sample.w_abc
                      [Scenario.click_abc (Sample.t0 + 1) "a1b2c3d4e";
                       Spec.Reload])) <= 1000)%nat /\
  logs Sample.w_abc
  `prefix_of` logs (Spec.run_all Sample.w_abc
                      [Scenario.click_abc (Sample.t0 + 1) "a1b2c3d4e";
                       Spec.Sweep (Sample.t0 + 2)]).
Proof.
  destruct (log_discipline Sample.w_abc
              [Scenario.click_abc (Sample.t0 + 1) "a1b2c3d4e"; Spec.Reload])
    as (B & _).
  destruct (log_discipline Sample.w_abc
              [Scenario.click_abc (Sample.t0 + 1) "a1b2c3d4e";
               Spec.Sweep (Sample.t0 + 2)])
    as (_ & P & _).
  split.
  - apply B. apply Nat.leb_le. vm_compute. reflexivity.
  - apply P. reflexivity.
Defined.

End LoggerLaws.
